(** * Ziron transport engine: a shallow embedding of [Transport.ts]

    The development follows the TypeScript class [Transport]
    (src/lib/Transport.ts) and the protocol constants of [Protocol.ts].

    Conventions of the embedding.
    - JavaScript numbers that the transport uses as identifiers, counters,
      sizes and indices are integers of [Z]; the counters stay within
      [-2^53, 2^53], where the arithmetic of doubles is exact.
    - Byte buffers ([ArrayBuffer], [DataView]) are lists of [byte].
    - A JavaScript object is an association list of its own enumerable
      properties in insertion order; [obj_set] is the assignment
      [o[k] = v] and [obj_get] the read of an own property.
    - The registries of the transport are plain objects ([= {}]): a [gmap]
      from property names to entries for the own properties, read with
      [registry_get], which also finds what [Object.prototype] gives to
      every plain object. A value used as index is turned into a property
      name by [ToPropertyKey].
    - Code that may throw returns a [result]; calls that leave the transport
      (the connector's hooks, [send], timers, methods of stream objects)
      are appended to a trace, together with the bad connection stamp and
      the [open] flag they can observe at that moment. *)

From Stdlib Require Import ZArith Lia.
From Stdlib.Strings Require Import Byte Ascii.
From stdpp Require Import gmap strings list pretty.

Set Warnings "-register-all".
Open Scope Z_scope.

(** ** Numbers, bytes and protocol constants *)

Definition MAX_SAFE_INTEGER : Z := 2 ^ 53 - 1.
Definition MIN_SAFE_INTEGER : Z := - (2 ^ 53 - 1).

(** Modelled from the spec: [MAX_UINT_32] is declared in [Utils], which is
    not among the sources; it is the largest unsigned 32 bit integer. *)
Definition MAX_UINT_32 : Z := 4294967295.

Definition PING_UINT8 : Z := 57.
Definition PONG_UINT8 : Z := 65.
Definition NEXT_BINARIES_PACKET_TOKEN : Z := MAX_UINT_32.

Inductive PacketType :=
| Bundle | Transmit | Invoke | InvokeDataResp | InvokeErrResp | BinaryContent
| StreamAccept | StreamChunk | StreamEnd | StreamDataPermission
| WriteStreamClose | ReadStreamClose.

(** The numeric value of each member of the [const enum PacketType]. *)
Definition PacketType_code (p : PacketType) : Z :=
  match p with
  | Bundle => 0 | Transmit => 1 | Invoke => 2 | InvokeDataResp => 3
  | InvokeErrResp => 4 | BinaryContent => 5 | StreamAccept => 6
  | StreamChunk => 7 | StreamEnd => 8 | StreamDataPermission => 9
  | WriteStreamClose => 10 | ReadStreamClose => 11
  end.

(** Modelled from the spec: the enumeration [DataType] is declared in
    [DataType.ts], which is not among the sources; its members are the ones
    of section 3 of the specification. *)
Inductive DataType :=
| JSON | Binary | Stream
| JSONWithStreams | JSONWithBinaries | JSONWithStreamsAndBinaries.

(** Modelled from the spec: [parseJSONDataType] of [DataType.ts], and what
    section 3 says of the members of the enumeration: which of them are the
    mixed forms and which of them hold streams. *)
Definition parseJSONDataType (containsBinary containsStream : bool) : DataType :=
  if containsBinary
  then (if containsStream then JSONWithStreamsAndBinaries else JSONWithBinaries)
  else (if containsStream then JSONWithStreams else JSON).

Definition mixed_member (d : DataType) : bool :=
  match d with
  | JSONWithStreams | JSONWithBinaries | JSONWithStreamsAndBinaries => true
  | _ => false
  end.

Definition stream_member (d : DataType) : bool :=
  match d with
  | Stream | JSONWithStreams | JSONWithStreamsAndBinaries => true
  | _ => false
  end.

#[global] Instance DataType_eq_dec : EqDecision DataType.
Proof. solve_decision. Defined.

Definition byte_value (b : byte) : Z := Z.of_N (Byte.to_N b).

(** Unsigned big endian reading of a run of bytes. *)
Fixpoint be_value (acc : Z) (bs : list byte) : Z :=
  match bs with
  | [] => acc
  | b :: r => be_value (acc * 256 + byte_value b) r
  end.

(** [slice buffer from to] is [buffer.slice(from, to)] for [0 <= from]: the
    bytes at the positions [from <= i < to] that exist. *)
Fixpoint slice_from (i : Z) (l : list byte) (from to : Z) : list byte :=
  match l with
  | [] => []
  | b :: r =>
      if (from <=? i) && (i <? to)
      then b :: slice_from (i + 1) r from to
      else slice_from (i + 1) r from to
  end.

Definition slice (l : list byte) (from to : Z) : list byte := slice_from 0 l from to.

Definition byteLength (l : list byte) : Z := Z.of_nat (length l).

(** The value of an IEEE 754 binary64 datum, as far as the embedding can
    name it: an integer, or a number that is no integer (a fraction, an
    infinity or a NaN), kept by its bits. Identifiers on the wire are
    integers. *)
Inductive Float64 :=
| Integral (z : Z)
| NonIntegral (bits : Z).

Definition float64_of_bits (bits : Z) : Float64 :=
  let negative := Z.testbit bits 63 in
  let e := Z.land (Z.shiftr bits 52) 2047 in
  let m := Z.land bits (2 ^ 52 - 1) in
  if e =? 2047 then NonIntegral bits
  else if e =? 0 then (if m =? 0 then Integral 0 else NonIntegral bits)
  else
    let significand := 2 ^ 52 + m in
    let k := e - 1075 in
    if 0 <=? k
    then Integral ((if negative then -1 else 1) * (significand * 2 ^ k))
    else if significand mod 2 ^ (- k) =? 0
         then Integral ((if negative then -1 else 1) * (significand / 2 ^ (- k)))
         else NonIntegral bits.

Arguments float64_of_bits : simpl never.
Arguments be_value : simpl never.

(** ** JavaScript values *)

(** A write stream handed to the transport by the user: [binary] is the
    field the transport reads, [label] stands for the identity of the
    object. *)
Record WriteStream := { binary : bool; label : nat }.

(** A read stream made by the transport with [new readStream(id, this)];
    the identifier is [None] when the constructor was given a value that is
    no number. *)
Record ReadStream := { rs_id : option Z }.

Inductive value :=
| VUndefined
| VNull
| VBool (b : bool)
| VNumber (n : Z)
| VString (s : string)
| VDate (time : Z)
| VArrayBuffer (bytes : list byte)
| VWriteStream (w : WriteStream)
| VReadStream (r : ReadStream)
| VArray (items : list value)
| VObject (props : list (string * value)).

Definition obj_get (k : string) (o : list (string * value)) : option value :=
  snd <$> List.find (fun p => String.eqb (fst p) k) o.

(** The own property [k] of [o] created, or updated in its place. *)
Fixpoint obj_define (k : string) (v : value) (o : list (string * value))
  : list (string * value) :=
  match o with
  | [] => [(k, v)]
  | (k', v') :: o' =>
      if String.eqb k' k then (k, v) :: o' else (k', v') :: obj_define k v o'
  end.

(** The assignment [o[k] = v] on an object made by [{}], whose own
    properties are data properties. The name [__proto__] is the accessor
    that [Object.prototype] gives to the object: assigning to it sets the
    prototype of [o], or does nothing when [v] is no object, and makes no
    own property. What an object inherits is not part of a [value]. *)
Definition obj_set (k : string) (v : value) (o : list (string * value))
  : list (string * value) :=
  if String.eqb k "__proto__" then o else obj_define k v o.

(** The name of the property indexed by a number that is an integer below
    [10^21] in magnitude: its decimal numeral. *)
Definition number_key (z : Z) : string := pretty z.

(** The names that [Object.prototype] defines, for every object made by
    [{}]: reading one of them on such an object gives a function, or the
    prototype itself for [__proto__], unless the object has an own property
    of the name. None of them has one of the members that the transport
    calls on an entry of a registry. *)
Definition prototype_member (key : string) : bool :=
  bool_decide (key ∈ ["constructor"; "__defineGetter__"; "__defineSetter__";
                      "hasOwnProperty"; "__lookupGetter__"; "__lookupSetter__";
                      "isPrototypeOf"; "propertyIsEnumerable"; "toString";
                      "valueOf"; "__proto__"; "toLocaleString"]%string).

(** What [registry[key]] gives on a registry made by [{}]: the own entry,
    a member of [Object.prototype], or [undefined]. *)
Inductive Found (A : Type) :=
| Own (a : A)
| Inherited
| Absent.
Arguments Own {A} a.
Arguments Inherited {A}.
Arguments Absent {A}.

Definition registry_get {A} (registry : gmap string A) (key : string) : Found A :=
  match registry !! key with
  | Some a => Own a
  | None => if prototype_member key then Inherited else Absent
  end.

(** [if (entry)]: an own entry and a member of the prototype are both
    truthy. *)
Definition found {A} (entry : Found A) : bool :=
  match entry with
  | Absent => false
  | _ => true
  end.

(** Induction on values that reaches the elements of arrays and the
    property values of objects. *)
Section value_induction.
Variable P : value -> Prop.
Hypothesis Pundefined : P VUndefined.
Hypothesis Pnull : P VNull.
Hypothesis Pbool : forall b, P (VBool b).
Hypothesis Pnumber : forall n, P (VNumber n).
Hypothesis Pstring : forall s, P (VString s).
Hypothesis Pdate : forall t, P (VDate t).
Hypothesis Pbuffer : forall b, P (VArrayBuffer b).
Hypothesis Pwrite : forall w, P (VWriteStream w).
Hypothesis Pread : forall r, P (VReadStream r).
Hypothesis Parray : forall items, Forall P items -> P (VArray items).
Hypothesis Pobject : forall props, Forall (fun p => P (snd p)) props -> P (VObject props).

Fixpoint value_deep_ind (v : value) : P v :=
  match v with
  | VUndefined => Pundefined
  | VNull => Pnull
  | VBool b => Pbool b
  | VNumber n => Pnumber n
  | VString s => Pstring s
  | VDate t => Pdate t
  | VArrayBuffer b => Pbuffer b
  | VWriteStream w => Pwrite w
  | VReadStream r => Pread r
  | VArray items =>
      Parray items
        ((fix go (l : list value) : Forall P l :=
            match l with
            | [] => List.Forall_nil P
            | x :: r => List.Forall_cons P x r (value_deep_ind x) (go r)
            end) items)
  | VObject props =>
      Pobject props
        ((fix go (l : list (string * value)) : Forall (fun p => P (snd p)) l :=
            match l with
            | [] => List.Forall_nil _
            | p :: r => List.Forall_cons _ p r (value_deep_ind (snd p)) (go r)
            end) props)
  end.
End value_induction.

(** ** Errors and results *)

(** Modelled from the spec: [BadConnectionType], [TimeoutType] and the error
    classes are declared in [Errors], which is not among the sources; a bad
    connection type is kept by its name. [HydratedError raw] is
    [hydrateError(raw)] of [ErrorUtils] and [UserError] an exception raised
    by code of the user. [TypeError] is the error of the language for a
    call of what is no function, for a read of a property of [null] or
    [undefined], and for an object that cannot be turned into a primitive
    value; a [TimeoutError] is kept with the name of the identifier that its
    message quotes. *)
Definition BadConnectionType := string.

Inductive TimeoutType := BinaryResolve | InvokeResponse.

Inductive Error :=
| JsError (msg : string)
| RangeError
| TypeError
| InvalidActionError (callId : Z)
| BadConnectionError (type : BadConnectionType) (msg : option string)
| TimeoutError (type : TimeoutType) (id : string)
| MaxSupportedArrayBufferSizeExceededError (size : Z)
| HydratedError (raw : value)
| UserError (tag : nat).

Inductive result (A : Type) :=
| Ok (a : A)
| Throw (e : Error).
Arguments Ok {A} a.
Arguments Throw {A} e.

#[global] Instance result_ret : MRet result := fun A a => Ok a.
#[global] Instance result_bind : MBind result := fun A B k r =>
  match r with
  | Ok a => k a
  | Throw e => Throw e
  end.

(** [DataView.getUint32(offset)] and [DataView.getFloat64(offset)], both big
    endian; reading past the end of the buffer throws a [RangeError]. *)
Definition getUint32 (view : list byte) (offset : Z) : result Z :=
  if (0 <=? offset) && (offset + 4 <=? byteLength view)
  then Ok (be_value 0 (slice view offset (offset + 4)))
  else Throw RangeError.

Definition getFloat64 (view : list byte) (offset : Z) : result Float64 :=
  if (0 <=? offset) && (offset + 8 <=? byteLength view)
  then Ok (float64_of_bits (be_value 0 (slice view offset (offset + 8))))
  else Throw RangeError.

(** ** Options, registries and the state of a transport *)

Record TransportOptions := {
  responseTimeout : Z;
  binaryContentPacketTimeout : Z;
  streamsPerPackageLimit : Z;
  streamsEnabled : bool;
  chunksCanContainStreams : bool
}.

Definition DEFAULT_OPTIONS : TransportOptions := {|
  responseTimeout := 10000;
  binaryContentPacketTimeout := 10000;
  streamsPerPackageLimit := 20;
  streamsEnabled := true;
  chunksCanContainStreams := false
|}.

(** The [dataType] slot of an inbound packet: whatever JSON value stands
    there. The transport never checks it before it compares it with the
    members of [DataType]. *)
Definition TypeSlot := value.

(** The number that a value is, when it is one: the identifier that a read
    stream is made with (a stream made from another value has none), and
    the close code of a stream. *)
Definition number_of (v : value) : option Z :=
  match v with
  | VNumber n => Some n
  | _ => None
  end.

(** Outbound messages. A text message is the comma separated list of its
    fields; [FJson v] is [encodeJson(v)], [FName s] is the quoted
    [escapeJSONString(s)] and [FError e] is
    [encodeJson(dehydrateError(e))]. *)
Inductive Field :=
| FPacketType (p : PacketType)
| FNumber (n : Z)
| FName (s : string)
| FDataType (d : DataType)
| FJson (v : value)
| FError (e : value).

Inductive Message :=
| TextMessage (fields : list Field)
| BinaryContentMessage (refId : Z) (content : list (list byte))
| BinaryStreamMessage (type : PacketType) (streamId : Z) (binary : list byte)
| PingMessage
| PongMessage.

(** A pending timer ([setTimeout]) with its delay. *)
Record Timer := { delay : Z }.

(** The callback given to [_processData]: the closures written in
    [_processJsonActionPacket], [_processJsonStreamChunk] and
    [_processJsonStreamEnd]. The closure of a response holds the entry
    [resp] that was found: the pending invoke registered under [callId], or
    a member of [Object.prototype] ([InheritedRespCallback]). The closure of
    a chunk holds the functions of the promise made for the stream found
    under [streamId]. *)
Inductive DataCallback :=
| TransmitCallback (receiver : string) (type : TypeSlot)
| InvokeCallback (procedure : string) (callId : Z) (type : TypeSlot)
| InvokeRespCallback (callId : string) (withDataType : bool) (type : TypeSlot)
| InheritedRespCallback
| ChunkCallback (streamId : string).

(** The callback given to [_resolveBinaryContent]: the two closures written
    in [_processData]. *)
Inductive BinariesCallback :=
| FirstBinary (callback : DataCallback)
| MixedWithBinaries (data : value) (parseStreams parseBinaries : bool)
    (callback : DataCallback).

Record BinaryContentResolver := {
  callback : BinariesCallback;
  resolver_timeout : Timer
}.

Record InvokeResponsePromise := {
  timeout : option Timer;
  returnDataType : bool
}.

(** What the user's [onInvoke] listener does with the two callbacks it
    receives. A guarded use sits in a [try]/[catch] of the listener. *)
Inductive CallbackUse :=
| UseEnd (data : value) (processComplexTypes : bool)
| UseReject (err : value).

Inductive ListenerStep :=
| Use (guarded : bool) (u : CallbackUse)
| Disconnect (type : BadConnectionType) (msg : option string)
| Raise (e : Error).

(** The hooks of the connector. A hook that returns [Some e] throws [e];
    [connector_send] is the function [send] of the connector, which may
    throw as well. *)
Record Connector := {
  onInvalidMessage : Error -> option Error;
  onListenerError : Error -> option Error;
  onTransmit : string -> value -> TypeSlot -> option Error;
  onInvoke : string -> value -> TypeSlot -> list ListenerStep;
  onPing : option Error;
  onPong : option Error;
  connector_send : Message -> option Error
}.

Inductive WriteStreamMethod :=
| ws_init (streamId : Z)
| ws_onTransmitted
| ws_open (bufferSize : Z)
| ws_addDataPermission (size : Z)
| ws_readStreamClose (closeCode : option Z)
| ws_emitBadConnection.

Inductive ReadStreamMethod :=
| rs_pushChunk (type : TypeSlot)
| rs_pushBinaryChunk (binary : list byte)
| rs_end
| rs_writeStreamClose (closeCode : Z)
| rs_emitBadConnection.

(** The calls that leave the transport. The callback of a resolver, the
    functions of the promise of an invoke and the settling of the promise of
    a chunk are named by the property name that the resolver, the pending
    invoke or the stream is registered under. *)
Inductive Call :=
| Called_onInvalidMessage (err : Error)
| Called_onListenerError (err : Error)
| Called_onPing
| Called_onPong
| Called_onTransmit (receiver : string) (data : value) (type : TypeSlot)
| Called_onInvoke (procedure : string) (callId : Z) (data : value) (type : TypeSlot)
| Called_send (msg : Message)
| Called_clearTimeout (timer : option Timer)
| Called_clearBatchTime
| Called_resolverCallback (id : string) (err : option Error)
    (binaries : list (list byte))
| Called_resolve (callId : string) (data : value) (type : option TypeSlot)
| Called_reject (callId : string) (err : Error)
| Called_chunkSettled (streamId : string) (chunk : result value)
| Called_writeStream (w : WriteStream) (m : WriteStreamMethod)
| Called_readStream (r : ReadStream) (m : ReadStreamMethod).

(** An entry of the trace: the call and what the callee can read of the
    transport when it runs. *)
Record Entry := {
  seen_stamp : Z;
  seen_open : bool;
  call : Call
}.

Record Transport := {
  options : TransportOptions;
  connector : Connector;
  badConnectionStamp : Z;
  _binaryContentPacketId : Z;
  _binaryContentResolver : gmap string BinaryContentResolver;
  _objectStreamId : Z;
  _binaryStreamId : Z;
  _activeReadStreams : gmap string ReadStream;
  _activeWriteStreams : gmap string WriteStream;
  _cid : Z;
  _invokeResponsePromises : gmap string InvokeResponsePromise;
  open : bool;
  trace : list Entry
}.

(** The transport right after its constructor has run. *)
Definition new_Transport (c : Connector) (o : TransportOptions) (connected : bool)
  : Transport := {|
  options := o;
  connector := c;
  badConnectionStamp := MIN_SAFE_INTEGER;
  _binaryContentPacketId := 0;
  _binaryContentResolver := ∅;
  _objectStreamId := 1;
  _binaryStreamId := -1;
  _activeReadStreams := ∅;
  _activeWriteStreams := ∅;
  _cid := 0;
  _invokeResponsePromises := ∅;
  open := connected;
  trace := []
|}.

Definition set_badConnectionStamp (x : Z) (t : Transport) : Transport :=
  let (o, c, _, bi, br, os, bs, ar, aw, ci, ip, op, tr) := t in
  Build_Transport o c x bi br os bs ar aw ci ip op tr.
Definition set_binaryContentPacketId (x : Z) (t : Transport) : Transport :=
  let (o, c, st, _, br, os, bs, ar, aw, ci, ip, op, tr) := t in
  Build_Transport o c st x br os bs ar aw ci ip op tr.
Definition set_binaryContentResolver (x : gmap string BinaryContentResolver)
  (t : Transport) : Transport :=
  let (o, c, st, bi, _, os, bs, ar, aw, ci, ip, op, tr) := t in
  Build_Transport o c st bi x os bs ar aw ci ip op tr.
Definition set_objectStreamId (x : Z) (t : Transport) : Transport :=
  let (o, c, st, bi, br, _, bs, ar, aw, ci, ip, op, tr) := t in
  Build_Transport o c st bi br x bs ar aw ci ip op tr.
Definition set_binaryStreamId (x : Z) (t : Transport) : Transport :=
  let (o, c, st, bi, br, os, _, ar, aw, ci, ip, op, tr) := t in
  Build_Transport o c st bi br os x ar aw ci ip op tr.
Definition set_activeReadStreams (x : gmap string ReadStream) (t : Transport) : Transport :=
  let (o, c, st, bi, br, os, bs, _, aw, ci, ip, op, tr) := t in
  Build_Transport o c st bi br os bs x aw ci ip op tr.
Definition set_activeWriteStreams (x : gmap string WriteStream) (t : Transport) : Transport :=
  let (o, c, st, bi, br, os, bs, ar, _, ci, ip, op, tr) := t in
  Build_Transport o c st bi br os bs ar x ci ip op tr.
Definition set_cid (x : Z) (t : Transport) : Transport :=
  let (o, c, st, bi, br, os, bs, ar, aw, _, ip, op, tr) := t in
  Build_Transport o c st bi br os bs ar aw x ip op tr.
Definition set_invokeResponsePromises (x : gmap string InvokeResponsePromise)
  (t : Transport) : Transport :=
  let (o, c, st, bi, br, os, bs, ar, aw, ci, _, op, tr) := t in
  Build_Transport o c st bi br os bs ar aw ci x op tr.
Definition set_open (x : bool) (t : Transport) : Transport :=
  let (o, c, st, bi, br, os, bs, ar, aw, ci, ip, _, tr) := t in
  Build_Transport o c st bi br os bs ar aw ci ip x tr.
Definition set_trace (x : list Entry) (t : Transport) : Transport :=
  let (o, c, st, bi, br, os, bs, ar, aw, ci, ip, op, _) := t in
  Build_Transport o c st bi br os bs ar aw ci ip op x.

(** ** Computations on a state that may throw *)

Definition StateM (S A : Type) : Type := S -> result A * S.

#[global] Instance StateM_ret {S} : MRet (StateM S) := fun A a s => (Ok a, s).
#[global] Instance StateM_bind {S} : MBind (StateM S) := fun A B k m s =>
  match m s with
  | (Ok a, s') => k a s'
  | (Throw e, s') => (Throw e, s')
  end.

Definition throw {S A} (e : Error) : StateM S A := fun s => (Throw e, s).

(** [try { body } catch (e) { handler e }] *)
Definition try_catch {S A} (body : StateM S A) (handler : Error -> StateM S A)
  : StateM S A := fun s =>
  match body s with
  | (Throw e, s') => handler e s'
  | r => r
  end.

Definition gets {S A} (f : S -> A) : StateM S A := fun s => (Ok (f s), s).
Definition modify {S} (f : S -> S) : StateM S unit := fun s => (Ok tt, f s).

(** The computations of the transport itself. *)
Abbreviation M := (StateM Transport).

(** Records a call that leaves the transport. *)
Definition called (c : Call) : M unit :=
  modify (fun t =>
    set_trace (trace t ++ [ {| seen_stamp := badConnectionStamp t;
                               seen_open := open t; call := c |} ]) t).

(** Runs a hook of the connector: the call is recorded, and the hook
    returns or throws. *)
Definition hook (c : Call) (outcome : option Error) : M unit :=
  _ ← called c;
  match outcome with
  | None => mret tt
  | Some e => throw e
  end.

(** The calls of a trace, without what they saw. *)
Definition calls (t : Transport) : list Call := call <$> trace t.

(** ** Identifiers *)

Definition _getNewBinaryContentPacketId : M Z := fun t =>
  let t1 := if MAX_SAFE_INTEGER <? _binaryContentPacketId t
            then set_binaryContentPacketId 0 t else t in
  (Ok (_binaryContentPacketId t1),
   set_binaryContentPacketId (_binaryContentPacketId t1 + 1) t1).

Definition _generateNewBadConnectionStamp (t : Transport) : Z :=
  if MAX_SAFE_INTEGER <? badConnectionStamp t
  then MIN_SAFE_INTEGER else badConnectionStamp t + 1.

Definition _getNewCid : M Z := fun t =>
  let t1 := if MAX_SAFE_INTEGER <? _cid t then set_cid 0 t else t in
  (Ok (_cid t1), set_cid (_cid t1 + 1) t1).

Definition _getNewStreamId (binaryStream : bool) : M Z := fun t =>
  if binaryStream then
    let t1 := if _binaryStreamId t <? MIN_SAFE_INTEGER
              then set_binaryStreamId (-1) t else t in
    (Ok (_binaryStreamId t1), set_binaryStreamId (_binaryStreamId t1 - 1) t1)
  else
    let t1 := if MAX_SAFE_INTEGER <? _objectStreamId t
              then set_objectStreamId 1 t else t in
    (Ok (_objectStreamId t1), set_objectStreamId (_objectStreamId t1 + 1) t1).

(** ** The helpers taken from outside the class *)

(** [escapePlaceholderSequence] and [unescapePlaceholderSequence] are
    declared in [Utils], [toJSON] in [WriteStream], and the enumeration
    [DataType] with [isMixedJSONDataType] and [containsStreams] in
    [DataType.ts]; none of them is among the sources, so the transport is
    defined over any implementation of them. [DataType_code] is the numeric
    value of a member of the enumeration. The two functions are called with
    whatever stands in the type slot of a packet; of what they return the
    embedding knows what section 3 says of the members, and nothing for any
    other value. [hostNumberToString] is [Number.prototype.toString] of the
    host on the numbers that have no decimal numeral (fractions, infinities,
    NaN, and integers from [10^21] on), and [hostDateToString] is
    [Date.prototype.toString] on a time value. *)
Class Helpers := {
  escapePlaceholderSequence : string -> string;
  unescapePlaceholderSequence : string -> string;
  toJSON : WriteStream -> value;
  hostNumberToString : Float64 -> string;
  hostDateToString : Z -> string;
  DataType_code : DataType -> Z;
  isMixedJSONDataType : value -> bool;
  containsStreams : value -> bool;
  DataType_code_inj : forall d d', DataType_code d = DataType_code d' -> d = d';
  isMixedJSONDataType_member :
    forall d, isMixedJSONDataType (VNumber (DataType_code d)) = mixed_member d;
  containsStreams_member :
    forall d, containsStreams (VNumber (DataType_code d)) = stream_member d
}.

(** The member [d] of [DataType] as it stands in a packet, and the test
    [type === DataType.d] on a type slot. *)
Definition KnownType {helpers : Helpers} (d : DataType) : TypeSlot :=
  VNumber (DataType_code d).

Definition is_type {helpers : Helpers} (type : TypeSlot) (d : DataType) : bool :=
  match type with
  | VNumber n => n =? DataType_code d
  | _ => false
  end.

(** ** Property names *)

(** [String(f)] for a number. *)
Definition float_name {helpers : Helpers} (f : Float64) : string :=
  match f with
  | Integral z => if Z.abs z <? 10 ^ 21 then number_key z else hostNumberToString f
  | NonIntegral _ => hostNumberToString f
  end.

Definition join_names (names : list string) : string :=
  match names with
  | [] => ""
  | n :: r => fold_left (fun acc s => acc +:+ "," +:+ s) r n
  end.

(** [ToPropertyKey(v)], the conversion that the language applies to the
    index of [registry[v]]: the string that [v] is turned into. An array is
    the list of its elements joined by commas, [null] and [undefined]
    counting as empty; an object made by [{}] is [[object Object]], unless
    an own property hides [toString]: JSON gives no function, so the
    conversion finds nothing to call and throws. *)
Fixpoint ToPropertyKey {helpers : Helpers} (v : value) : result string :=
  match v with
  | VUndefined => Ok "undefined"
  | VNull => Ok "null"
  | VBool true => Ok "true"
  | VBool false => Ok "false"
  | VNumber n => Ok (float_name (Integral n))
  | VString s => Ok s
  | VDate time => Ok (hostDateToString time)
  | VArrayBuffer _ => Ok "[object ArrayBuffer]"
  | VWriteStream _ | VReadStream _ => Ok "[object Object]"
  | VArray items =>
      names ← (fix go (l : list value) : result (list string) :=
                 match l with
                 | [] => Ok []
                 | x :: r =>
                     name ← match x with
                            | VUndefined | VNull => Ok ""
                            | _ => ToPropertyKey x
                            end;
                     names ← go r;
                     Ok (name :: names)
                 end) items;
      Ok (join_names names)
  | VObject props =>
      match obj_get "toString" props with
      | Some _ => Throw TypeError
      | None => Ok "[object Object]"
      end
  end%string.

(** Modelled from the spec: [MAX_SUPPORTED_ARRAY_BUFFER_SIZE] is declared in
    [Utils], which is not among the sources; section 6 gives it as the
    largest 32 bit length minus one byte. *)
Definition MAX_SUPPORTED_ARRAY_BUFFER_SIZE : Z := MAX_UINT_32 - 1.

(** ** The value codec *)

(** [for (let i = 0; i < len; i++) f(items[i])], left to right. *)
Definition each_item {S} (f : value -> StateM S value)
  : list value -> StateM S (list value) :=
  fix go l :=
    match l with
    | [] => mret []
    | x :: r => x' ← f x; r' ← go r; mret (x' :: r')
    end.

(** [for (const key in o) clone[rename(key)] = f(o[key])], in the order of
    the properties. *)
Definition each_prop {S} (rename : string -> string) (f : value -> StateM S value)
  : list (string * value) -> list (string * value) -> StateM S (list (string * value)) :=
  fix go l clone :=
    match l with
    | [] => mret clone
    | p :: r => v' ← f (snd p); go r (obj_set (rename (fst p)) v' clone)
    end.

(** The state of the encoding walk: the transport, the array [binaries] and
    the array [streams]; a stream is kept with the identifier that [_init]
    bound it to. *)
Record Walk := {
  w_transport : Transport;
  w_binaries : list (list byte);
  w_streams : list (WriteStream * Z)
}.

Definition on_transport {A} (m : M A) : StateM Walk A := fun w =>
  let (r, t') := m (w_transport w) in
  (r, {| w_transport := t'; w_binaries := w_binaries w; w_streams := w_streams w |}).

(** [binaries.push(data) - 1] *)
Definition push_binary (b : list byte) : StateM Walk Z := fun w =>
  (Ok (Z.of_nat (length (w_binaries w))),
   {| w_transport := w_transport w; w_binaries := w_binaries w ++ [b];
      w_streams := w_streams w |}).

(** [streams.push(data)] *)
Definition push_stream (s : WriteStream) (streamId : Z) : StateM Walk unit :=
  modify (fun w =>
    {| w_transport := w_transport w; w_binaries := w_binaries w;
       w_streams := w_streams w ++ [(s, streamId)] |}).

(** The state of the resolving walk: the argument [meta]. *)
Record Meta := {
  meta_binaries : option (list (list byte));
  streamCount : Z
}.

(** [binaries[i]] *)
Definition binary_at (bs : list (list byte)) (i : Z) : value :=
  if i <? 0 then VUndefined
  else match bs !! Z.to_nat i with
       | Some b => VArrayBuffer b
       | None => VUndefined
       end.

Section Codec.
Context {helpers : Helpers}.

Fixpoint _processMixedJSONDeepWalk (data : value) : StateM Walk value :=
  match data with
  | VArrayBuffer b =>
      i ← push_binary b;
      mret (VObject [("_b"%string, VNumber i)])
  | VWriteStream s =>
      streamsOn ← on_transport (gets (fun t => streamsEnabled (options t)));
      if streamsOn : bool then
        streamId ← on_transport (_getNewStreamId (binary s));
        _ ← on_transport (called (Called_writeStream s (ws_init streamId)));
        _ ← push_stream s streamId;
        mret (VObject [("_s"%string, VNumber streamId)])
      else mret (toJSON s)
  | VArray items =>
      newArray ← each_item _processMixedJSONDeepWalk items;
      mret (VArray newArray)
  | VObject props =>
      clone ← each_prop escapePlaceholderSequence _processMixedJSONDeepWalk props [];
      mret (VObject clone)
  | VReadStream _ => mret (VObject [])
  | VDate _ | VUndefined | VNull | VBool _ | VNumber _ | VString _ => mret data
  end.

(** [_processMixedJSONDeep(data, binaries, streams)] called, as everywhere
    in the class, with two fresh arrays; the arrays are returned with the
    encoded value. *)
Definition _processMixedJSONDeep (data : value)
  : M (value * list (list byte) * list (WriteStream * Z)) := fun t =>
  let (r, w) := _processMixedJSONDeepWalk data
                  {| w_transport := t; w_binaries := []; w_streams := [] |} in
  (match r with
   | Ok v => Ok (v, w_binaries w, w_streams w)
   | Throw e => Throw e
   end, w_transport w).

(** The branch of [_internalResolveMixedJSONDeep] for an object that is no
    array, with the enumerable properties [props]. *)
Definition resolve_object (limit : Z) (parseStreams parseBinaries : bool)
  (walk : value -> StateM Meta value) (props : list (string * value))
  : StateM Meta value :=
  match parseBinaries, obj_get "_b" props with
  | true, Some (VNumber i) =>
      binaries ← gets meta_binaries;
      match binaries with
      | None =>
          throw (JsError "Can not resolve binary data without binary content packet.")
      | Some bs => mret (binary_at bs i)
      end
  | _, _ =>
      match parseStreams, obj_get "_s" props with
      | true, Some (VNumber sid) =>
          count ← gets streamCount;
          if limit <=? count then throw (JsError "Max stream limit reached.")
          else
            _ ← modify (fun m => {| meta_binaries := meta_binaries m;
                                    streamCount := streamCount m + 1 |});
            mret (VReadStream {| rs_id := Some sid |})
      | _, _ =>
          clone ← each_prop unescapePlaceholderSequence walk props [];
          mret (VObject clone)
      end
  end.

(** [_internalResolveMixedJSONDeep(obj, key, options, meta)]: the result is
    the value left in [obj[key]]. Dates, buffers and stream objects have
    no enumerable property. *)
Fixpoint _internalResolveMixedJSONDeep (limit : Z) (parseStreams parseBinaries : bool)
  (v : value) : StateM Meta value :=
  match v with
  | VArray items =>
      items' ← each_item
                 (_internalResolveMixedJSONDeep limit parseStreams parseBinaries) items;
      mret (VArray items')
  | VObject props =>
      resolve_object limit parseStreams parseBinaries
        (_internalResolveMixedJSONDeep limit parseStreams parseBinaries) props
  | VDate _ | VArrayBuffer _ | VWriteStream _ | VReadStream _ =>
      resolve_object limit parseStreams parseBinaries
        (_internalResolveMixedJSONDeep limit parseStreams parseBinaries) []
  | VUndefined | VNull | VBool _ | VNumber _ | VString _ => mret v
  end.

(** [_resolveMixedJSONDeep(data, options, binaries)]; the walk starts with
    a stream count of 0. The final state of [meta] is returned too. *)
Definition _resolveMixedJSONDeep (o : TransportOptions) (data : value)
  (parseStreams parseBinaries : bool) (binaries : option (list (list byte)))
  : result value * Meta :=
  _internalResolveMixedJSONDeep (streamsPerPackageLimit o) parseStreams parseBinaries
    data {| meta_binaries := binaries; streamCount := 0 |}.

End Codec.

(** ** Outbound packets *)

(** [send(msg, ...)]: the message is handed to the function of the
    connector, which returns or throws. The default [cork] runs its callback
    at once, so corked sends are made in their order, and what one of them
    throws leaves [cork]. *)
Definition send (msg : Message) : M unit :=
  c ← gets connector; hook (Called_send msg) (connector_send c msg).

(** [data !== undefined ? (',' + encodeJson(data)) : ''] *)
Definition json_field (data : value) : list Field :=
  match data with
  | VUndefined => []
  | _ => [FJson data]
  end.

(** The size check of [_createBinaryContentPacket] on each item, in order. *)
Fixpoint check_sizes (content : list (list byte)) : result unit :=
  match content with
  | [] => Ok tt
  | item :: r =>
      if MAX_SUPPORTED_ARRAY_BUFFER_SIZE <? byteLength item
      then Throw (MaxSupportedArrayBufferSizeExceededError (byteLength item))
      else check_sizes r
  end.

(** [Transport._createBinaryContentPacket(refId, content)]; the frame is kept
    by its content, its byte layout is the one [_processBinaryContentPacket]
    reads. *)
Definition _createBinaryContentPacket (refId : Z) (content : list (list byte))
  : result Message :=
  match check_sizes content with
  | Ok _ => Ok (BinaryContentMessage refId content)
  | Throw e => Throw e
  end.

Definition lift_result {S A} (r : result A) : StateM S A := fun s => (r, s).

(** A package as the senders build it: the text head [pack[0]] and the
    binary frame [pack[1]]. *)
Record Package := {
  head : list Field;
  binaryFrame : option Message
}.

Definition _silentDirectSendPackage (pack : Package) : M unit :=
  match binaryFrame pack with
  | Some frame => _ ← send (TextMessage (head pack)); send frame
  | None => send (TextMessage (head pack))
  end.

(** [for (i < streams.length) streams[i]._onTransmitted()] *)
Fixpoint onTransmitted_all (streams : list (WriteStream * Z)) : M unit :=
  match streams with
  | [] => mret tt
  | s :: r => _ ← called (Called_writeStream (fst s) ws_onTransmitted); onTransmitted_all r
  end.

Definition nonempty {A} (l : list A) : bool :=
  match l with
  | [] => false
  | _ => true
  end.

Section Sending.
Context {helpers : Helpers}.

(** The last branch shared by the senders: the mixed walk, the head made
    by [mkHead] from the data type, and the binary frame. *)
Definition mixed_package (data : value) (singleArgument : bool)
  (mkHead : DataType -> list Field)
  : M (Package * list (WriteStream * Z)) :=
  '(data', binaries, streams) ← _processMixedJSONDeep data;
  let type :=
    if singleArgument
    then parseJSONDataType (nonempty binaries || nonempty streams) false
    else parseJSONDataType (nonempty binaries) (nonempty streams) in
  let head0 := mkHead type ++ json_field data' in
  if nonempty binaries then
    binaryContentPacketId ← _getNewBinaryContentPacketId;
    frame ← lift_result (_createBinaryContentPacket binaryContentPacketId binaries);
    mret ({| head := head0 ++ [FNumber binaryContentPacketId];
             binaryFrame := Some frame |}, streams)
  else
    mret ({| head := head0; binaryFrame := None |}, streams).

Definition _sendInvokeDataResp (callId : Z) (data : value)
  (processComplexTypes : bool) : M unit :=
  if negb processComplexTypes then
    send (TextMessage ([FPacketType InvokeDataResp; FNumber callId; FDataType JSON]
                         ++ json_field data))
  else
    streamsOn ← gets (fun t => streamsEnabled (options t));
    match data, streamsOn with
    | VWriteStream s, true =>
        streamId ← _getNewStreamId (binary s);
        _ ← send (TextMessage [FPacketType InvokeDataResp; FNumber callId;
                               FDataType Stream; FNumber streamId]);
        _ ← called (Called_writeStream s (ws_init streamId));
        called (Called_writeStream s ws_onTransmitted)
    | VArrayBuffer b, _ =>
        binaryContentPacketId ← _getNewBinaryContentPacketId;
        _ ← send (TextMessage [FPacketType InvokeDataResp; FNumber callId;
                               FDataType Binary; FNumber binaryContentPacketId]);
        frame ← lift_result (_createBinaryContentPacket binaryContentPacketId [b]);
        send frame
    | _, _ =>
        '(pack, streams) ← mixed_package data false
           (fun type => [FPacketType InvokeDataResp; FNumber callId; FDataType type]);
        _ ← _silentDirectSendPackage pack;
        onTransmitted_all streams
    end.

(** [_sendStreamChunk(streamId, data, processComplexTypes, end)]. In the
    second branch the source declares a new constant [streamId], which
    hides the parameter up to the end of the block. *)
Definition _sendStreamChunk (streamId : Z) (data : value)
  (processComplexTypes : bool) (end_ : bool) : M unit :=
  let type := if end_ then StreamEnd else StreamChunk in
  if negb processComplexTypes then
    send (TextMessage ([FPacketType type; FNumber streamId; FDataType JSON]
                         ++ json_field data))
  else
    chunksOn ← gets (fun t => chunksCanContainStreams (options t));
    match chunksOn, data with
    | true, VWriteStream s =>
        streamId ← _getNewStreamId (binary s);
        _ ← send (TextMessage [FPacketType type; FNumber streamId;
                               FDataType Stream; FNumber streamId]);
        _ ← called (Called_writeStream s (ws_init streamId));
        called (Called_writeStream s ws_onTransmitted)
    | _, VArrayBuffer b => send (BinaryStreamMessage type streamId b)
    | _, _ =>
        '(pack, streams) ← mixed_package data true
           (fun dataType => [FPacketType type; FNumber streamId; FDataType dataType]);
        _ ← _silentDirectSendPackage pack;
        onTransmitted_all streams
    end.

End Sending.

(** ** Listener errors, bad connections *)

(** [_onListenerError(err)]: what the hook throws is dropped. *)
Definition _onListenerError (err : Error) : M unit :=
  try_catch
    (c ← gets connector; hook (Called_onListenerError err) (onListenerError c err))
    (fun _ => mret tt).

Definition call_onInvalidMessage (err : Error) : M unit :=
  c ← gets connector; hook (Called_onInvalidMessage err) (onInvalidMessage c err).

(** A [DataCallback] called with an error: the [else] branch of the
    closures, and [rej(err)] for a chunk. *)
Definition fail_callback (k : DataCallback) (err : Error) : M unit :=
  match k with
  | TransmitCallback _ _ | InvokeCallback _ _ _ | InvokeRespCallback _ _ _
  | InheritedRespCallback =>
      call_onInvalidMessage err
  | ChunkCallback streamId => called (Called_chunkSettled streamId (Throw err))
  end.

(** A [BinariesCallback] called with an error: both closures pass it on. *)
Definition fail_binaries_callback (k : BinariesCallback) (err : Error) : M unit :=
  match k with
  | FirstBinary cb => fail_callback cb err
  | MixedWithBinaries _ _ _ cb => fail_callback cb err
  end.

(** Runs [f] on the own entries of a registry, one after the other; the
    members of [Object.prototype] are not enumerable. The order of
    [for ... in] is not part of the embedding; the entries come in the order
    of [map_to_list]. *)
Fixpoint for_in {K V} (f : K -> V -> M unit) (entries : list (K * V)) : M unit :=
  match entries with
  | [] => mret tt
  | e :: r => _ ← f (fst e) (snd e); for_in f r
  end.

Definition _rejectBinaryContentResolver (err : Error) : M unit :=
  resolvers ← gets _binaryContentResolver;
  _ ← for_in (fun k resolver =>
         _ ← called (Called_clearTimeout (Some (resolver_timeout resolver)));
         _ ← called (Called_resolverCallback k (Some err) []);
         fail_binaries_callback (callback resolver) err)
       (map_to_list resolvers);
  modify (set_binaryContentResolver ∅).

Definition _rejectInvokeRespPromises (err : Error) : M unit :=
  tmpPromises ← gets _invokeResponsePromises;
  _ ← modify (set_invokeResponsePromises ∅);
  for_in (fun k p =>
      _ ← called (Called_clearTimeout (timeout p));
      called (Called_reject k err))
    (map_to_list tmpPromises).

Definition _emitBadConnectionToStreams : M unit :=
  readStreams ← gets _activeReadStreams;
  _ ← for_in (fun (_ : string) r => called (Called_readStream r rs_emitBadConnection))
       (map_to_list readStreams);
  writeStreams ← gets _activeWriteStreams;
  for_in (fun (_ : string) w => called (Called_writeStream w ws_emitBadConnection))
    (map_to_list writeStreams).

Definition emitBadConnection (type : BadConnectionType) (msg : option string) : M unit :=
  _ ← modify (set_open false);
  _ ← called Called_clearBatchTime;
  let err := BadConnectionError type msg in
  _ ← modify (fun t => set_badConnectionStamp (_generateNewBadConnectionStamp t) t);
  _ ← _rejectBinaryContentResolver err;
  _ ← _rejectInvokeRespPromises err;
  _ ← _emitBadConnectionToStreams;
  _ ← modify (set_activeReadStreams ∅);
  modify (set_activeWriteStreams ∅).

(** [_addReadStream], [_addWriteStream], [_removeWriteStream] and
    [_removeReadStream], called by the stream objects with the identifier
    they were made with. *)
Definition _addReadStream (id : Z) (stream : ReadStream) : M unit :=
  modify (fun t =>
    set_activeReadStreams (<[number_key id := stream]> (_activeReadStreams t)) t).
Definition _addWriteStream (id : Z) (stream : WriteStream) : M unit :=
  modify (fun t =>
    set_activeWriteStreams (<[number_key id := stream]> (_activeWriteStreams t)) t).
Definition _removeWriteStream (id : Z) : M unit :=
  modify (fun t =>
    set_activeWriteStreams (delete (number_key id) (_activeWriteStreams t)) t).
Definition _removeReadStream (id : Z) : M unit :=
  modify (fun t =>
    set_activeReadStreams (delete (number_key id) (_activeReadStreams t)) t).

(** ** Inbound transmits and invokes *)

Definition _processTransmit (receiver : string) (data : value) (dataType : TypeSlot)
  : M unit :=
  try_catch
    (c ← gets connector;
     hook (Called_onTransmit receiver data dataType) (onTransmit c receiver data dataType))
    _onListenerError.

(** The variables that the two closures of [_processInvoke] share: the
    transport and the local [called]. *)
Record InvokeScope := {
  scope_transport : Transport;
  scope_called : bool
}.

Definition in_scope {A} (m : M A) : StateM InvokeScope A := fun s =>
  let (r, t') := m (scope_transport s) in
  (r, {| scope_transport := t'; scope_called := scope_called s |}).

Definition set_called : StateM InvokeScope unit :=
  modify (fun s => {| scope_transport := scope_transport s; scope_called := true |}).

Section Inbound.
Context {helpers : Helpers}.

(** One call of [end] or of [reject], the closures made for the invoke
    [callId] when the stamp was [badConnectionTimestamp]. *)
Definition use_callback (callId badConnectionTimestamp : Z) (u : CallbackUse)
  : StateM InvokeScope unit :=
  alreadyCalled ← gets scope_called;
  if alreadyCalled : bool then throw (InvalidActionError callId)
  else
    _ ← set_called;
    stamp ← in_scope (gets badConnectionStamp);
    if negb (badConnectionTimestamp =? stamp) then mret tt
    else
      match u with
      | UseEnd data processComplexTypes =>
          in_scope (_sendInvokeDataResp callId data processComplexTypes)
      | UseReject err =>
          in_scope (send (TextMessage [FPacketType InvokeErrResp; FNumber callId;
                                       FError err]))
      end.

(** One step of user code that holds the two closures. *)
Definition listener_step (callId badConnectionTimestamp : Z) (s : ListenerStep)
  : StateM InvokeScope unit :=
  match s with
  | Use true u =>
      try_catch (use_callback callId badConnectionTimestamp u) (fun _ => mret tt)
  | Use false u => use_callback callId badConnectionTimestamp u
  | Disconnect type msg => in_scope (emitBadConnection type msg)
  | Raise e => throw e
  end.

Fixpoint listener_steps (callId badConnectionTimestamp : Z) (steps : list ListenerStep)
  : StateM InvokeScope unit :=
  match steps with
  | [] => mret tt
  | s :: r =>
      _ ← listener_step callId badConnectionTimestamp s;
      listener_steps callId badConnectionTimestamp r
  end.

(** [_processInvoke]. Besides the transport, the result gives the scope
    that the closures keep after the listener has returned: the stamp they
    compare with and the variable [called]. *)
Definition _processInvoke (procedure : string) (callId : Z) (data : value)
  (dataType : TypeSlot) : M (Z * bool) := fun t =>
  let badConnectionTimestamp := badConnectionStamp t in
  let body : StateM InvokeScope unit :=
    _ ← in_scope (called (Called_onInvoke procedure callId data dataType));
    listener_steps callId badConnectionTimestamp
      (onInvoke (connector t) procedure data dataType) in
  let (_, s) :=
    try_catch body (fun err => in_scope (_onListenerError err))
      {| scope_transport := t; scope_called := false |} in
  (Ok (badConnectionTimestamp, scope_called s), scope_transport s).

(** A use of the closures after [_processInvoke] has returned, from code
    of the user that the transport did not call: what the closure throws
    goes to that code. *)
Definition later_step (callId : Z) (scope : Z * bool) (s : ListenerStep)
  (t : Transport) : result unit * (Z * bool) * Transport :=
  let (r, s') := listener_step callId (fst scope) s
                   {| scope_transport := t; scope_called := snd scope |} in
  (r, (fst scope, scope_called s'), scope_transport s').

(** A [DataCallback] called with the data. A member of [Object.prototype]
    has no [resolve]: [resp.resolve(...)] throws. *)
Definition run_callback (k : DataCallback) (data : value) : M unit :=
  match k with
  | TransmitCallback receiver type => _processTransmit receiver data type
  | InvokeCallback procedure callId type =>
      _ ← _processInvoke procedure callId data type; mret tt
  | InvokeRespCallback callId withDataType type =>
      called (Called_resolve callId data (if withDataType then Some type else None))
  | InheritedRespCallback => throw TypeError
  | ChunkCallback streamId => called (Called_chunkSettled streamId (Ok data))
  end.

(** A [BinariesCallback] called with the binaries of a content packet. *)
Definition run_binaries_callback (k : BinariesCallback) (binaries : list (list byte))
  : M unit :=
  match k with
  | FirstBinary cb => run_callback cb (binary_at binaries 0)
  | MixedWithBinaries data parseStreams parseBinaries cb =>
      o ← gets options;
      resolved ← lift_result
        (fst (_resolveMixedJSONDeep o data parseStreams parseBinaries (Some binaries)));
      run_callback cb resolved
  end.

(** [_resolveBinaryContent(binariesPacketId, callback)]; the identifier is
    whatever the caller found in the packet. *)
Definition _resolveBinaryContent (binariesPacketId : value) (cb : BinariesCallback)
  : M unit :=
  key ← lift_result (ToPropertyKey binariesPacketId);
  resolvers ← gets _binaryContentResolver;
  match registry_get resolvers key with
  | Own _ | Inherited => throw (JsError "Binaries resolver already exists.")
  | Absent =>
      delayMs ← gets (fun t => binaryContentPacketTimeout (options t));
      modify (set_binaryContentResolver
                (<[key := {| callback := cb; resolver_timeout := {| delay := delayMs |} |}]>
                   resolvers))
  end.

Definition is_number (v : value) : bool :=
  match v with
  | VNumber _ => true
  | _ => false
  end.

Definition _processData (type : TypeSlot) (data : value) (dataMetaInfo : value)
  (cb : DataCallback) : M unit :=
  streamsOn ← gets (fun t => streamsEnabled (options t));
  if is_type type JSON then run_callback cb data
  else if is_type type Binary then
    _ ← (if is_number data then mret tt
         else fail_callback cb (JsError "Invalid binary packet id."));
    _resolveBinaryContent data (FirstBinary cb)
  else if isMixedJSONDataType type then
    let parseStreams :=
      streamsOn && (is_type type JSONWithStreams
                    || is_type type JSONWithStreamsAndBinaries) in
    let parseBinaries :=
      is_type type JSONWithBinaries || is_type type JSONWithStreamsAndBinaries in
    match dataMetaInfo with
    | VNumber id =>
        _resolveBinaryContent (VNumber id)
          (MixedWithBinaries data parseStreams parseBinaries cb)
    | _ =>
        o ← gets options;
        resolved ← lift_result
          (fst (_resolveMixedJSONDeep o data parseStreams parseBinaries None));
        run_callback cb resolved
    end
  else if is_type type Stream && streamsOn then
    _ ← (if is_number data then mret tt
         else fail_callback cb (JsError "Invalid stream id."));
    run_callback cb (VReadStream {| rs_id := number_of data |})
  else fail_callback cb (JsError "Invalid data type.").

End Inbound.

(** ** Inbound packets *)

(** The result of the [while] loop of [_processBinaryContentPacket]: the
    offset it stopped at, the collected binaries and the last value of
    [binaryLen]. *)
Record Scan := {
  scan_offset : Z;
  scan_binaries : list (list byte);
  scan_binaryLen : option Z
}.

(** The [while (offset < byteLength)] loop. Each turn moves the offset
    forward by four bytes at least, so [fuel] turns suffice when [fuel]
    exceeds the length of the view; [None] is a loop cut short by the
    fuel. *)
Fixpoint scan_binaries_loop (fuel : nat) (view : list byte) (hasResolver : bool)
  (offset : Z) (binaries : list (list byte)) (binaryLen : option Z)
  : option (result Scan) :=
  if offset <? byteLength view then
    match fuel with
    | O => None
    | S fuel' =>
        match getUint32 view offset with
        | Throw e => Some (Throw e)
        | Ok len =>
            let offset := offset + 4 in
            if len =? NEXT_BINARIES_PACKET_TOKEN
            then Some (Ok {| scan_offset := offset; scan_binaries := binaries;
                             scan_binaryLen := Some len |})
            else
              let binaries :=
                if hasResolver
                then binaries ++ [slice view offset (offset + len)]
                else binaries in
              scan_binaries_loop fuel' view hasResolver (offset + len) binaries (Some len)
        end
    end
  else Some (Ok {| scan_offset := offset; scan_binaries := binaries;
                   scan_binaryLen := binaryLen |}).

(** [new Float64Array(buffer.slice(1, 9))[0]], read in the byte order of the
    host (little endian): [Ok None] is [undefined] (an empty slice), a slice
    of one to seven bytes throws. *)
Definition read_stream_id (buffer : list byte) : result (option Float64) :=
  let bytes := slice buffer 1 9 in
  match length bytes with
  | O => Ok None
  | 8%nat => Ok (Some (float64_of_bits (be_value 0 (rev bytes))))
  | _ => Throw RangeError
  end.

(** The action packets of [Protocol.ts]: every slot holds whatever JSON
    value stands there, the transport checks some of them with [typeof] and
    uses the others as they are. [UnknownPacket] is a tuple with another
    first element and [NoPacket] an element of a bundle that is [null] or
    [undefined]. *)
Inductive ActionPacket :=
| TransmitPacket (receiver : value) (type : TypeSlot) (data meta : value)
| InvokePacket (procedure callId : value) (type : TypeSlot) (data meta : value)
| InvokeDataRespPacket (callId : value) (type : TypeSlot) (data meta : value)
| InvokeErrRespPacket (callId : value) (err : value)
| StreamAcceptPacket (streamId : value) (bufferSize : value)
| StreamChunkPacket (streamId : value) (type : TypeSlot) (data meta : value)
| StreamEndPacket (streamId : value) (type : TypeSlot) (data meta : value)
| StreamDataPermissionPacket (streamId : value) (size : value)
| WriteStreamClosePacket (streamId : value) (closeCode : value)
| ReadStreamClosePacket (streamId : value) (closeCode : value)
| UnknownPacket
| NoPacket.

(** What [decodeJson('[' + rawMsg + ']')] gave: a bundle, whose second
    element is an array of packets or not, or one action packet. *)
Inductive Packet :=
| BundlePacket (packets : option (list ActionPacket))
| SinglePacket (packet : ActionPacket).

(** A raw message: a buffer, or a string given by the outcome of
    [decodeJson] on it, the JSON codec being outside the class. *)
Inductive RawMessage :=
| RawBinary (buffer : list byte)
| RawText (decoded : result Packet).

Section Dispatch.
Context {helpers : Helpers}.

(** The name of the property indexed by the stream identifier of a binary
    frame; [None] is [undefined]. *)
Definition stream_key (f : option Float64) : string :=
  match f with
  | Some id => float_name id
  | None => "undefined"
  end.

(** [this._binaryContentResolver[id]] *)
Definition find_resolver (id : Float64) (t : Transport) : Found BinaryContentResolver :=
  registry_get (_binaryContentResolver t) (float_name id).

(** The three statements under [if (resolver)] for an own entry, found
    under the name [id]. *)
Definition fire_resolver (id : string) (resolver : BinaryContentResolver)
  (binaries : list (list byte)) : M unit :=
  _ ← modify (fun t => set_binaryContentResolver (delete id (_binaryContentResolver t)) t);
  _ ← called (Called_clearTimeout (Some (resolver_timeout resolver)));
  _ ← called (Called_resolverCallback id None binaries);
  run_binaries_callback (callback resolver) binaries.

(** The same statements for a member of [Object.prototype]: there is no own
    property to delete and no [timeout], and [resolver.callback] is no
    function. The handlers of the action packets do the like with [timeout],
    [reject] and the methods of a stream. *)
Definition fire_inherited : M unit :=
  _ ← called (Called_clearTimeout None);
  throw TypeError.

(** [_processBinaryContentPacket(view, offset)]. The call after a token
    starts at least twelve bytes further, so [fuel] calls suffice when
    [fuel] exceeds the length of the view; the result is [None] when the
    fuel runs out. *)
Fixpoint _processBinaryContentPacket (fuel : nat) (view : list byte) (offset : Z)
  (t : Transport) : option (result unit * Transport) :=
  match fuel with
  | O => None
  | S fuel' =>
      match getFloat64 view offset with
      | Throw e => Some (Throw e, t)
      | Ok id =>
          let resolver := find_resolver id t in
          match scan_binaries_loop fuel' view (found resolver) (offset + 8) [] None with
          | None => None
          | Some (Throw e) => Some (Throw e, t)
          | Some (Ok s) =>
              let fired :=
                match resolver with
                | Own r => fire_resolver (float_name id) r (scan_binaries s) t
                | Inherited => fire_inherited t
                | Absent => (Ok tt, t)
                end in
              match fired with
              | (Throw e, t') => Some (Throw e, t')
              | (Ok _, t') =>
                  if decide (scan_binaryLen s = Some NEXT_BINARIES_PACKET_TOKEN)
                  then _processBinaryContentPacket fuel' view (scan_offset s) t'
                  else Some (Ok tt, t')
              end
          end
      end
  end.

(** [_processBinaryContentPacket] with the fuel that always suffices. *)
Definition processBinaryContentPacket (view : list byte) (offset : Z) : M unit :=
  fun t =>
    match _processBinaryContentPacket (S (length view)) view offset t with
    | Some r => r
    | None => (Ok tt, t)
    end.

Definition _processBinaryStreamChunk (streamId : option Float64) (binary : list byte)
  : M unit :=
  streams ← gets _activeReadStreams;
  match registry_get streams (stream_key streamId) with
  | Own stream => called (Called_readStream stream (rs_pushBinaryChunk binary))
  | Inherited => throw TypeError
  | Absent => mret tt
  end.

Definition _processBinaryStreamEnd (streamId : option Float64) (binary : list byte)
  : M unit :=
  streams ← gets _activeReadStreams;
  match registry_get streams (stream_key streamId) with
  | Own stream =>
      _ ← called (Called_readStream stream (rs_pushBinaryChunk binary));
      called (Called_readStream stream rs_end)
  | Inherited => throw TypeError
  | Absent => mret tt
  end.

Definition _processBinaryPacket (buffer : list byte) : M unit :=
  match buffer with
  | [] => throw RangeError
  | header :: _ =>
      if byte_value header =? PacketType_code BinaryContent
      then processBinaryContentPacket buffer 1
      else if byte_value header =? PacketType_code StreamChunk
      then streamId ← lift_result (read_stream_id buffer);
           _processBinaryStreamChunk streamId (slice buffer 9 (byteLength buffer))
      else if byte_value header =? PacketType_code StreamEnd
      then streamId ← lift_result (read_stream_id buffer);
           _processBinaryStreamEnd streamId (slice buffer 9 (byteLength buffer))
      else call_onInvalidMessage (JsError "Unknown binary package header type.")
  end.

Definition _rejectInvoke (callId : value) (rawErr : value) : M unit :=
  key ← lift_result (ToPropertyKey callId);
  promises ← gets _invokeResponsePromises;
  match registry_get promises key with
  | Own resp =>
      _ ← called (Called_clearTimeout (timeout resp));
      _ ← modify (fun t =>
             set_invokeResponsePromises (delete key (_invokeResponsePromises t)) t);
      called (Called_reject key (HydratedError rawErr))
  | Inherited => fire_inherited
  | Absent => mret tt
  end.

Definition _processStreamAccept (streamId : value) (bufferSize : value) : M unit :=
  match bufferSize with
  | VNumber size =>
      key ← lift_result (ToPropertyKey streamId);
      streams ← gets _activeWriteStreams;
      match registry_get streams key with
      | Own stream => called (Called_writeStream stream (ws_open size))
      | Inherited => throw TypeError
      | Absent => mret tt
      end
  | _ => throw (JsError "Invalid buffer size data type to accept a stream.")
  end.

Definition _processStreamDataPermission (streamId : value) (size : value) : M unit :=
  match size with
  | VNumber n =>
      key ← lift_result (ToPropertyKey streamId);
      streams ← gets _activeWriteStreams;
      match registry_get streams key with
      | Own stream => called (Called_writeStream stream (ws_addDataPermission n))
      | Inherited => throw TypeError
      | Absent => mret tt
      end
  | _ => throw (JsError "Invalid stream data permission size data type.")
  end.

(** The close code [None] is [StreamCloseCode.End], the default of
    [closeCode ?? StreamCloseCode.End]. *)
Definition _processReadStreamClose (streamId : value) (closeCode : value) : M unit :=
  match closeCode with
  | VNumber _ | VUndefined =>
      key ← lift_result (ToPropertyKey streamId);
      streams ← gets _activeWriteStreams;
      match registry_get streams key with
      | Own stream =>
          called (Called_writeStream stream (ws_readStreamClose (number_of closeCode)))
      | Inherited => throw TypeError
      | Absent => mret tt
      end
  | _ => throw (JsError "Invalid close code data type to close a stream.")
  end.

Definition _processJsonWriteStreamClose (streamId : value) (closeCode : value) : M unit :=
  match closeCode with
  | VNumber code =>
      key ← lift_result (ToPropertyKey streamId);
      streams ← gets _activeReadStreams;
      match registry_get streams key with
      | Own stream => called (Called_readStream stream (rs_writeStreamClose code))
      | Inherited => throw TypeError
      | Absent => mret tt
      end
  | _ => throw (JsError "Invalid close code data type to close a stream.")
  end.

(** The promise given to [_pushChunk], made for the stream found under the
    name [streamId]: what its executor throws rejects the promise. *)
Definition chunk_promise (streamId : string) (dataType : TypeSlot) (data meta : value)
  : M unit :=
  try_catch
    (chunksOn ← gets (fun t => chunksCanContainStreams (options t));
     if containsStreams dataType && negb chunksOn
     then fail_callback (ChunkCallback streamId)
            (JsError "Streams in chunks are not allowed.")
     else _processData dataType data meta (ChunkCallback streamId))
    (fun e => called (Called_chunkSettled streamId (Throw e))).

(** [_processJsonStreamChunk]. The arguments of [stream._pushChunk(...)]
    are evaluated before the call: for a member of [Object.prototype] the
    executor of the promise runs, and then the call of what is no function
    throws. *)
Definition _processJsonStreamChunk (streamId : value) (dataType : TypeSlot)
  (data meta : value) : M unit :=
  key ← lift_result (ToPropertyKey streamId);
  streams ← gets _activeReadStreams;
  match registry_get streams key with
  | Own stream =>
      _ ← chunk_promise key dataType data meta;
      called (Called_readStream stream (rs_pushChunk dataType))
  | Inherited =>
      _ ← chunk_promise key dataType data meta;
      throw TypeError
  | Absent => mret tt
  end.

Definition _processJsonStreamEnd (streamId : value) (dataType : TypeSlot)
  (data meta : value) : M unit :=
  key ← lift_result (ToPropertyKey streamId);
  streams ← gets _activeReadStreams;
  match registry_get streams key with
  | Own stream =>
      _ ← (if is_number dataType
           then _ ← chunk_promise key dataType data meta;
                called (Called_readStream stream (rs_pushChunk dataType))
           else mret tt);
      called (Called_readStream stream rs_end)
  | Inherited =>
      _ ← (if is_number dataType
           then chunk_promise key dataType data meta
           else mret tt);
      throw TypeError
  | Absent => mret tt
  end.

Definition _processJsonActionPacket (packet : ActionPacket) : M unit :=
  match packet with
  | TransmitPacket receiver type data meta =>
      match receiver with
      | VString r => _processData type data meta (TransmitCallback r type)
      | _ => call_onInvalidMessage (JsError "Receiver is not a string.")
      end
  | InvokePacket procedure callId type data meta =>
      match procedure, callId with
      | VString p, VNumber cid => _processData type data meta (InvokeCallback p cid type)
      | VString _, _ => call_onInvalidMessage (JsError "CallId is not a number.")
      | _, _ => call_onInvalidMessage (JsError "Receiver is not a string.")
      end
  | InvokeDataRespPacket callId type data meta =>
      key ← lift_result (ToPropertyKey callId);
      promises ← gets _invokeResponsePromises;
      match registry_get promises key with
      | Own resp =>
          _ ← called (Called_clearTimeout (timeout resp));
          _ ← modify (fun t =>
                 set_invokeResponsePromises (delete key (_invokeResponsePromises t)) t);
          _processData type data meta
            (InvokeRespCallback key (returnDataType resp) type)
      | Inherited =>
          _ ← called (Called_clearTimeout None);
          _processData type data meta InheritedRespCallback
      | Absent => mret tt
      end
  | StreamChunkPacket streamId type data meta =>
      _processJsonStreamChunk streamId type data meta
  | StreamDataPermissionPacket streamId size =>
      _processStreamDataPermission streamId size
  | StreamEndPacket streamId type data meta =>
      _processJsonStreamEnd streamId type data meta
  | InvokeErrRespPacket callId err => _rejectInvoke callId err
  | ReadStreamClosePacket streamId closeCode => _processReadStreamClose streamId closeCode
  | StreamAcceptPacket streamId bufferSize => _processStreamAccept streamId bufferSize
  | WriteStreamClosePacket streamId closeCode =>
      _processJsonWriteStreamClose streamId closeCode
  | UnknownPacket => call_onInvalidMessage (JsError "Unknown packet type.")
  | NoPacket => throw TypeError
  end.

Fixpoint process_bundle (packets : list ActionPacket) : M unit :=
  match packets with
  | [] => mret tt
  | p :: r => _ ← _processJsonActionPacket p; process_bundle r
  end.

Definition emitMessage (rawMsg : RawMessage) : M unit :=
  try_catch
    (match rawMsg with
     | RawBinary buffer =>
         match buffer with
         | [b] =>
             if byte_value b =? PING_UINT8 then
               try_catch (c ← gets connector; hook Called_onPing (onPing c))
                 (fun err => c ← gets connector;
                             hook (Called_onListenerError err) (onListenerError c err))
             else if byte_value b =? PONG_UINT8 then
               try_catch (c ← gets connector; hook Called_onPong (onPong c))
                 (fun err => c ← gets connector;
                             hook (Called_onListenerError err) (onListenerError c err))
             else _processBinaryPacket buffer
         | _ => _processBinaryPacket buffer
         end
     | RawText (Throw err) => call_onInvalidMessage err
     | RawText (Ok (BundlePacket (Some packets))) => process_bundle packets
     | RawText (Ok (BundlePacket None)) => mret tt
     | RawText (Ok (SinglePacket packet)) => _processJsonActionPacket packet
     end)
    call_onInvalidMessage.

End Dispatch.

(** ** Preparing packages, response timers *)

#[global] Instance WriteStream_eq_dec : EqDecision WriteStream.
Proof. solve_decision. Defined.


(** [responseTimeout || this.options.responseTimeout] *)
Definition effective_timeout (override : option Z) (o : TransportOptions) : Z :=
  match override with
  | Some n => if n =? 0 then responseTimeout o else n
  | None => responseTimeout o
  end.


Definition setResponseTimeout (callId : Z) (responseTimeout : option Z) : M unit :=
  promises ← gets _invokeResponsePromises;
  match promises !! number_key callId with
  | Some {| timeout := None; returnDataType := r |} =>
      o ← gets options;
      modify (set_invokeResponsePromises
                (<[number_key callId :=
                     {| timeout := Some {| delay := effective_timeout responseTimeout o |};
                        returnDataType := r |}]> promises))
  | _ => mret tt
  end.





Section Preparing.
Context {helpers : Helpers}.


End Preparing.













(** ** Vocabulary of the statements *)

(** Modelled from the spec: the key escape of [Utils], which is not among
    the sources. Section 3 asks for an invertible transform that keeps user
    keys apart from the markers, such as doubling a sentinel prefix
    character: a key that starts with an underscore gets one more. *)
Definition spec_escape (key : string) : string :=
  match key with
  | String "_"%char _ => String "_"%char key
  | _ => key
  end.

Definition spec_unescape (key : string) : string :=
  match key with
  | String "_"%char (String "_"%char rest) => String "_"%char rest
  | _ => key
  end.

(** Modelled from the spec: the members of [DataType] numbered in the order
    of their declaration, and the two functions on these numbers. The two
    functions of the host are not called in the examples. *)
Definition spec_DataType_code (d : DataType) : Z :=
  match d with
  | JSON => 0 | Binary => 1 | Stream => 2
  | JSONWithStreams => 3 | JSONWithBinaries => 4 | JSONWithStreamsAndBinaries => 5
  end.

Definition spec_member (v : value) : option DataType :=
  match v with
  | VNumber 0 => Some JSON
  | VNumber 1 => Some Binary
  | VNumber 2 => Some Stream
  | VNumber 3 => Some JSONWithStreams
  | VNumber 4 => Some JSONWithBinaries
  | VNumber 5 => Some JSONWithStreamsAndBinaries
  | _ => None
  end.

Lemma spec_DataType_code_inj (d d' : DataType) :
  spec_DataType_code d = spec_DataType_code d' -> d = d'.
Proof. destruct d, d'; simpl; intros H; try reflexivity; discriminate H. Qed.

Definition spec_helpers : Helpers := {|
  escapePlaceholderSequence := spec_escape;
  unescapePlaceholderSequence := spec_unescape;
  toJSON := fun _ => VString "[WriteStream]";
  hostNumberToString := fun _ => "NaN"%string;
  hostDateToString := fun _ => "Invalid Date"%string;
  DataType_code := spec_DataType_code;
  isMixedJSONDataType := fun v => from_option mixed_member false (spec_member v);
  containsStreams := fun v => from_option stream_member false (spec_member v);
  DataType_code_inj := spec_DataType_code_inj;
  isMixedJSONDataType_member := fun d => match d with JSON | _ => eq_refl end;
  containsStreams_member := fun d => match d with JSON | _ => eq_refl end
|}.

(** The examples are stated with these helpers. *)
#[global] Existing Instance spec_helpers | 100.

(** What the key escape has to guarantee. *)
Class HelpersLaws (helpers : Helpers) : Prop := {
  unescape_escape : forall k, unescapePlaceholderSequence (escapePlaceholderSequence k) = k;
  escape_not_b : forall k, escapePlaceholderSequence k <> "_b"%string;
  escape_not_s : forall k, escapePlaceholderSequence k <> "_s"%string
}.

(** A connector whose hooks all return. *)
Definition quiet_connector : Connector := {|
  onInvalidMessage := fun _ => None;
  onListenerError := fun _ => None;
  onTransmit := fun _ _ _ => None;
  onInvoke := fun _ _ _ => [];
  onPing := None;
  onPong := None;
  connector_send := fun _ => None
|}.

(** A run of allocations of stream identifiers: each request is [true] for
    a binary stream and [false] for an object stream, and is returned with
    the identifier it got. *)
Fixpoint allocate_all (kinds : list bool) (t : Transport) : list (bool * Z) :=
  match kinds with
  | [] => []
  | k :: r =>
      match _getNewStreamId k t with
      | (Ok id, t') => (k, id) :: allocate_all r t'
      | (Throw _, _) => []
      end
  end.

Definition ids_of (kind : bool) (allocated : list (bool * Z)) : list Z :=
  snd <$> filter (fun p => fst p = kind) allocated.

(** [follows next start l]: the list starts at [start] and each element is
    [next] of the one before. *)
Fixpoint follows (next : Z -> Z) (start : Z) (l : list Z) : Prop :=
  match l with
  | [] => True
  | x :: r => x = start /\ follows next (next x) r
  end.

Definition next_objectStreamId (id : Z) : Z :=
  if id <? MAX_SAFE_INTEGER then id + 1 else 1.
Definition next_binaryStreamId (id : Z) : Z :=
  if MIN_SAFE_INTEGER <? id then id - 1 else -1.

(** The range that the two counters of stream identifiers stay in. *)
Definition stream_ids_inv (t : Transport) : Prop :=
  1 <= _objectStreamId t <= MAX_SAFE_INTEGER + 1 /\
  MIN_SAFE_INTEGER - 1 <= _binaryStreamId t <= -1.

(** The identifier that the next allocation of each kind returns. *)
Definition peek_objectStreamId (t : Transport) : Z :=
  if MAX_SAFE_INTEGER <? _objectStreamId t then 1 else _objectStreamId t.
Definition peek_binaryStreamId (t : Transport) : Z :=
  if _binaryStreamId t <? MIN_SAFE_INTEGER then -1 else _binaryStreamId t.

(** A connector whose ping listener and whose error hook both throw. *)
Definition throwing_connector : Connector := {|
  onInvalidMessage := fun _ => None;
  onListenerError := fun _ => Some (UserError 2);
  onTransmit := fun _ _ _ => Some (UserError 3);
  onInvoke := fun _ _ _ => [Raise (UserError 4)];
  onPing := Some (UserError 1);
  onPong := Some (UserError 1);
  connector_send := fun _ => None
|}.

(** The identifier [id] names nothing in the registry: it has a property
    name, the registry has no entry of that name, and the name is none of
    [Object.prototype]. *)
Definition names_nothing {helpers : Helpers} {A} (registry : gmap string A) (id : value)
  : Prop :=
  exists key, ToPropertyKey id = Ok key /\ registry_get registry key = Absent.

(** The packet is one of the eight kinds that name a pending invoke or an
    active stream, and its identifier names nothing in the registry it is
    looked up in. *)
Definition unknown_target {helpers : Helpers} (t : Transport) (p : ActionPacket) : Prop :=
  match p with
  | InvokeDataRespPacket callId _ _ _ | InvokeErrRespPacket callId _ =>
      names_nothing (_invokeResponsePromises t) callId
  | StreamAcceptPacket streamId _ | StreamDataPermissionPacket streamId _
  | ReadStreamClosePacket streamId _ =>
      names_nothing (_activeWriteStreams t) streamId
  | WriteStreamClosePacket streamId _ | StreamChunkPacket streamId _ _ _
  | StreamEndPacket streamId _ _ _ =>
      names_nothing (_activeReadStreams t) streamId
  | TransmitPacket _ _ _ _ | InvokePacket _ _ _ _ _ | UnknownPacket | NoPacket => False
  end.

(** The slots that the transport checks with [typeof] before it looks the
    identifier up hold what the check asks for: a number, or nothing at all
    for the close code of a read stream. *)
Definition checked_slots_pass (p : ActionPacket) : Prop :=
  match p with
  | StreamAcceptPacket _ v | StreamDataPermissionPacket _ v
  | WriteStreamClosePacket _ v => exists n, v = VNumber n
  | ReadStreamClosePacket _ v => v = VUndefined \/ exists n, v = VNumber n
  | _ => True
  end.

(** The transport [t'] continues [t]: its trace is the one of [t] with more
    calls, it has no resolver that [t] has not, and the same options and
    connector. *)
Definition continues (t t' : Transport) : Prop :=
  (exists more, trace t' = trace t ++ more) /\
  (forall k, _binaryContentResolver t !! k = None ->
             _binaryContentResolver t' !! k = None) /\
  options t' = options t /\
  connector t' = connector t.

(** A delivery: the callback of a resolver called with the binaries of a
    content packet. *)
Definition is_delivery (c : Call) : bool :=
  match c with
  | Called_resolverCallback _ None _ => true
  | _ => false
  end.

(** The transport [t'] continues [t], and none of the calls made in between
    is a delivery to the resolver registered under [key]. *)
Definition skips (key : string) (t t' : Transport) : Prop :=
  continues t t' /\
  exists more,
    calls t' = calls t ++ more /\
    forall binaries, Called_resolverCallback key None binaries ∉ more.

(** A relation between the transport before and after a computation that
    every elementary change made by the callbacks respects: a recorded
    call that is no delivery, assignments to the counters, to the stamp, to
    [open] and to the registries other than the resolvers, and the reset of
    the resolvers. *)
Class Respected (R : Transport -> Transport -> Prop) := {
  respected_refl : forall t, R t t;
  respected_trans : forall t1 t2 t3, R t1 t2 -> R t2 t3 -> R t1 t3;
  respected_called : forall c t, is_delivery c = false -> R t (snd (called c t));
  respected_stamp : forall x t, R t (set_badConnectionStamp x t);
  respected_packetId : forall x t, R t (set_binaryContentPacketId x t);
  respected_objectStreamId : forall x t, R t (set_objectStreamId x t);
  respected_binaryStreamId : forall x t, R t (set_binaryStreamId x t);
  respected_readStreams : forall x t, R t (set_activeReadStreams x t);
  respected_writeStreams : forall x t, R t (set_activeWriteStreams x t);
  respected_promises : forall x t, R t (set_invokeResponsePromises x t);
  respected_open : forall x t, R t (set_open x t);
  respected_no_resolvers : forall t, R t (set_binaryContentResolver ∅ t)
}.

(** The computation [m], on a state that holds a transport, respects [R]. *)
Definition frames (R : Transport -> Transport -> Prop) {S A} (on : S -> Transport)
  (m : StateM S A) : Prop :=
  forall s, R (on s) (on (snd (m s))).

(** Frames of the examples about binary content: the identifier 1 as a
    big endian double, the token, and a transport that waits for the
    binary content 1 of a transmit to the receiver [r]. *)
Definition id_one : list byte := [x3f; xf0; x00; x00; x00; x00; x00; x00].
Definition token_bytes : list byte := [xff; xff; xff; xff].

Definition first_frame : list byte :=
  [x05] ++ id_one ++ [x00; x00; x00; x01; xaa] ++ token_bytes.
Definition next_frame : list byte :=
  [x05] ++ id_one ++ [x00; x00; x00; x01; xbb].
Definition chained_frame : list byte :=
  [x05] ++ id_one ++ [x00; x00; x00; x01; xaa] ++ token_bytes
        ++ id_one ++ [x00; x00; x00; x01; xbb].

Definition awaiting_binary_one_with (c : Connector) : Transport :=
  snd (emitMessage (helpers := spec_helpers)
         (RawText (Ok (SinglePacket
            (TransmitPacket (VString "r") (KnownType Binary) (VNumber 1) VUndefined))))
         (new_Transport c DEFAULT_OPTIONS true)).

Definition awaiting_binary_one : Transport := awaiting_binary_one_with quiet_connector.

(** The entries that the calls [cs] leave in the trace when they are made on
    the transport [t], and [t] after them. *)
Definition entries_at (t : Transport) (cs : list Call) : list Entry :=
  (fun c => {| seen_stamp := badConnectionStamp t; seen_open := open t; call := c |})
    <$> cs.

Definition record_calls (cs : list Call) (t : Transport) : Transport :=
  set_trace (trace t ++ entries_at t cs) t.




(** A transport with one pending invoke, one resolver and one stream of
    each side, for the examples about connections. *)
Definition busy_transport_with (c : Connector) : Transport :=
  set_invokeResponsePromises
    {[ "7"%string := {| timeout := Some {| delay := 10000 |}; returnDataType := false |} ]}
    (set_activeWriteStreams {[ "1"%string := {| binary := false; label := 0 |} ]}
       (set_activeReadStreams {[ "2"%string := {| rs_id := Some 2 |} ]}
          (awaiting_binary_one_with c))).

Definition busy_transport : Transport := busy_transport_with quiet_connector.


(** The response that a callback sends. *)
Definition send_response {helpers : Helpers} (callId : Z) (u : CallbackUse) : M unit :=
  match u with
  | UseEnd data processComplexTypes => _sendInvokeDataResp callId data processComplexTypes
  | UseReject err =>
      send (TextMessage [FPacketType InvokeErrResp; FNumber callId; FError err])
  end.

(** The stream placeholders that the resolving walk reaches in a decoded
    tree: objects with a numeric [_s] that are no binary placeholder, outside
    of any placeholder. *)
Fixpoint stream_placeholders (parseStreams parseBinaries : bool) (v : value) : nat :=
  match v with
  | VArray items =>
      sum_list (stream_placeholders parseStreams parseBinaries <$> items)
  | VObject props =>
      match parseBinaries, obj_get "_b" props with
      | true, Some (VNumber _) => O
      | _, _ =>
          match parseStreams, obj_get "_s" props with
          | true, Some (VNumber _) => 1%nat
          | _, _ =>
              sum_list ((fun p => stream_placeholders parseStreams parseBinaries (snd p))
                          <$> props)
          end
      end
  | _ => O
  end.

Definition stream_limit_error : Error := JsError "Max stream limit reached.".

(** What a walk does to the stream count, for a tree with [n] stream
    placeholders: the count never passes the limit, it grows by [n] when the
    walk returns, and the limit error means that the placeholders did not
    fit. *)
Definition counts (limit : Z) (n : nat) {A} (m : StateM Meta A) : Prop :=
  forall s,
    streamCount s <= streamCount (snd (m s)) <= Z.max (streamCount s) limit /\
    match fst (m s) with
    | Ok _ => streamCount (snd (m s)) = streamCount s + Z.of_nat n
    | Throw e =>
        streamCount (snd (m s)) <= streamCount s + Z.of_nat n /\
        (e = stream_limit_error -> limit < streamCount s + Z.of_nat n)
    end.

(** The decoded value [decoded] is the value [data] with every write stream
    replaced by a read stream: equal primitives, byte-equal buffers, arrays
    of the same length and objects with the same keys in the same order. *)
Inductive materialized : value -> value -> Prop :=
| mat_undefined : materialized VUndefined VUndefined
| mat_null : materialized VNull VNull
| mat_bool b : materialized (VBool b) (VBool b)
| mat_number n : materialized (VNumber n) (VNumber n)
| mat_string s : materialized (VString s) (VString s)
| mat_buffer b : materialized (VArrayBuffer b) (VArrayBuffer b)
| mat_stream w id :
    materialized (VWriteStream w) (VReadStream {| rs_id := Some id |})
| mat_array items items' :
    Forall2 materialized items items' ->
    materialized (VArray items) (VArray items')
| mat_object props props' :
    Forall2 (fun p p' => fst p = fst p' /\ materialized (snd p) (snd p')) props props' ->
    materialized (VObject props) (VObject props').

(** The write streams of a value and the identifiers of the read streams of
    a decoded value, both in the order of the walk. *)
Fixpoint write_streams (v : value) : list WriteStream :=
  match v with
  | VWriteStream w => [w]
  | VArray items => concat (write_streams <$> items)
  | VObject props => concat ((fun p => write_streams (snd p)) <$> props)
  | _ => []
  end.

Fixpoint read_ids (v : value) : list (option Z) :=
  match v with
  | VReadStream r => [rs_id r]
  | VArray items => concat (read_ids <$> items)
  | VObject props => concat ((fun p => read_ids (snd p)) <$> props)
  | _ => []
  end.

(** A key that the two walks keep: neither the key nor its escaped form is
    [__proto__], the name that an assignment to a clone does not turn into
    a property. *)
Definition kept_key {helpers : Helpers} (key : string) : bool :=
  negb (String.eqb key "__proto__")
  && negb (String.eqb (escapePlaceholderSequence key) "__proto__").

(** The values that the round trip is stated for: JSON primitives, buffers,
    write streams, arrays, and objects whose keys are distinct, as the keys
    of a JavaScript object are, and kept by the walks; no [Date] and no read
    stream. *)
Fixpoint encodable {helpers : Helpers} (v : value) : bool :=
  match v with
  | VDate _ | VReadStream _ => false
  | VArray items => forallb encodable items
  | VObject props =>
      bool_decide (NoDup (fst <$> props))
      && forallb (fun p => kept_key (fst p)) props
      && forallb (fun p => encodable (snd p)) props
  | _ => true
  end.

(** The resolving walk [run] succeeds on a part of the encoded tree that
    holds the binaries [newBinaries], collected from the index [offset] on,
    and the streams [newStreams]: whenever the options switch on what the
    part needs, the binaries of the packet hold [newBinaries] at their
    indices and the streams fit under the limit, the walk returns a value
    that satisfies [post] and counts the streams. *)
Definition decodes (limit : Z) (parseStreams parseBinaries : bool)
  (newBinaries : list (list byte)) (newStreams : list (WriteStream * Z))
  (offset : nat) {A} (run : StateM Meta A) (post : A -> Prop) : Prop :=
  forall m allBinaries,
    (newBinaries <> [] -> parseBinaries = true /\ meta_binaries m = Some allBinaries) ->
    (forall i b, newBinaries !! i = Some b -> allBinaries !! (offset + i)%nat = Some b) ->
    (newStreams <> [] -> parseStreams = true) ->
    streamCount m + Z.of_nat (length newStreams) <= limit ->
    exists decoded,
      run m = (Ok decoded,
               {| meta_binaries := meta_binaries m;
                  streamCount := streamCount m + Z.of_nat (length newStreams) |}) /\
      post decoded.

(** The encoding walk [encode] returns, appends to the two arrays, keeps
    the options, and what it returns is decoded by [decode] to a value that
    satisfies [post]. *)
Definition round_trip {A B} (encode : StateM Walk A) (streams : list WriteStream)
  (decode : Z -> bool -> bool -> A -> StateM Meta B)
  (post : list (WriteStream * Z) -> B -> Prop) : Prop :=
  forall w,
    streamsEnabled (options (w_transport w)) = true ->
    exists encoded w' newBinaries newStreams,
      encode w = (Ok encoded, w') /\
      w_binaries w' = w_binaries w ++ newBinaries /\
      w_streams w' = w_streams w ++ newStreams /\
      options (w_transport w') = options (w_transport w) /\
      fst <$> newStreams = streams /\
      forall limit parseStreams parseBinaries,
        decodes limit parseStreams parseBinaries newBinaries newStreams
          (length (w_binaries w))
          (decode limit parseStreams parseBinaries encoded)
          (post newStreams).

(** A value with twenty-one write streams, one more than the default
    limit. *)
Definition twenty_one_streams : value :=
  VArray (replicate 21 (VWriteStream {| binary := false; label := 0 |})).

(** The round trip of one value: what the encoding walk returns for [data]
    is decoded to [data] with its write streams materialized, and the read
    streams carry the identifiers of the new streams in their order. *)
Definition value_round_trip {helpers : Helpers} (data : value) : Prop :=
  round_trip (_processMixedJSONDeepWalk data) (write_streams data)
    (fun limit parseStreams parseBinaries =>
       _internalResolveMixedJSONDeep limit parseStreams parseBinaries)
    (fun newStreams decoded =>
       materialized data decoded /\ read_ids decoded = Some <$> (snd <$> newStreams)).



(** The response timer of the call is armed. *)
Definition armed (callId : Z) (t : Transport) : Prop :=
  exists p tm,
    _invokeResponsePromises t !! number_key callId = Some p /\ timeout p = Some tm.





(** ** More of the class: identifiers *)

(** [Transport._multiBinaryContentPacketId], a static field of the class,
    and [Transport._getNewMultiBinaryContentPacketId()]; the state is the
    field, which starts at [-1]. *)
Definition _getNewMultiBinaryContentPacketId : StateM Z Z := fun id =>
  let id1 := if id <? MIN_SAFE_INTEGER then -1 else id in
  (Ok id1, id1 - 1).

(** [n] calls of an allocator, one after the other, with the identifiers
    they return. *)
Fixpoint allocate {S} (alloc : StateM S Z) (n : nat) (s : S) : list Z :=
  match n with
  | O => []
  | S n' =>
      match alloc s with
      | (Ok id, s') => id :: allocate alloc n' s'
      | (Throw _, _) => []
      end
  end.

(** [n] bad connections, one after the other. *)
Fixpoint disconnect_all (reasons : list (BadConnectionType * option string))
  (t : Transport) : Transport :=
  match reasons with
  | [] => t
  | r :: rest => disconnect_all rest (snd (emitBadConnection (fst r) (snd r) t))
  end.

(** ** More of the class: the bytes of binary frames *)

(** The byte with the value [v mod 256]. *)
Definition byte_of (v : Z) : byte :=
  default x00 (Byte.of_N (Z.to_N (v mod 256))).

(** The [n] low bytes of [v], the most significant first. *)
Fixpoint uint_bytes (n : nat) (v : Z) : list byte :=
  match n with
  | O => []
  | S n' => uint_bytes n' (v / 256) ++ [byte_of v]
  end.

(** The IEEE 754 binary64 datum of an integer that is a double, which the
    identifiers of the transport are: sign, biased exponent and the 52 bits
    of the fraction. *)
Definition float64_bits (z : Z) : Z :=
  if z =? 0 then 0
  else
    let a := Z.abs z in
    let e := Z.log2 a in
    let significand := if e <=? 52 then a * 2 ^ (52 - e) else a / 2 ^ (e - 52) in
    (if z <? 0 then 2 ^ 63 else 0) + (e + 1023) * 2 ^ 52 + (significand - 2 ^ 52).

(** [DataView.setUint32(offset, v)] and [DataView.setFloat64(offset, z)],
    both big endian, by the bytes they write. *)
Definition setUint32 (v : Z) : list byte := uint_bytes 4 v.
Definition setFloat64 (z : Z) : list byte := uint_bytes 8 (float64_bits z).

(** [new Uint8Array(new Float64Array([z]).buffer)]: the same datum in the
    byte order of the host (little endian). *)
Definition float64_host_bytes (z : Z) : list byte := rev (setFloat64 z).

(** The bytes of a binary message. For [BinaryContentMessage] they are the
    ones that [_createBinaryContentPacket] writes (the header byte, the
    identifier, and each item behind its length), for
    [BinaryStreamMessage] the ones of [_createBinaryStreamChunkPacket], and
    [PING] and [PONG] are the one byte arrays of [Protocol.ts]. A text
    message has none. *)
Definition frame_bytes (msg : Message) : option (list byte) :=
  match msg with
  | TextMessage _ => None
  | BinaryContentMessage refId content =>
      Some (byte_of (PacketType_code BinaryContent) :: setFloat64 refId ++
            concat ((fun item => setUint32 (byteLength item) ++ item) <$> content))
  | BinaryStreamMessage type streamId binary =>
      Some (byte_of (PacketType_code type) :: float64_host_bytes streamId ++ binary)
  | PingMessage => Some [byte_of PING_UINT8]
  | PongMessage => Some [byte_of PONG_UINT8]
  end.

(** [Transport._createBinaryStreamChunkPacket(streamId, binary, end)] *)
Definition _createBinaryStreamChunkPacket (streamId : Z) (binary : list byte)
  (end_ : bool) : Message :=
  BinaryStreamMessage (if end_ then StreamEnd else StreamChunk) streamId binary.

(** ** More of the class: senders *)

(** [_sendBinaryStreamChunk(streamId, binaryPart, end)] *)
Definition _sendBinaryStreamChunk (streamId : Z) (binaryPart : list byte)
  (end_ : bool) : M unit :=
  send (_createBinaryStreamChunkPacket streamId binaryPart end_).

(** [sendPing()] and [sendPong()]: what [send] throws is dropped. *)
Definition sendPing : M unit := try_catch (send PingMessage) (fun _ => mret tt).
Definition sendPong : M unit := try_catch (send PongMessage) (fun _ => mret tt).

(** A package of [prepareTransmit]: the messages, and the streams on which
    the hook [_afterSend] calls [_onTransmitted]; [None] is a package
    without hook. *)
Record TransmitPackage := {
  transmit_pack : Package;
  transmit_afterSend : option (list (WriteStream * Z))
}.

Section MoreSending.
Context {helpers : Helpers}.

Definition prepareTransmit (receiver : string) (data : value)
  (processComplexTypes : bool) : M TransmitPackage :=
  if negb processComplexTypes then
    mret {| transmit_pack :=
              {| head := [FPacketType Transmit; FName receiver; FDataType JSON]
                           ++ json_field data;
                 binaryFrame := None |};
            transmit_afterSend := None |}
  else
    streamsOn ← gets (fun t => streamsEnabled (options t));
    match data, streamsOn with
    | VWriteStream s, true =>
        streamId ← _getNewStreamId (binary s);
        _ ← called (Called_writeStream s (ws_init streamId));
        mret {| transmit_pack :=
                  {| head := [FPacketType Transmit; FName receiver;
                              FDataType Stream; FNumber streamId];
                     binaryFrame := None |};
                transmit_afterSend := Some [(s, streamId)] |}
    | VArrayBuffer b, _ =>
        binaryContentPacketId ← _getNewBinaryContentPacketId;
        frame ← lift_result (_createBinaryContentPacket binaryContentPacketId [b]);
        mret {| transmit_pack :=
                  {| head := [FPacketType Transmit; FName receiver;
                              FDataType Binary; FNumber binaryContentPacketId];
                     binaryFrame := Some frame |};
                transmit_afterSend := None |}
    | _, _ =>
        '(pack, streams) ← mixed_package data false
           (fun type => [FPacketType Transmit; FName receiver; FDataType type]);
        mret {| transmit_pack := pack;
                transmit_afterSend := if nonempty streams then Some streams else None |}
    end.

(** [_directSendPackage(pack)]: the messages, then the hook if there is
    one. *)
Definition _directSendPackage (pack : TransmitPackage) : M unit :=
  _ ← _silentDirectSendPackage (transmit_pack pack);
  match transmit_afterSend pack with
  | Some streams => onTransmitted_all streams
  | None => mret tt
  end.

End MoreSending.

(** ** More of the class: packages for many transports *)

Section MultiTransmit.
Context {helpers : Helpers}.

(** [Transport._processMultiMixedJSONDeep(data, binaries)]; the state is the
    array [binaries]. As in the resolving walk, a stream object is taken
    to have no enumerable property. *)
Fixpoint _processMultiMixedJSONDeep (data : value) : StateM (list (list byte)) value :=
  match data with
  | VArrayBuffer b =>
      fun binaries =>
        (Ok (VObject [("_b"%string, VNumber (Z.of_nat (length binaries)))]),
         binaries ++ [b])
  | VArray items =>
      newArray ← each_item _processMultiMixedJSONDeep items;
      mret (VArray newArray)
  | VObject props =>
      clone ← each_prop escapePlaceholderSequence _processMultiMixedJSONDeep props [];
      mret (VObject clone)
  | VWriteStream _ | VReadStream _ => mret (VObject [])
  | VDate _ | VUndefined | VNull | VBool _ | VNumber _ | VString _ => mret data
  end.

(** [Transport.prepareMultiTransmit(receiver, data, {processComplexTypes})];
    the state is the static counter of the class. *)
Definition prepareMultiTransmit (receiver : string) (data : value)
  (processComplexTypes : bool) : StateM Z Package :=
  if negb processComplexTypes then
    mret {| head := [FPacketType Transmit; FName receiver; FDataType JSON]
                      ++ json_field data;
            binaryFrame := None |}
  else
    match data with
    | VArrayBuffer b =>
        binaryContentPacketId ← _getNewMultiBinaryContentPacketId;
        frame ← lift_result (_createBinaryContentPacket binaryContentPacketId [b]);
        mret {| head := [FPacketType Transmit; FName receiver;
                         FDataType Binary; FNumber binaryContentPacketId];
                binaryFrame := Some frame |}
    | _ =>
        match _processMultiMixedJSONDeep data [] with
        | (Throw e, _) => throw e
        | (Ok data', binaries) =>
            let head0 := [FPacketType Transmit; FName receiver;
                          FDataType (parseJSONDataType (nonempty binaries) false)]
                           ++ json_field data' in
            if nonempty binaries then
              binaryContentPacketId ← _getNewMultiBinaryContentPacketId;
              frame ← lift_result
                        (_createBinaryContentPacket binaryContentPacketId binaries);
              mret {| head := head0 ++ [FNumber binaryContentPacketId];
                      binaryFrame := Some frame |}
            else mret {| head := head0; binaryFrame := None |}
        end
    end.

End MultiTransmit.

(** ** More of the class: the timer of a binary content resolver *)

(** The callback of the timer that [_resolveBinaryContent] starts for the
    packet whose identifier has the name [binariesPacketId]. The timer is
    pending as long as its resolver is in the registry:
    [_processBinaryContentPacket] and [_rejectBinaryContentResolver] clear
    it when they take the resolver out. *)
Definition resolver_timer_fires (binariesPacketId : string) : M unit :=
  resolvers ← gets _binaryContentResolver;
  match resolvers !! binariesPacketId with
  | Some resolver =>
      _ ← modify (fun t =>
             set_binaryContentResolver
               (delete binariesPacketId (_binaryContentResolver t)) t);
      let err := TimeoutError BinaryResolve binariesPacketId in
      _ ← called (Called_resolverCallback binariesPacketId (Some err) []);
      fail_binaries_callback (callback resolver) err
  | None => mret tt
  end.

(** ** More vocabulary of the statements *)

(** The transports [t] and [t'] agree on [f]. *)
Definition same {X} (f : Transport -> X) (t t' : Transport) : Prop := f t' = f t.

(** The packets of a list, each one sent as a message of its own. *)
Fixpoint emit_each {helpers : Helpers} (packets : list ActionPacket) (t : Transport)
  : Transport :=
  match packets with
  | [] => t
  | p :: r => emit_each r (snd (emitMessage (RawText (Ok (SinglePacket p))) t))
  end.

(** The binary content packet that an inbound packet with these slots
    waits for, as [_processData] reads them: the data of a packet of type
    [Binary] and the meta information of a packet of a mixed type, when it
    is a number. *)
Definition awaited_binaries {helpers : Helpers} (type : TypeSlot) (data meta : value)
  : option Z :=
  if is_type type JSON then None
  else if is_type type Binary then number_of data
  else if isMixedJSONDataType type then number_of meta
  else None.

(** The walk [m] of a transport and the static walk [m'] do the same to the
    array of binaries and return the same, and [m] leaves the transport and
    the array of streams as they are. *)
Definition agrees {A} (m : StateM Walk A) (m' : StateM (list (list byte)) A) : Prop :=
  forall w,
    m w = (fst (m' (w_binaries w)),
           {| w_transport := w_transport w;
              w_binaries := snd (m' (w_binaries w));
              w_streams := w_streams w |}).

(** The calls of [_init] and of [_onTransmitted] on streams that were given
    identifiers. *)
Definition init_calls (streams : list (WriteStream * Z)) : list Call :=
  (fun p => Called_writeStream (fst p) (ws_init (snd p))) <$> streams.

Definition transmitted_calls (streams : list (WriteStream * Z)) : list Call :=
  (fun p => Called_writeStream (fst p) ws_onTransmitted) <$> streams.

(** The encoding walk returns, collects the write streams of the value in
    their order, and calls nothing but [_init] on each of them, in that
    order; it keeps the options. *)
Definition initializes {A} (streams : list WriteStream) (m : StateM Walk A) : Prop :=
  forall w,
    (streams <> [] -> streamsEnabled (options (w_transport w)) = true) ->
    exists a w' newStreams,
      m w = (Ok a, w') /\
      w_streams w' = w_streams w ++ newStreams /\
      fst <$> newStreams = streams /\
      calls (w_transport w') = calls (w_transport w) ++ init_calls newStreams /\
      options (w_transport w') = options (w_transport w).

(** The messages of a package in the order of [_directSendPackage], and
    the calls of [send] on them: each message is handed to the function of
    the connector until one call throws; the error is the one of that
    call. *)
Definition package_messages (pack : Package) : list Message :=
  TextMessage (head pack)
  :: match binaryFrame pack with Some frame => [frame] | None => [] end.

Fixpoint attempted_sends (c : Connector) (msgs : list Message)
  : list Call * option Error :=
  match msgs with
  | [] => ([], None)
  | msg :: rest =>
      match connector_send c msg with
      | Some e => ([Called_send msg], Some e)
      | None =>
          let (cs, r) := attempted_sends c rest in (Called_send msg :: cs, r)
      end
  end.

(** The type slot holds nothing that [_processData] accepts on the
    transport: none of the members JSON and Binary, no mixed type, and not
    the member Stream while streams are enabled. *)
Definition unreadable_type {helpers : Helpers} (type : TypeSlot) (t : Transport) : bool :=
  negb (is_type type JSON) && negb (is_type type Binary)
  && negb (isMixedJSONDataType type)
  && negb (is_type type Stream && streamsEnabled (options t)).

(** * Theorems *)

(** * Computations: binds, recorded calls *)

Lemma called_records (c : Call) (t : Transport) :
  called c t = (Ok tt, record_calls [c] t).
Proof. reflexivity. Qed.

Lemma bind_called {A} (c : Call) (k : unit -> M A) (t : Transport) :
  (called c ≫= k) t = k tt (record_calls [c] t).
Proof. reflexivity. Qed.

Lemma bind_gets {S A B} (f : S -> A) (k : A -> StateM S B) (s : S) :
  (gets f ≫= k) s = k (f s) s.
Proof. reflexivity. Qed.

Lemma bind_modify {S B} (f : S -> S) (k : unit -> StateM S B) (s : S) :
  (modify f ≫= k) s = k tt (f s).
Proof. reflexivity. Qed.

Lemma bind_ok {S A B} (m : StateM S A) (k : A -> StateM S B) (s s' : S) (a : A) :
  m s = (Ok a, s') -> (m ≫= k) s = k a s'.
Proof. intros H. unfold mbind, StateM_bind. rewrite H. reflexivity. Qed.

Lemma bind_throw {S A B} (m : StateM S A) (k : A -> StateM S B) (s s' : S) (e : Error) :
  m s = (Throw e, s') -> (m ≫= k) s = (Throw e, s').
Proof. intros H. unfold mbind, StateM_bind. rewrite H. reflexivity. Qed.

Lemma record_calls_nil (t : Transport) : record_calls [] t = t.
Proof. unfold record_calls, entries_at. destruct t; simpl. rewrite app_nil_r. reflexivity. Qed.

Lemma record_calls_app (a b : list Call) (t : Transport) :
  record_calls b (record_calls a t) = record_calls (a ++ b) t.
Proof.
  unfold record_calls, entries_at. destruct t; simpl.
  rewrite fmap_app, app_assoc. reflexivity.
Qed.

Lemma connector_record_calls (cs : list Call) (t : Transport) :
  connector (record_calls cs t) = connector t.
Proof. destruct t; reflexivity. Qed.

Lemma bind_inv {S A B} (m : StateM S A) (k : A -> StateM S B) (s s' : S) (b : B) :
  (m ≫= k) s = (Ok b, s') ->
  exists a s1, m s = (Ok a, s1) /\ k a s1 = (Ok b, s').
Proof.
  unfold mbind, StateM_bind. destruct (m s) as [[a|e] s1]; intros H.
  - exists a, s1. split; [reflexivity | exact H].
  - discriminate H.
Qed.

Lemma calls_record_calls (cs : list Call) (t : Transport) :
  calls (record_calls cs t) = calls t ++ cs.
Proof.
  unfold calls, record_calls, entries_at. destruct t; simpl.
  rewrite fmap_app. f_equal. rewrite <- list_fmap_compose.
  induction cs as [|c cs IH]; [reflexivity|]. simpl. f_equal. exact IH.
Qed.

Lemma hook_run (c : Call) (outcome : option Error) (t : Transport) :
  hook c outcome t =
    (match outcome with None => Ok tt | Some e => Throw e end, record_calls [c] t).
Proof. unfold hook. rewrite bind_called. destruct outcome; reflexivity. Qed.

(** [send] hands the message to the connector and returns or throws as the
    function of the connector does. *)
Lemma send_run (msg : Message) (t : Transport) :
  send msg t =
    (match connector_send (connector t) msg with None => Ok tt | Some e => Throw e end,
     record_calls [Called_send msg] t).
Proof. unfold send. rewrite bind_gets. apply hook_run. Qed.

Lemma options_record_calls (cs : list Call) (t : Transport) :
  options (record_calls cs t) = options t.
Proof. destruct t; reflexivity. Qed.


(** * The type slot of a packet *)

Section KnownTypes.
Context {helpers : Helpers}.

Lemma is_type_known (d d' : DataType) :
  is_type (KnownType d) d' = bool_decide (d = d').
Proof.
  unfold is_type, KnownType. destruct (decide (d = d')) as [->|Hne].
  - rewrite Z.eqb_refl, bool_decide_eq_true_2; reflexivity.
  - rewrite bool_decide_eq_false_2 by exact Hne.
    apply Z.eqb_neq. intros H. apply DataType_code_inj in H. contradiction.
Qed.

Lemma is_number_known (d : DataType) : is_number (KnownType d) = true.
Proof. reflexivity. Qed.

(** [_processData] on a member of [DataType]. *)
Lemma processData_known (d : DataType) (data meta : value) (cb : DataCallback)
  (t : Transport) :
  _processData (KnownType d) data meta cb t =
    match d with
    | JSON => run_callback cb data t
    | Binary =>
        (_ ← (if is_number data then mret tt
              else fail_callback cb (JsError "Invalid binary packet id."));
         _resolveBinaryContent data (FirstBinary cb)) t
    | Stream =>
        if streamsEnabled (options t)
        then (_ ← (if is_number data then mret tt
                   else fail_callback cb (JsError "Invalid stream id."));
              run_callback cb (VReadStream {| rs_id := number_of data |})) t
        else fail_callback cb (JsError "Invalid data type.") t
    | JSONWithStreams | JSONWithBinaries | JSONWithStreamsAndBinaries =>
        let parseStreams := streamsEnabled (options t) && stream_member d in
        let parseBinaries :=
          match d with
          | JSONWithBinaries | JSONWithStreamsAndBinaries => true
          | _ => false
          end in
        match meta with
        | VNumber id =>
            _resolveBinaryContent (VNumber id)
              (MixedWithBinaries data parseStreams parseBinaries cb) t
        | _ =>
            (o ← gets options;
             resolved ← lift_result
               (fst (_resolveMixedJSONDeep o data parseStreams parseBinaries None));
             run_callback cb resolved) t
        end
    end.
Proof.
  unfold _processData. rewrite bind_gets, !is_type_known.
  unfold KnownType. rewrite isMixedJSONDataType_member.
  destruct d;
    repeat match goal with
           | |- context [bool_decide (?a = ?b)] =>
               first [ rewrite (bool_decide_eq_true_2 (a = b)) by reflexivity
                     | rewrite (bool_decide_eq_false_2 (a = b)) by discriminate ]
           end;
    cbn [mixed_member stream_member orb andb]; try reflexivity.
  - destruct (streamsEnabled (options t)); reflexivity.
  - destruct meta; rewrite ?andb_true_r; reflexivity.
  - destruct meta; rewrite ?andb_false_r; reflexivity.
  - destruct meta; rewrite ?andb_true_r; reflexivity.
Qed.

End KnownTypes.

(** * Property names *)

Lemma number_key_inj (a b : Z) : number_key a = number_key b -> a = b.
Proof. apply pretty_Z_inj. Qed.

(** A numeral starts with a digit. *)
Lemma pretty_N_go_head (x : N) : forall s,
  (0 < x)%N ->
  exists d rest, (d < 10)%N /\ pretty_N_go x s = String (pretty_N_char d) rest.
Proof.
  induction (N.lt_wf_0 x) as [x _ IH]; intros s Hx.
  rewrite pretty_N_go_step by exact Hx.
  destruct (decide (x `div` 10 = 0)%N) as [Hz|Hnz].
  - rewrite Hz, pretty_N_go_0. exists (x `mod` 10)%N, s.
    split; [apply N.mod_lt; lia | reflexivity].
  - apply IH; [apply N.div_lt; lia | apply N.neq_0_lt_0; exact Hnz].
Qed.

Lemma number_key_head (z : Z) :
  exists c rest,
    number_key z = String c rest /\
    (c = "-"%char \/ exists d, (d < 10)%N /\ c = pretty_N_char d).
Proof.
  destruct z as [|p|p].
  - exists "0"%char, ""%string. split; [reflexivity|]. right. exists 0%N. split; [lia | reflexivity].
  - destruct (pretty_N_go_head (N.pos p) "" ltac:(lia)) as (d & rest & Hd & Hrest).
    exists (pretty_N_char d), rest. split; [|right; exists d; split; [exact Hd | reflexivity]].
    unfold number_key, pretty, pretty_Z, pretty, pretty_positive, pretty, pretty_N.
    destruct (decide (N.pos p = 0%N)) as [H0|_]; [discriminate H0 | exact Hrest].
  - eexists "-"%char, _. split; [reflexivity | left; reflexivity].
Qed.

(** The name of a number is none of the names of [Object.prototype]. *)
Lemma number_key_no_prototype_member (z : Z) : prototype_member (number_key z) = false.
Proof.
  unfold prototype_member. apply bool_decide_eq_false. intros Hin.
  destruct (number_key_head z) as (c & rest & Heq & Hc). rewrite Heq in Hin.
  assert (Hfirst : c = "c"%char \/ c = "_"%char \/ c = "h"%char \/ c = "i"%char
                   \/ c = "p"%char \/ c = "t"%char \/ c = "v"%char).
  { repeat (apply elem_of_cons in Hin as [Hin|Hin];
            [inversion Hin; subst; tauto|]).
    inversion Hin. }
  destruct Hc as [->|(d & Hd & ->)].
  - repeat (destruct Hfirst as [Hfirst|Hfirst]; [discriminate Hfirst|]).
    discriminate Hfirst.
  - unfold pretty_N_char in Hfirst.
    repeat case_match;
      repeat (destruct Hfirst as [Hfirst|Hfirst]; [discriminate Hfirst|]);
      discriminate Hfirst.
Qed.

Lemma registry_get_own {A} (registry : gmap string A) (key : string) (a : A) :
  registry !! key = Some a -> registry_get registry key = Own a.
Proof. intros H. unfold registry_get. rewrite H. reflexivity. Qed.

Lemma registry_get_number {A} (registry : gmap string A) (z : Z) :
  registry !! number_key z = None -> registry_get registry (number_key z) = Absent.
Proof.
  intros H. unfold registry_get. rewrite H, number_key_no_prototype_member. reflexivity.
Qed.

Section PropertyNames.
Context {helpers : Helpers}.

Lemma float_name_integral (z : Z) :
  Z.abs z < 10 ^ 21 -> float_name (Integral z) = number_key z.
Proof.
  intros Hz. unfold float_name.
  destruct (Z.ltb_spec (Z.abs z) (10 ^ 21)); [reflexivity | lia].
Qed.

Lemma ToPropertyKey_number (z : Z) :
  Z.abs z < 10 ^ 21 -> ToPropertyKey (VNumber z) = Ok (number_key z).
Proof. intros Hz. cbn [ToPropertyKey]. rewrite float_name_integral by exact Hz. reflexivity. Qed.

End PropertyNames.

(** * Stream identifiers *)

Lemma getNewStreamId_object (t : Transport) :
  stream_ids_inv t ->
  exists t',
    _getNewStreamId false t = (Ok (peek_objectStreamId t), t') /\
    stream_ids_inv t' /\
    0 < peek_objectStreamId t <= MAX_SAFE_INTEGER /\
    peek_objectStreamId t' = next_objectStreamId (peek_objectStreamId t) /\
    peek_binaryStreamId t' = peek_binaryStreamId t.
Proof.
  intros [Ho Hb]. unfold _getNewStreamId, peek_objectStreamId, peek_binaryStreamId,
    next_objectStreamId, stream_ids_inv.
  destruct t as [? ? ? ? ? os bs ? ? ? ? ? ?]; simpl in *.
  destruct (MAX_SAFE_INTEGER <? os) eqn:E; simpl;
    eexists; (split; [reflexivity|]); simpl;
    unfold MAX_SAFE_INTEGER, MIN_SAFE_INTEGER in *;
    repeat match goal with |- context [?a <? ?b] => destruct (Z.ltb_spec a b) end;
    try lia.
Qed.

Lemma getNewStreamId_binary (t : Transport) :
  stream_ids_inv t ->
  exists t',
    _getNewStreamId true t = (Ok (peek_binaryStreamId t), t') /\
    stream_ids_inv t' /\
    MIN_SAFE_INTEGER <= peek_binaryStreamId t < 0 /\
    peek_binaryStreamId t' = next_binaryStreamId (peek_binaryStreamId t) /\
    peek_objectStreamId t' = peek_objectStreamId t.
Proof.
  intros [Ho Hb]. unfold _getNewStreamId, peek_objectStreamId, peek_binaryStreamId,
    next_binaryStreamId, stream_ids_inv.
  destruct t as [? ? ? ? ? os bs ? ? ? ? ? ?]; simpl in *.
  destruct (bs <? MIN_SAFE_INTEGER) eqn:E; simpl;
    eexists; (split; [reflexivity|]); simpl;
    unfold MAX_SAFE_INTEGER, MIN_SAFE_INTEGER in *;
    repeat match goal with |- context [?a <? ?b] => destruct (Z.ltb_spec a b) end;
    try lia.
Qed.

Lemma allocate_all_spec (kinds : list bool) : forall t,
  stream_ids_inv t ->
  let allocated := allocate_all kinds t in
  length allocated = length kinds /\
  follows next_objectStreamId (peek_objectStreamId t) (ids_of false allocated) /\
  follows next_binaryStreamId (peek_binaryStreamId t) (ids_of true allocated) /\
  (forall k id, (k, id) ∈ allocated ->
     if k : bool then MIN_SAFE_INTEGER <= id < 0 else 0 < id <= MAX_SAFE_INTEGER).
Proof.
  induction kinds as [|k kinds IH]; intros t Hinv; simpl.
  - repeat split; auto. intros k id H. inversion H.
  - destruct k.
    + destruct (getNewStreamId_binary t Hinv) as (t' & -> & Hinv' & Hr & Hpb & Hpo).
      destruct (IH t' Hinv') as (Hlen & Hobj & Hbin & Hsign).
      rewrite Hpb, Hpo in *.
      unfold ids_of in *. rewrite !filter_cons. simpl.
      split; [|split; [|split]]; auto.
      intros k id Hin. apply elem_of_cons in Hin as [Heq | Hin];
        [inversion Heq; subst; exact Hr | apply Hsign; exact Hin].
    + destruct (getNewStreamId_object t Hinv) as (t' & -> & Hinv' & Hr & Hpo & Hpb).
      destruct (IH t' Hinv') as (Hlen & Hobj & Hbin & Hsign).
      rewrite Hpb, Hpo in *.
      unfold ids_of in *. rewrite !filter_cons. simpl.
      split; [|split; [|split]]; auto.
      intros k id Hin. apply elem_of_cons in Hin as [Heq | Hin];
        [inversion Heq; subst; exact Hr | apply Hsign; exact Hin].
Qed.

(** C9. From a new transport, every allocation of a stream identifier
    returns; the identifiers of object streams are 1, 2, ... and start again
    at 1 after the largest safe integer, the ones of binary streams are -1,
    -2, ... and start again at -1 after the smallest safe integer; an
    identifier of an object stream is positive and one of a binary stream
    is negative, so the two kinds never share an identifier. *)
Theorem stream_ids_sign_by_kind (c : Connector) (o : TransportOptions)
  (connected : bool) (kinds : list bool) :
  let allocated := allocate_all kinds (new_Transport c o connected) in
  length allocated = length kinds /\
  follows next_objectStreamId 1 (ids_of false allocated) /\
  follows next_binaryStreamId (-1) (ids_of true allocated) /\
  (forall k id, (k, id) ∈ allocated ->
     if k : bool then MIN_SAFE_INTEGER <= id < 0 else 0 < id <= MAX_SAFE_INTEGER) /\
  (forall i j, (false, i) ∈ allocated -> (true, j) ∈ allocated -> i <> j).
Proof.
  intros allocated.
  assert (Hinv : stream_ids_inv (new_Transport c o connected)).
  { unfold stream_ids_inv, MAX_SAFE_INTEGER, MIN_SAFE_INTEGER. simpl. lia. }
  destruct (allocate_all_spec kinds _ Hinv) as (Hlen & Hobj & Hbin & Hsign).
  split; [|split; [|split; [|split]]]; try assumption.
  intros i j Hi Hj Heq. apply Hsign in Hi. apply Hsign in Hj. simpl in *. lia.
Qed.
(** * Stream chunks that carry a stream *)

(** The allocation of a stream identifier changes one counter. *)
Lemma getNewStreamId_run (b : bool) (t : Transport) :
  exists id t1,
    _getNewStreamId b t = (Ok id, t1) /\
    trace t1 = trace t /\ connector t1 = connector t /\ options t1 = options t /\
    badConnectionStamp t1 = badConnectionStamp t /\ open t1 = open t.
Proof.
  unfold _getNewStreamId. destruct b; eexists _, _; (split; [reflexivity|]);
    destruct t; simpl;
    repeat match goal with |- context [if ?c then _ else _] => destruct c end;
    repeat split; reflexivity.
Qed.

(** What [_sendStreamChunk] sends for a write stream when chunks may
    contain streams: both number fields of the head hold the identifier
    allocated for the inner stream, whatever the enclosing stream is. The
    stream is initialised when [send] has returned. *)
Lemma sendStreamChunk_stream_head {helpers : Helpers} (t : Transport)
  (outer : Z) (s : WriteStream) (end_ : bool) :
  chunksCanContainStreams (options t) = true ->
  exists inner t1,
    _getNewStreamId (binary s) t = (Ok inner, t1) /\
    let msg := TextMessage [FPacketType (if end_ then StreamEnd else StreamChunk);
                            FNumber inner; FDataType Stream; FNumber inner] in
    calls (snd (_sendStreamChunk outer (VWriteStream s) true end_ t)) =
      calls t ++
      Called_send msg
      :: match connector_send (connector t) msg with
         | None => [Called_writeStream s (ws_init inner);
                    Called_writeStream s ws_onTransmitted]
         | Some _ => []
         end.
Proof.
  intros Hon.
  destruct (getNewStreamId_run (binary s) t) as (inner & t1 & Hid & Htr & Hc & _).
  exists inner, t1. split; [exact Hid|]. intros msg.
  unfold _sendStreamChunk. cbn [negb]. rewrite bind_gets, Hon.
  rewrite (bind_ok _ _ _ _ _ Hid).
  assert (Hcalls : calls t1 = calls t) by (unfold calls; rewrite Htr; reflexivity).
  fold msg. pose proof (send_run msg t1) as Hrun. rewrite Hc in Hrun.
  destruct (connector_send (connector t) msg) as [e|] eqn:Hsend.
  - rewrite (bind_throw _ _ _ _ _ Hrun).
    cbn [snd]. rewrite calls_record_calls, Hcalls. reflexivity.
  - rewrite (bind_ok _ _ _ _ _ Hrun).
    rewrite bind_called, called_records. cbn [snd].
    rewrite !calls_record_calls, Hcalls, <- !app_assoc. reflexivity.
Qed.

(** C4. On a new transport whose chunks may contain streams, the chunk of
    the stream 5 whose data is a write stream is sent with the head
    [7,1,2-as-Stream,1]: the identifier 1 of the inner stream stands in the
    place of the enclosing stream, and 5 occurs nowhere in the packet. *)
Theorem sendStreamChunk_header_loses_outer_id {helpers : Helpers} :
  let o := {| responseTimeout := 10000; binaryContentPacketTimeout := 10000;
              streamsPerPackageLimit := 20; streamsEnabled := true;
              chunksCanContainStreams := true |} in
  let s := {| binary := false; label := 0 |} in
  calls (snd (_sendStreamChunk 5 (VWriteStream s) true false
                (new_Transport quiet_connector o true))) =
    [Called_send (TextMessage [FPacketType StreamChunk; FNumber 1;
                               FDataType Stream; FNumber 1]);
     Called_writeStream s (ws_init 1);
     Called_writeStream s ws_onTransmitted].
Proof. reflexivity. Qed.

(** * Exceptions of the listeners *)

(** [_onListenerError] returns whatever the hook does, after one call of
    the hook. *)
Lemma onListenerError_swallows (err : Error) (t : Transport) :
  fst (_onListenerError err t) = Ok tt /\
  calls (snd (_onListenerError err t)) = calls t ++ [Called_onListenerError err].
Proof.
  unfold _onListenerError, try_catch, hook, called, modify, gets, calls.
  unfold mbind, StateM_bind, mret, StateM_ret, throw. simpl.
  destruct (onListenerError (connector t) err); simpl;
    destruct t; simpl; rewrite fmap_app; auto.
Qed.

(** An exception of [onTransmit] goes to [onListenerError], and
    [_processTransmit] returns even when that hook throws in its turn. *)
Lemma processTransmit_swallows (receiver : string) (data : value) (type : TypeSlot)
  (t : Transport) (e : Error) :
  onTransmit (connector t) receiver data type = Some e ->
  fst (_processTransmit receiver data type t) = Ok tt /\
  calls (snd (_processTransmit receiver data type t)) =
    calls t ++ [Called_onTransmit receiver data type; Called_onListenerError e].
Proof.
  intros Hthrow.
  unfold _processTransmit, try_catch, hook, called, modify, gets.
  unfold mbind, StateM_bind, mret, StateM_ret, throw. simpl. rewrite Hthrow. simpl.
  match goal with |- context [_onListenerError e ?t1] =>
    destruct (onListenerError_swallows e t1) as [H1 H2];
    destruct (_onListenerError e t1) as [r t2] end.
  simpl in *. split; [exact H1|]. rewrite H2.
  unfold calls. destruct t; simpl. rewrite fmap_app, <- app_assoc. reflexivity.
Qed.

(** C6. A ping whose listener throws [e1] while the hook [onListenerError]
    throws [e2] on it: the handler of [emitMessage] for [onPing] calls the
    hook itself, not [_onListenerError], so [e2] leaves it and is given to
    [onInvalidMessage]. *)
Theorem ping_listener_error_reaches_onInvalidMessage {helpers : Helpers}
  (t : Transport) (e1 e2 : Error) :
  onPing (connector t) = Some e1 ->
  onListenerError (connector t) e1 = Some e2 ->
  calls (snd (emitMessage (RawBinary [x39]) t)) =
    calls t ++ [Called_onPing; Called_onListenerError e1; Called_onInvalidMessage e2].
Proof.
  intros Hping Herr.
  unfold emitMessage, call_onInvalidMessage, try_catch, hook, called, modify, gets.
  unfold mbind, StateM_bind, mret, StateM_ret, throw. simpl.
  rewrite Hping. simpl.
  destruct t as [? c ? ? ? ? ? ? ? ? ? ? tr]; simpl in *.
  rewrite Herr. simpl.
  destruct (onInvalidMessage c e2); unfold calls; simpl;
    rewrite !fmap_app, <- !app_assoc; reflexivity.
Qed.

(** The same for a pong. *)
Lemma pong_listener_error_reaches_onInvalidMessage {helpers : Helpers}
  (t : Transport) (e1 e2 : Error) :
  onPong (connector t) = Some e1 ->
  onListenerError (connector t) e1 = Some e2 ->
  calls (snd (emitMessage (RawBinary [x41]) t)) =
    calls t ++ [Called_onPong; Called_onListenerError e1; Called_onInvalidMessage e2].
Proof.
  intros Hpong Herr.
  unfold emitMessage, call_onInvalidMessage, try_catch, hook, called, modify, gets.
  unfold mbind, StateM_bind, mret, StateM_ret, throw. simpl.
  rewrite Hpong. simpl.
  destruct t as [? c ? ? ? ? ? ? ? ? ? ? tr]; simpl in *.
  rewrite Herr. simpl.
  destruct (onInvalidMessage c e2); unfold calls; simpl;
    rewrite !fmap_app, <- !app_assoc; reflexivity.
Qed.

Lemma ping_listener_error_witness :
  calls (snd (emitMessage (helpers := spec_helpers) (RawBinary [x39])
                (new_Transport throwing_connector DEFAULT_OPTIONS true))) =
    [Called_onPing; Called_onListenerError (UserError 1);
     Called_onInvalidMessage (UserError 2)].
Proof.
  apply (ping_listener_error_reaches_onInvalidMessage (helpers := spec_helpers)
           (new_Transport throwing_connector DEFAULT_OPTIONS true)
           (UserError 1) (UserError 2)); reflexivity.
Defined.

(** A transmit of plain JSON whose listener throws: [emitMessage] returns,
    and [onInvalidMessage] is not called, whatever [onListenerError]
    does. *)
Lemma emitMessage_transmit_swallows {helpers : Helpers} (t : Transport)
  (receiver : string) (data meta : value) (e : Error) :
  onTransmit (connector t) receiver data (KnownType JSON) = Some e ->
  let packet := TransmitPacket (VString receiver) (KnownType JSON) data meta in
  fst (emitMessage (RawText (Ok (SinglePacket packet))) t) = Ok tt /\
  calls (snd (emitMessage (RawText (Ok (SinglePacket packet))) t)) =
    calls t ++ [Called_onTransmit receiver data (KnownType JSON);
                Called_onListenerError e].
Proof.
  intros Hthrow packet.
  destruct (processTransmit_swallows receiver data (KnownType JSON) t e Hthrow)
    as [H1 H2].
  destruct (_processTransmit receiver data (KnownType JSON) t) as [r t'] eqn:Hrun.
  simpl in *. subst r.
  unfold emitMessage, try_catch, packet. cbn [_processJsonActionPacket].
  rewrite processData_known. cbn [run_callback].
  rewrite Hrun. simpl. split; [reflexivity | exact H2].
Qed.

(** * Packets for an unknown invoke or stream *)

Ltac run_m :=
  unfold mbind, StateM_bind, mret, StateM_ret, throw, gets, modify, try_catch,
    lift_result; simpl.

(** Two packets for a transport without any pending invoke and without any
    stream. An error response whose call identifier is the string
    [constructor]: the registry has no entry of that name, the lookup finds
    the member of [Object.prototype], whose [timeout] is cleared and whose
    [reject] is no function, and [emitMessage] reports the [TypeError] to
    [onInvalidMessage]. An accept for the stream 99 whose buffer size is a
    string: the type check comes before the lookup and throws, and the
    error is reported as well. *)
Lemma unknown_target_is_reported :
  let t := new_Transport quiet_connector DEFAULT_OPTIONS true in
  let response := InvokeErrRespPacket (VString "constructor") (VString "x") in
  let accept := StreamAcceptPacket (VNumber 99) (VString "x") in
  _invokeResponsePromises t = ∅ /\
  calls (snd (emitMessage (helpers := spec_helpers)
                (RawText (Ok (SinglePacket response))) t)) =
    [Called_clearTimeout None; Called_onInvalidMessage TypeError] /\
  unknown_target (helpers := spec_helpers) t accept /\
  calls (snd (emitMessage (helpers := spec_helpers)
                (RawText (Ok (SinglePacket accept))) t)) =
    [Called_onInvalidMessage
       (JsError "Invalid buffer size data type to accept a stream.")].
Proof.
  split; [reflexivity|]. split; [reflexivity|]. split; [|reflexivity].
  exists "99"%string. split; reflexivity.
Qed.

(** C10, amended. A packet of one of the eight kinds whose identifier names
    nothing in its registry (it has a property name, the registry has no
    entry of that name and [Object.prototype] no member), and whose checked
    slots pass the type check, is dropped in silence: neither
    [_processJsonActionPacket] nor [emitMessage] throws, calls a hook or
    changes the transport. *)
Theorem unknown_target_is_dropped {helpers : Helpers} (t : Transport)
  (p : ActionPacket) :
  unknown_target t p ->
  checked_slots_pass p ->
  _processJsonActionPacket p t = (Ok tt, t) /\
  emitMessage (RawText (Ok (SinglePacket p))) t = (Ok tt, t).
Proof.
  intros Hunknown Hslots.
  assert (H : _processJsonActionPacket p t = (Ok tt, t)).
  { destruct p; simpl in Hunknown, Hslots; try contradiction;
      destruct Hunknown as (key & Hkey & Habsent);
      unfold _processJsonActionPacket, _rejectInvoke, _processStreamAccept,
        _processStreamDataPermission, _processReadStreamClose,
        _processJsonWriteStreamClose, _processJsonStreamChunk, _processJsonStreamEnd;
      repeat match goal with
             | H : exists _, _ |- _ => destruct H as [? ->]
             | H : _ \/ _ |- _ => destruct H as [-> | H]
             end;
      unfold mbind, StateM_bind, lift_result, gets; rewrite Hkey;
      cbv beta iota; rewrite Habsent; reflexivity. }
  split; [exact H|].
  unfold emitMessage, try_catch. rewrite H. reflexivity.
Qed.

Lemma unknown_target_witness :
  emitMessage (helpers := spec_helpers)
    (RawText (Ok (SinglePacket (StreamAcceptPacket (VNumber 99) (VNumber 1024)))))
    (new_Transport quiet_connector DEFAULT_OPTIONS true)
  = (Ok tt, new_Transport quiet_connector DEFAULT_OPTIONS true).
Proof.
  apply (unknown_target_is_dropped (helpers := spec_helpers)
           (new_Transport quiet_connector DEFAULT_OPTIONS true)
           (StreamAcceptPacket (VNumber 99) (VNumber 1024))).
  - exists "99"%string. split; reflexivity.
  - simpl. eexists. reflexivity.
Defined.

Lemma slice_from_past (l : list byte) : forall i from to,
  to <= i -> slice_from i l from to = [].
Proof.
  induction l as [|b l IH]; intros i from to Hi; simpl; [reflexivity|].
  destruct (Z.ltb_spec i to); [lia|].
  rewrite andb_false_r. apply IH. lia.
Qed.

(** The binary forms of a chunk and of an end: a frame that is long enough
    to hold an identifier, for a stream without entry, is dropped in
    silence too. *)
Lemma unknown_binary_stream_is_dropped {helpers : Helpers} (t : Transport)
  (header : byte) (rest : list byte) :
  byte_value header = PacketType_code StreamChunk \/
  byte_value header = PacketType_code StreamEnd ->
  (8 <= length rest)%nat ->
  registry_get (_activeReadStreams t)
    (stream_key (Some (float64_of_bits (be_value 0 (rev (slice (header :: rest) 1 9))))))
  = Absent ->
  emitMessage (RawBinary (header :: rest)) t = (Ok tt, t).
Proof.
  intros Hheader Hlen Hunknown.
  assert (Hslice : length (slice (header :: rest) 1 9) = 8%nat).
  { unfold slice. simpl.
    do 8 (destruct rest as [|? rest]; [simpl in Hlen; lia|]).
    simpl. rewrite slice_from_past by lia. reflexivity. }
  assert (Hid : read_stream_id (header :: rest) =
                Ok (Some (float64_of_bits (be_value 0 (rev (slice (header :: rest) 1 9)))))).
  { unfold read_stream_id. rewrite Hslice. reflexivity. }
  assert (Hpacket : _processBinaryPacket (header :: rest) t = (Ok tt, t)).
  { unfold _processBinaryPacket.
    destruct Hheader as [Hh | Hh]; rewrite Hh;
      [ change (PacketType_code StreamChunk =? PacketType_code BinaryContent) with false;
        change (PacketType_code StreamChunk =? PacketType_code StreamChunk) with true
      | change (PacketType_code StreamEnd =? PacketType_code BinaryContent) with false;
        change (PacketType_code StreamEnd =? PacketType_code StreamChunk) with false;
        change (PacketType_code StreamEnd =? PacketType_code StreamEnd) with true ];
      cbv beta iota;
      unfold _processBinaryStreamChunk, _processBinaryStreamEnd,
        mbind, StateM_bind, lift_result, gets, mret, StateM_ret;
      rewrite Hid; cbv beta iota; rewrite Hunknown; reflexivity. }
  unfold emitMessage, try_catch.
  destruct rest as [|b rest]; [simpl in Hlen; lia|].
  rewrite Hpacket. reflexivity.
Qed.

(** * Binary content packets *)

Lemma byte_value_nonneg (b : byte) : 0 <= byte_value b.
Proof. unfold byte_value. lia. Qed.

Lemma be_value_nonneg (bs : list byte) : forall acc, 0 <= acc -> 0 <= be_value acc bs.
Proof.
  induction bs as [|b bs IH]; intros acc Hacc; unfold be_value; fold be_value.
  - exact Hacc.
  - apply IH. pose proof (byte_value_nonneg b). lia.
Qed.

Lemma getUint32_nonneg (view : list byte) (offset len : Z) :
  getUint32 view offset = Ok len -> 0 <= len /\ 0 <= offset /\ offset + 4 <= byteLength view.
Proof.
  unfold getUint32.
  destruct (Z.leb_spec 0 offset), (Z.leb_spec (offset + 4) (byteLength view));
    simpl; intros Heq; inversion Heq; subst.
  split; [apply be_value_nonneg; lia | lia].
Qed.

(** The loop returns when the fuel covers the bytes that are left, and
    where it stops: not before its start, and within the view when it has
    read the token. *)
Lemma scan_binaries_loop_total (fuel : nat) (view : list byte) (hasResolver : bool) :
  forall offset binaries binaryLen,
    byteLength view - offset <= Z.of_nat fuel ->
    exists r,
      scan_binaries_loop fuel view hasResolver offset binaries binaryLen = Some r /\
      forall s, r = Ok s ->
        offset <= scan_offset s /\
        (scan_binaryLen s = Some NEXT_BINARIES_PACKET_TOKEN ->
         binaryLen <> Some NEXT_BINARIES_PACKET_TOKEN ->
         offset + 4 <= scan_offset s <= byteLength view).
Proof.
  induction fuel as [|fuel IH]; intros offset binaries binaryLen Hfuel;
    unfold scan_binaries_loop; fold scan_binaries_loop.
  - destruct (Z.ltb_spec offset (byteLength view)); [lia|].
    eexists. split; [reflexivity|]. intros s Hs. inversion Hs; subst; simpl.
    split; [lia|]. intros H1 H2. contradiction.
  - destruct (Z.ltb_spec offset (byteLength view)).
    + destruct (getUint32 view offset) as [len|e] eqn:Hlen.
      * apply getUint32_nonneg in Hlen as (Hlen & Hoff & Hend).
        destruct (Z.eqb_spec len NEXT_BINARIES_PACKET_TOKEN) as [Htoken|Hnot].
        -- eexists. split; [reflexivity|]. intros s Hs. inversion Hs; subst; simpl.
           split; [lia|]. intros _ _. lia.
        -- destruct (IH (offset + 4 + len)
                        (if hasResolver
                         then binaries ++ [slice view (offset + 4) (offset + 4 + len)]
                         else binaries) (Some len)) as (r & Hr & Hprop); [lia|].
           exists r. split; [exact Hr|]. intros s Hs.
           destruct (Hprop s Hs) as [Hle Htok]. split; [lia|].
           intros H1 _.
           assert (Hne : Some len <> Some NEXT_BINARIES_PACKET_TOKEN) by congruence.
           specialize (Htok H1 Hne). lia.
      * eexists. split; [reflexivity|]. intros s Hs. discriminate Hs.
    + eexists. split; [reflexivity|]. intros s Hs. inversion Hs; subst; simpl.
      split; [lia|]. intros H1 H2. contradiction.
Qed.

(** More fuel does not change what the loop returns. *)
Lemma scan_binaries_loop_mono (fuel : nat) (view : list byte) (hasResolver : bool) :
  forall fuel' offset binaries binaryLen r,
    scan_binaries_loop fuel view hasResolver offset binaries binaryLen = Some r ->
    (fuel <= fuel')%nat ->
    scan_binaries_loop fuel' view hasResolver offset binaries binaryLen = Some r.
Proof.
  induction fuel as [|fuel IH]; intros fuel' offset binaries binaryLen r;
    unfold scan_binaries_loop; fold scan_binaries_loop; intros Hrun Hle.
  - destruct fuel'; unfold scan_binaries_loop; fold scan_binaries_loop;
      destruct (offset <? byteLength view); congruence.
  - destruct fuel' as [|fuel']; [lia|].
    unfold scan_binaries_loop; fold scan_binaries_loop.
    destruct (offset <? byteLength view); [|exact Hrun].
    destruct (getUint32 view offset) as [len|e]; [|exact Hrun].
    destruct (len =? NEXT_BINARIES_PACKET_TOKEN); [exact Hrun|].
    apply IH; [exact Hrun | lia].
Qed.

Lemma getFloat64_bounds (view : list byte) (offset : Z) (id : Float64) :
  getFloat64 view offset = Ok id -> 0 <= offset /\ offset + 8 <= byteLength view.
Proof.
  unfold getFloat64.
  destruct (Z.leb_spec 0 offset), (Z.leb_spec (offset + 8) (byteLength view));
    simpl; intros Heq; inversion Heq; lia.
Qed.

(** [_processBinaryContentPacket] returns when the fuel exceeds the bytes
    that are left. *)
Lemma processBinaryContentPacket_fuel {helpers : Helpers} (fuel : nat)
  (view : list byte) :
  forall offset t,
    1 + Z.max 0 (byteLength view - offset) <= Z.of_nat fuel ->
    is_Some (_processBinaryContentPacket fuel view offset t).
Proof.
  induction fuel as [|fuel IH]; intros offset t Hfuel; [lia|].
  unfold _processBinaryContentPacket; fold _processBinaryContentPacket.
  destruct (getFloat64 view offset) as [id|e] eqn:Hid; [|eexists; reflexivity].
  apply getFloat64_bounds in Hid as [Hoff Hend].
  match goal with |- context [scan_binaries_loop fuel view ?h ?o ?b ?l] =>
    destruct (scan_binaries_loop_total fuel view h o b l) as (r & -> & Hprop); [lia|]
  end.
  destruct r as [s|e]; [|eexists; reflexivity].
  destruct (Hprop s eq_refl) as [Hle Htok].
  match goal with |- context [let (_, _) := ?f in _] =>
    destruct f as [[[]|e] t']
  end; [|eexists; reflexivity].
  destruct (decide (scan_binaryLen s = Some NEXT_BINARIES_PACKET_TOKEN)) as [Ht|Ht];
    [|eexists; reflexivity].
  apply IH. assert (None <> Some NEXT_BINARIES_PACKET_TOKEN) as Hn by discriminate.
  specialize (Htok Ht Hn). lia.
Qed.

(** More fuel does not change what [_processBinaryContentPacket] returns. *)
Lemma processBinaryContentPacket_mono {helpers : Helpers} (fuel : nat)
  (view : list byte) :
  forall fuel' offset t r,
    _processBinaryContentPacket fuel view offset t = Some r ->
    (fuel <= fuel')%nat ->
    _processBinaryContentPacket fuel' view offset t = Some r.
Proof.
  induction fuel as [|fuel IH]; intros fuel' offset t r Hrun Hle; [discriminate Hrun|].
  destruct fuel' as [|fuel']; [lia|].
  revert Hrun.
  unfold _processBinaryContentPacket; fold _processBinaryContentPacket.
  destruct (getFloat64 view offset) as [id|e]; [|auto].
  match goal with |- context [scan_binaries_loop fuel view ?h ?o ?b ?l] =>
    destruct (scan_binaries_loop fuel view h o b l) as [r0|] eqn:Hscan
  end; [|discriminate].
  rewrite (scan_binaries_loop_mono _ _ _ fuel' _ _ _ _ Hscan) by lia.
  destruct r0 as [s|e]; [|auto].
  match goal with |- context [let (_, _) := ?f in _] =>
    destruct f as [[[]|e] t']
  end; [|auto].
  destruct (decide (scan_binaryLen s = Some NEXT_BINARIES_PACKET_TOKEN)); [|auto].
  intros Hrun. apply IH; [exact Hrun | lia].
Qed.

(** The packet that starts at [offset], as the source reads it: the
    identifier, the loop over the binaries, the resolver if there is one,
    and after a token the packet that starts behind it. *)
Lemma processBinaryContentPacket_unfold {helpers : Helpers} (view : list byte)
  (offset : Z) (t : Transport) (id : Float64) (s : Scan) :
  getFloat64 view offset = Ok id ->
  scan_binaries_loop (length view) view (found (find_resolver id t))
    (offset + 8) [] None = Some (Ok s) ->
  processBinaryContentPacket view offset t =
    match (match find_resolver id t with
           | Own r => fire_resolver (float_name id) r (scan_binaries s) t
           | Inherited => fire_inherited t
           | Absent => (Ok tt, t)
           end) with
    | (Throw e, t') => (Throw e, t')
    | (Ok _, t') =>
        if decide (scan_binaryLen s = Some NEXT_BINARIES_PACKET_TOKEN)
        then processBinaryContentPacket view (scan_offset s) t'
        else (Ok tt, t')
    end.
Proof.
  intros Hid Hscan.
  unfold processBinaryContentPacket at 1.
  unfold _processBinaryContentPacket; fold _processBinaryContentPacket.
  rewrite Hid, Hscan.
  destruct (match find_resolver id t with
            | Own r => fire_resolver (float_name id) r (scan_binaries s) t
            | Inherited => fire_inherited t
            | Absent => (Ok tt, t)
            end) as [[[]|e] t']; [|reflexivity].
  destruct (decide (scan_binaryLen s = Some NEXT_BINARIES_PACKET_TOKEN)) as [Ht|Ht];
    [|reflexivity].
  apply getFloat64_bounds in Hid as [Hoff Hend].
  match type of Hscan with scan_binaries_loop ?f ?v ?h ?o ?b ?l = _ =>
    destruct (scan_binaries_loop_total f v h o b l) as (r & Hr & Hprop);
      [unfold byteLength; lia|]
  end.
  rewrite Hscan in Hr. inversion Hr; subst r.
  destruct (Hprop s eq_refl) as [Hle Htok].
  assert (None <> Some NEXT_BINARIES_PACKET_TOKEN) as Hn by discriminate.
  specialize (Htok Ht Hn).
  destruct (processBinaryContentPacket_fuel (length view) view (scan_offset s) t')
    as [r Hrun]; [unfold byteLength in *; lia|].
  rewrite Hrun. unfold processBinaryContentPacket.
  rewrite (processBinaryContentPacket_mono _ _ (S (length view)) _ _ _ Hrun) by lia.
  reflexivity.
Qed.

(** The fuel of [processBinaryContentPacket] never runs out. *)
Lemma processBinaryContentPacket_total {helpers : Helpers} (view : list byte)
  (offset : Z) (t : Transport) :
  0 <= offset ->
  exists r, _processBinaryContentPacket (S (length view)) view offset t = Some r /\
            processBinaryContentPacket view offset t = r.
Proof.
  intros Hoff.
  destruct (processBinaryContentPacket_fuel (S (length view)) view offset t) as [r Hr].
  { unfold byteLength. lia. }
  exists r. split; [exact Hr|]. unfold processBinaryContentPacket. rewrite Hr. reflexivity.
Qed.

(** * What the callbacks leave of the transport *)

Section Frames.
Context (R : Transport -> Transport -> Prop) `{!Respected R}.
Local Abbreviation frames := (frames R).

Lemma frames_ret {S A} (on : S -> Transport) (a : A) : frames on (mret a).
Proof. intros s. apply respected_refl. Qed.

Lemma frames_throw {S A} (on : S -> Transport) (e : Error) :
  frames on (throw (A := A) e).
Proof. intros s. apply respected_refl. Qed.

Lemma frames_gets {S A} (on : S -> Transport) (f : S -> A) : frames on (gets f).
Proof. intros s. apply respected_refl. Qed.

Lemma frames_lift_result {S A} (on : S -> Transport) (r : result A) :
  frames on (lift_result r).
Proof. intros s. apply respected_refl. Qed.

Lemma frames_modify {S} (on : S -> Transport) (f : S -> S) :
  (forall s, R (on s) (on (f s))) -> frames on (modify f).
Proof. intros H s. apply H. Qed.

Lemma frames_bind {S A B} (on : S -> Transport) (m : StateM S A)
  (k : A -> StateM S B) :
  frames on m -> (forall a, frames on (k a)) -> frames on (m ≫= k).
Proof.
  intros Hm Hk s. unfold mbind, StateM_bind.
  specialize (Hm s). destruct (m s) as [[a|e] s1]; simpl in *; [|exact Hm].
  eapply respected_trans; [exact Hm | apply Hk].
Qed.

Lemma frames_try_catch {S A} (on : S -> Transport) (m : StateM S A)
  (h : Error -> StateM S A) :
  frames on m -> (forall e, frames on (h e)) -> frames on (try_catch m h).
Proof.
  intros Hm Hh s. unfold try_catch.
  specialize (Hm s). destruct (m s) as [[a|e] s1]; simpl in *; [exact Hm|].
  eapply respected_trans; [exact Hm | apply Hh].
Qed.

Lemma frames_on_transport {A} (m : M A) :
  frames (fun t => t) m -> frames w_transport (on_transport m).
Proof.
  intros Hm w. unfold on_transport. specialize (Hm (w_transport w)).
  destruct (m (w_transport w)) as [r t']. exact Hm.
Qed.

Lemma frames_in_scope {A} (m : M A) :
  frames (fun t => t) m -> frames scope_transport (in_scope m).
Proof.
  intros Hm s. unfold in_scope. specialize (Hm (scope_transport s)).
  destruct (m (scope_transport s)) as [r t']. exact Hm.
Qed.

Lemma frames_called (c : Call) :
  is_delivery c = false -> frames (fun t => t) (called c).
Proof. intros Hc t. apply respected_called. exact Hc. Qed.

Lemma frames_hook (c : Call) (o : option Error) :
  is_delivery c = false -> frames (fun t => t) (hook c o).
Proof.
  intros Hc. unfold hook. apply frames_bind; [apply frames_called; exact Hc|].
  intros _. destruct o; [apply frames_throw | apply frames_ret].
Qed.

Lemma frames_getNewStreamId (b : bool) : frames (fun t => t) (_getNewStreamId b).
Proof.
  intros t. unfold _getNewStreamId. destruct b.
  - destruct (_binaryStreamId t <? MIN_SAFE_INTEGER);
      [eapply respected_trans|]; apply respected_binaryStreamId.
  - destruct (MAX_SAFE_INTEGER <? _objectStreamId t);
      [eapply respected_trans|]; apply respected_objectStreamId.
Qed.

Lemma frames_getNewBinaryContentPacketId :
  frames (fun t => t) _getNewBinaryContentPacketId.
Proof.
  intros t. unfold _getNewBinaryContentPacketId.
  destruct (MAX_SAFE_INTEGER <? _binaryContentPacketId t);
    [eapply respected_trans|]; apply respected_packetId.
Qed.

Lemma frames_for_in {K V} (f : K -> V -> M unit) (l : list (K * V)) :
  (forall k v, frames (fun t => t) (f k v)) -> frames (fun t => t) (for_in f l).
Proof.
  intros Hf. induction l as [|e l IH]; simpl; [apply frames_ret|].
  apply frames_bind; [apply Hf | intros _; exact IH].
Qed.

End Frames.

(** Steps of a proof that a computation respects a relation. *)
Ltac frames_step :=
  lazymatch goal with
  | |- frames ?R _ (@mret _ _ _ _) => apply (frames_ret R)
  | |- frames ?R _ (throw _) => apply (frames_throw R)
  | |- frames ?R _ (gets _) => apply (frames_gets R)
  | |- frames ?R _ (lift_result _) => apply (frames_lift_result R)
  | |- frames ?R _ (called _) => apply (frames_called R); reflexivity
  | |- frames ?R _ (send _) => unfold send
  | |- frames ?R _ (hook _ _) => apply (frames_hook R); reflexivity
  | |- frames ?R _ (_getNewStreamId _) => apply (frames_getNewStreamId R)
  | |- frames ?R _ _getNewBinaryContentPacketId =>
      apply (frames_getNewBinaryContentPacketId R)
  | |- frames ?R _ (on_transport _) => apply (frames_on_transport R)
  | |- frames ?R _ (in_scope _) => apply (frames_in_scope R)
  | |- frames ?R _ (@mbind _ _ _ _ _ _) => apply (frames_bind R); [|intros ?]
  | |- frames ?R _ (try_catch _ _) => apply (frames_try_catch R); [|intros ?]
  | |- frames ?R _ (for_in _ _) => apply (frames_for_in R); intros ? ?
  | |- frames _ _ (match ?x with _ => _ end) => destruct x
  end.

Ltac frames_cases := repeat frames_step.

Section FramesOfTheClass.
Context (R : Transport -> Transport -> Prop) `{!Respected R} {helpers : Helpers}.

Lemma frames_emitBadConnection (type : BadConnectionType) (msg : option string) :
  frames R (fun t => t) (emitBadConnection type msg).
Proof.
  unfold emitBadConnection, _rejectBinaryContentResolver, _rejectInvokeRespPromises,
    _emitBadConnectionToStreams, fail_binaries_callback, fail_callback,
    call_onInvalidMessage.
  frames_cases; apply (frames_modify R); intros t;
    first [ apply respected_open | apply respected_stamp | apply respected_promises
          | apply respected_readStreams | apply respected_writeStreams
          | apply respected_no_resolvers ].
Qed.

Lemma frames_onListenerError (e : Error) : frames R (fun t => t) (_onListenerError e).
Proof. unfold _onListenerError. frames_cases. Qed.

Lemma frames_each_item (f : value -> StateM Walk value) (l : list value) :
  Forall (fun v => frames R w_transport (f v)) l ->
  frames R w_transport (each_item f l).
Proof.
  induction 1 as [|v l Hv Hl IH]; simpl; [frames_step|].
  frames_step; [exact Hv|]. frames_step; [exact IH|]. frames_step.
Qed.

Lemma frames_each_prop (rename : string -> string) (f : value -> StateM Walk value)
  (l : list (string * value)) :
  Forall (fun p => frames R w_transport (f (snd p))) l ->
  forall clone, frames R w_transport (each_prop rename f l clone).
Proof.
  induction 1 as [|p l Hp Hl IH]; intros clone; simpl; [frames_step|].
  frames_step; [exact Hp | apply IH].
Qed.

Lemma frames_processMixedJSONDeepWalk (data : value) :
  frames R w_transport (_processMixedJSONDeepWalk data).
Proof.
  induction data using value_deep_ind; simpl; frames_cases;
    try (apply frames_each_item; assumption);
    try (apply frames_each_prop; assumption);
    intros ?; apply respected_refl.
Qed.

Lemma frames_processMixedJSONDeep (data : value) :
  frames R (fun t => t) (_processMixedJSONDeep data).
Proof.
  intros t. unfold _processMixedJSONDeep.
  pose proof (frames_processMixedJSONDeepWalk data
                {| w_transport := t; w_binaries := []; w_streams := [] |}) as H.
  destruct (_processMixedJSONDeepWalk data _) as [r w]. exact H.
Qed.

Lemma frames_onTransmitted_all (streams : list (WriteStream * Z)) :
  frames R (fun t => t) (onTransmitted_all streams).
Proof. induction streams as [|s r IH]; simpl; frames_cases. exact IH. Qed.

Lemma frames_mixed_package (data : value) (single : bool)
  (mkHead : DataType -> list Field) :
  frames R (fun t => t) (mixed_package data single mkHead).
Proof.
  unfold mixed_package.
  frames_step; [apply frames_processMixedJSONDeep|].
  destruct a as [[data' binaries] streams]. frames_cases.
Qed.

Lemma frames_sendInvokeDataResp (callId : Z) (data : value) (pct : bool) :
  frames R (fun t => t) (_sendInvokeDataResp callId data pct).
Proof.
  unfold _sendInvokeDataResp, send, _silentDirectSendPackage, send.
  destruct pct; simpl; [|frames_cases].
  frames_step; [frames_step|].
  destruct data, a; frames_cases;
    try apply frames_mixed_package; try apply frames_onTransmitted_all.
Qed.

Lemma frames_listener_steps (callId stamp : Z) (steps : list ListenerStep) :
  frames R scope_transport (listener_steps callId stamp steps).
Proof.
  induction steps as [|s r IH]; simpl; [frames_step|].
  frames_step; [|exact IH].
  assert (Huse : forall u, frames R scope_transport (use_callback callId stamp u)).
  { intros u. unfold use_callback, set_called.
    frames_cases; try apply frames_sendInvokeDataResp.
    apply (frames_modify R). intros s0. apply respected_refl. }
  destruct s as [[] u| |]; simpl; frames_cases; try apply Huse.
  apply frames_emitBadConnection.
Qed.

Lemma frames_processInvoke (procedure : string) (callId : Z) (data : value)
  (type : TypeSlot) :
  frames R (fun t => t) (_processInvoke procedure callId data type).
Proof.
  intros t. unfold _processInvoke.
  match goal with |- context [try_catch ?b ?h ?s] =>
    assert (H : frames R scope_transport (try_catch b h))
  end.
  { frames_cases; [apply frames_listener_steps | apply frames_onListenerError]. }
  specialize (H {| scope_transport := t; scope_called := false |}).
  match type of H with context [try_catch ?b ?h ?s] =>
    destruct (try_catch b h s) as [r s'] end.
  exact H.
Qed.

Lemma frames_run_callback (k : DataCallback) (data : value) :
  frames R (fun t => t) (run_callback k data).
Proof.
  destruct k; simpl; unfold _processTransmit; frames_cases;
    first [apply frames_onListenerError | apply frames_processInvoke].
Qed.

Lemma frames_run_binaries_callback (k : BinariesCallback)
  (binaries : list (list byte)) :
  frames R (fun t => t) (run_binaries_callback k binaries).
Proof.
  destruct k; simpl; frames_cases; apply frames_run_callback.
Qed.

End FramesOfTheClass.

#[global] Instance continues_respected : Respected continues.
Proof.
  split; unfold continues.
  - intros t. split; [exists []; symmetry; apply app_nil_r | auto].
  - intros t1 t2 t3 ([r1 H1] & Hk1 & Ho1 & Hc1) ([r2 H2] & Hk2 & Ho2 & Hc2).
    split; [exists (r1 ++ r2); rewrite H2, H1, app_assoc; reflexivity|].
    split; [auto | split; congruence].
  - intros c t _. destruct t; simpl. split; [eexists; reflexivity | auto].
  - intros x t. destruct t; simpl. split; [exists []; symmetry; apply app_nil_r | auto].
  - intros x t. destruct t; simpl. split; [exists []; symmetry; apply app_nil_r | auto].
  - intros x t. destruct t; simpl. split; [exists []; symmetry; apply app_nil_r | auto].
  - intros x t. destruct t; simpl. split; [exists []; symmetry; apply app_nil_r | auto].
  - intros x t. destruct t; simpl. split; [exists []; symmetry; apply app_nil_r | auto].
  - intros x t. destruct t; simpl. split; [exists []; symmetry; apply app_nil_r | auto].
  - intros x t. destruct t; simpl. split; [exists []; symmetry; apply app_nil_r | auto].
  - intros x t. destruct t; simpl. split; [exists []; symmetry; apply app_nil_r | auto].
  - intros t. destruct t; simpl. split; [exists []; symmetry; apply app_nil_r |].
    split; [intros k _; apply lookup_empty | auto].
Qed.

(** A call that is no delivery is no delivery to [key]. *)
Lemma no_delivery_to (key : string) (c : Call) (bs : list (list byte)) :
  is_delivery c = false -> Called_resolverCallback key None bs <> c.
Proof. intros Hc Heq. subst c. discriminate Hc. Qed.

#[global] Instance skips_respected (key : string) : Respected (skips key).
Proof.
  assert (Hsame : forall t t', continues t t' -> calls t' = calls t -> skips key t t').
  { intros t t' Hc Hcalls. split; [exact Hc|]. exists []. rewrite app_nil_r.
    split; [exact Hcalls|]. intros bs Hin. inversion Hin. }
  split.
  - intros t. apply Hsame; [apply respected_refl | reflexivity].
  - intros t1 t2 t3 [Hc1 (m1 & H1 & Hn1)] [Hc2 (m2 & H2 & Hn2)].
    split; [eapply respected_trans; eassumption|].
    exists (m1 ++ m2). rewrite H2, H1, app_assoc. split; [reflexivity|].
    intros bs Hin. apply elem_of_app in Hin as [Hin|Hin]; [eapply Hn1 | eapply Hn2]; eassumption.
  - intros c t Hc. split; [apply respected_called; exact Hc|].
    exists [c]. split; [rewrite called_records; apply calls_record_calls|].
    intros bs Hin. apply list_elem_of_singleton in Hin.
    exact (no_delivery_to key c bs Hc Hin).
  - intros x t. apply Hsame; [apply respected_stamp | destruct t; reflexivity].
  - intros x t. apply Hsame; [apply respected_packetId | destruct t; reflexivity].
  - intros x t. apply Hsame; [apply respected_objectStreamId | destruct t; reflexivity].
  - intros x t. apply Hsame; [apply respected_binaryStreamId | destruct t; reflexivity].
  - intros x t. apply Hsame; [apply respected_readStreams | destruct t; reflexivity].
  - intros x t. apply Hsame; [apply respected_writeStreams | destruct t; reflexivity].
  - intros x t. apply Hsame; [apply respected_promises | destruct t; reflexivity].
  - intros x t. apply Hsame; [apply respected_open | destruct t; reflexivity].
  - intros t. apply Hsame; [apply respected_no_resolvers | destruct t; reflexivity].
Qed.

(** The statements under [if (resolver)] in one piece: the resolver is
    taken out, its timer cleared, and its callback called with the
    binaries. *)
Lemma fire_resolver_run {helpers : Helpers} (id : string) (r : BinaryContentResolver)
  (binaries : list (list byte)) (t : Transport) :
  fire_resolver id r binaries t =
    run_binaries_callback (callback r) binaries
      (record_calls [Called_clearTimeout (Some (resolver_timeout r));
                     Called_resolverCallback id None binaries]
         (set_binaryContentResolver (delete id (_binaryContentResolver t)) t)).
Proof.
  unfold fire_resolver. rewrite bind_modify, !bind_called, record_calls_app. reflexivity.
Qed.

(** What the callback of a resolver does makes no delivery and adds no
    resolver. *)
Lemma run_binaries_callback_skips {helpers : Helpers} (key : string)
  (k : BinariesCallback) (binaries : list (list byte)) (t : Transport) :
  skips key t (snd (run_binaries_callback k binaries t)).
Proof. exact (frames_run_binaries_callback (skips key) k binaries t). Qed.

(** A resolver registered under another name is fired without a delivery to
    [key]. *)
Lemma fire_resolver_skips {helpers : Helpers} (key id : string)
  (r : BinaryContentResolver) (binaries : list (list byte)) (t : Transport) :
  id <> key ->
  skips key t (snd (fire_resolver id r binaries t)).
Proof.
  intros Hne. rewrite fire_resolver_run.
  eapply respected_trans; [|apply run_binaries_callback_skips].
  split.
  - split; [|split; [|split]]; try (destruct t; reflexivity).
    + eexists. destruct t; reflexivity.
    + intros k Hk. destruct t; simpl in *.
      destruct (decide (id = k)) as [->|Hki];
        [apply lookup_delete_eq | rewrite lookup_delete_ne by exact Hki; exact Hk].
  - eexists. split; [rewrite calls_record_calls; destruct t; reflexivity|].
    intros bs Hin.
    apply elem_of_cons in Hin as [Heq|Hin]; [discriminate Heq|].
    apply list_elem_of_singleton in Hin. inversion Hin; subst. contradiction.
Qed.

(** The callback of a resolver leaves a transport that continues the one it
    was called on. *)
Lemma fire_resolver_continues {helpers : Helpers} (id : string)
  (r : BinaryContentResolver) (binaries : list (list byte)) (t : Transport) :
  let fired := snd (fire_resolver id r binaries t) in
  (exists more,
     calls fired = calls t ++
       [Called_clearTimeout (Some (resolver_timeout r));
        Called_resolverCallback id None binaries] ++ more) /\
  _binaryContentResolver fired !! id = None.
Proof.
  cbv zeta. rewrite fire_resolver_run.
  destruct (run_binaries_callback_skips id (callback r) binaries
              (record_calls [Called_clearTimeout (Some (resolver_timeout r));
                             Called_resolverCallback id None binaries]
                 (set_binaryContentResolver (delete id (_binaryContentResolver t)) t)))
    as [(_ & Hk & _) (more & Hmore & _)].
  split.
  - exists more. rewrite Hmore, calls_record_calls, <- app_assoc.
    destruct t; reflexivity.
  - apply Hk. destruct t; simpl. apply lookup_delete_eq.
Qed.

(** While [key] has no resolver, the packets of a frame make no delivery to
    it. *)
Lemma processBinaryContentPacket_skips {helpers : Helpers} (key : string) (fuel : nat)
  (view : list byte) :
  forall offset t r t',
    _binaryContentResolver t !! key = None ->
    _processBinaryContentPacket fuel view offset t = Some (r, t') ->
    skips key t t'.
Proof.
  induction fuel as [|fuel IH]; intros offset t r t' Hnone Hrun; [discriminate Hrun|].
  revert Hrun. unfold _processBinaryContentPacket; fold _processBinaryContentPacket.
  destruct (getFloat64 view offset) as [id|e];
    [|intros Hrun; inversion Hrun; subst; apply respected_refl].
  destruct (scan_binaries_loop fuel view (found (find_resolver id t)) (offset + 8) [] None)
    as [[s|e]|]; [| intros Hrun; inversion Hrun; subst; apply respected_refl | discriminate].
  assert (Hfired : skips key t
            (snd (match find_resolver id t with
                  | Own r0 => fire_resolver (float_name id) r0 (scan_binaries s) t
                  | Inherited => fire_inherited t
                  | Absent => (Ok tt, t)
                  end))).
  { unfold find_resolver, registry_get.
    destruct (_binaryContentResolver t !! float_name id) as [r0|] eqn:Hr0.
    - apply fire_resolver_skips. intros Heq. rewrite Heq, Hnone in Hr0. discriminate Hr0.
    - destruct (prototype_member (float_name id)); [|apply respected_refl].
      unfold fire_inherited. rewrite bind_called. cbn [throw snd].
      exact (respected_called (Called_clearTimeout None) t eq_refl). }
  destruct (match find_resolver id t with
            | Own r0 => fire_resolver (float_name id) r0 (scan_binaries s) t
            | Inherited => fire_inherited t
            | Absent => (Ok tt, t)
            end) as [[[]|e] t1]; cbn [snd] in Hfired;
    [|intros Hrun; inversion Hrun; subst; exact Hfired].
  destruct (decide (scan_binaryLen s = Some NEXT_BINARIES_PACKET_TOKEN));
    [|intros Hrun; inversion Hrun; subst; exact Hfired].
  intros Hrun. eapply respected_trans; [exact Hfired|].
  eapply IH; [|exact Hrun].
  destruct Hfired as [(_ & Hk & _) _]. apply Hk. exact Hnone.
Qed.

Lemma processBinaryContentPacket_skips_all {helpers : Helpers} (key : string)
  (view : list byte) (offset : Z) (t : Transport) :
  _binaryContentResolver t !! key = None ->
  skips key t (snd (processBinaryContentPacket view offset t)).
Proof.
  intros Hnone. unfold processBinaryContentPacket.
  destruct (_processBinaryContentPacket (S (length view)) view offset t)
    as [[r t']|] eqn:Hrun; [|apply respected_refl].
  exact (processBinaryContentPacket_skips key _ view offset t r t' Hnone Hrun).
Qed.

(** Two binary content frames for the identifier 1 while a transmit waits
    for it: the first ends with the token, the second holds one more
    binary. The resolver is called with the binary of the first frame only;
    the call that follows the token reads past the end of the first frame
    and throws, and the binary of the second frame reaches nobody. *)
Lemma continuation_frame_is_not_delivered :
  let t1 := snd (emitMessage (helpers := spec_helpers) (RawBinary first_frame)
                   awaiting_binary_one) in
  let t2 := snd (emitMessage (helpers := spec_helpers) (RawBinary next_frame) t1) in
  _binaryContentResolver awaiting_binary_one !! "1"%string =
    Some {| callback := FirstBinary (TransmitCallback "r" (KnownType Binary));
            resolver_timeout := {| delay := 10000 |} |} /\
  calls t1 =
    [Called_clearTimeout (Some {| delay := 10000 |});
     Called_resolverCallback "1" None [[xaa]];
     Called_onTransmit "r" (VArrayBuffer [xaa]) (KnownType Binary);
     Called_onInvalidMessage RangeError] /\
  calls t2 = calls t1.
Proof. vm_compute. auto. Qed.

(** The same two packets chained in one frame: the packet behind the token
    is read with an identifier of its own, finds the resolver of 1 removed,
    and its binary is skipped. *)
Lemma chained_packet_is_not_delivered :
  calls (snd (emitMessage (helpers := spec_helpers) (RawBinary chained_frame)
                awaiting_binary_one)) =
    [Called_clearTimeout (Some {| delay := 10000 |});
     Called_resolverCallback "1" None [[xaa]];
     Called_onTransmit "r" (VArrayBuffer [xaa]) (KnownType Binary)].
Proof. vm_compute. reflexivity. Qed.

(** The registry of resolvers is indexed by property names: while the
    resolver of the binary content 1 waits, a transmit of type Binary whose
    data is the string [1] names the same property. Its callback is called
    with the error of the type check, and then [_resolveBinaryContent]
    finds the resolver of the number 1 and throws. A transmit whose data is
    the string [constructor] finds the member of [Object.prototype] and is
    refused in the same way, on a transport without any resolver. *)
Example string_identifier_names_the_same_resolver :
  calls (snd (emitMessage (helpers := spec_helpers)
                (RawText (Ok (SinglePacket
                   (TransmitPacket (VString "r") (KnownType Binary) (VString "1")
                      VUndefined))))
                awaiting_binary_one))
    = [Called_onInvalidMessage (JsError "Invalid binary packet id.");
       Called_onInvalidMessage (JsError "Binaries resolver already exists.")] /\
  calls (snd (emitMessage (helpers := spec_helpers)
                (RawText (Ok (SinglePacket
                   (TransmitPacket (VString "r") (KnownType Binary) (VString "constructor")
                      VUndefined))))
                (new_Transport quiet_connector DEFAULT_OPTIONS true)))
    = [Called_onInvalidMessage (JsError "Invalid binary packet id.");
       Called_onInvalidMessage (JsError "Binaries resolver already exists.")].
Proof. split; vm_compute; reflexivity. Qed.

(** C5, amended. A binary content packet that starts at [offset] with the
    identifier of a registered resolver, and whose length fields are all
    complete: the loop collects the binaries up to the end of the frame or
    to the token; the resolver is removed, its timer cleared and its
    callback called with the binaries collected so far. After a token the
    transport goes on in the same frame, behind the token, with a packet
    that has an identifier of its own. Over the whole frame the callback of
    the resolver is called exactly once: the two calls are followed by
    calls among which there is no delivery to the resolver, so whatever
    stands behind the token is not delivered to it, and the resolver stays
    removed. A frame that is processed afterwards makes no delivery to it
    either. *)
Theorem binary_content_packet_fires_resolver_once {helpers : Helpers}
  (view : list byte) (offset : Z) (id : Float64) (t : Transport)
  (r : BinaryContentResolver) (s : Scan) :
  getFloat64 view offset = Ok id ->
  _binaryContentResolver t !! float_name id = Some r ->
  scan_binaries_loop (length view) view true (offset + 8) [] None = Some (Ok s) ->
  let key := float_name id in
  let delivery :=
    [Called_clearTimeout (Some (resolver_timeout r));
     Called_resolverCallback key None (scan_binaries s)] in
  let called_back :=
    run_binaries_callback (callback r) (scan_binaries s)
      (record_calls delivery
         (set_binaryContentResolver (delete key (_binaryContentResolver t)) t)) in
  processBinaryContentPacket view offset t =
    match called_back with
    | (Throw e, t') => (Throw e, t')
    | (Ok _, t') =>
        if decide (scan_binaryLen s = Some NEXT_BINARIES_PACKET_TOKEN)
        then processBinaryContentPacket view (scan_offset s) t'
        else (Ok tt, t')
    end /\
  let done := snd (processBinaryContentPacket view offset t) in
  (exists rest,
     calls done = calls t ++ delivery ++ rest /\
     forall binaries, Called_resolverCallback key None binaries ∉ rest) /\
  _binaryContentResolver done !! key = None /\
  (forall later from,
     let after := snd (processBinaryContentPacket later from done) in
     (exists more,
        calls after = calls done ++ more /\
        forall binaries, Called_resolverCallback key None binaries ∉ more) /\
     _binaryContentResolver after !! key = None).
Proof.
  intros Hid Hresolver Hscan key delivery called_back.
  assert (Hfind : find_resolver id t = Own r).
  { unfold find_resolver, registry_get. rewrite Hresolver. reflexivity. }
  assert (Hrun : processBinaryContentPacket view offset t =
    match called_back with
    | (Throw e, t') => (Throw e, t')
    | (Ok _, t') =>
        if decide (scan_binaryLen s = Some NEXT_BINARIES_PACKET_TOKEN)
        then processBinaryContentPacket view (scan_offset s) t'
        else (Ok tt, t')
    end).
  { rewrite (processBinaryContentPacket_unfold view offset t id s Hid);
      rewrite Hfind; [|exact Hscan].
    rewrite fire_resolver_run. reflexivity. }
  split; [exact Hrun|]. cbv zeta.
  set (t0 := set_binaryContentResolver (delete key (_binaryContentResolver t)) t).
  set (t1 := record_calls delivery t0).
  assert (Hnone1 : _binaryContentResolver t1 !! key = None).
  { subst t1 t0. destruct t; simpl. apply lookup_delete_eq. }
  assert (Hcalls1 : calls t1 = calls t ++ delivery).
  { subst t1 t0. rewrite calls_record_calls. destruct t; reflexivity. }
  assert (Hdone : skips key t1 (snd (processBinaryContentPacket view offset t))).
  { rewrite Hrun.
    pose proof (run_binaries_callback_skips key (callback r) (scan_binaries s) t1) as Hcb.
    fold t0 t1 in called_back. fold called_back in Hcb.
    destruct called_back as [[[]|e] t'] eqn:Hcalled; cbn [snd] in Hcb; [|exact Hcb].
    destruct (decide (scan_binaryLen s = Some NEXT_BINARIES_PACKET_TOKEN));
      [|exact Hcb].
    eapply respected_trans; [exact Hcb|].
    apply processBinaryContentPacket_skips_all.
    destruct Hcb as [(_ & Hk & _) _]. apply Hk. exact Hnone1. }
  assert (Hgone : _binaryContentResolver (snd (processBinaryContentPacket view offset t))
                    !! key = None).
  { destruct Hdone as [(_ & Hk & _) _]. apply Hk. exact Hnone1. }
  split; [|split; [exact Hgone|]].
  - destruct Hdone as [_ (more & Hmore & Hno)].
    exists more. rewrite Hmore, Hcalls1, <- app_assoc. split; [reflexivity | exact Hno].
  - intros later from.
    destruct (processBinaryContentPacket_skips_all key later from _ Hgone)
      as [(_ & Hk & _) Hmore].
    split; [exact Hmore | apply Hk; exact Hgone].
Qed.

Lemma binary_content_packet_witness :
  let t := awaiting_binary_one in
  let done := snd (processBinaryContentPacket (helpers := spec_helpers) chained_frame 1 t) in
  (exists rest,
     calls done = calls t ++
       [Called_clearTimeout (Some {| delay := 10000 |});
        Called_resolverCallback "1" None [[xaa]]] ++ rest /\
     forall binaries, Called_resolverCallback "1" None binaries ∉ rest) /\
  _binaryContentResolver done !! "1"%string = None.
Proof.
  pose proof (binary_content_packet_fires_resolver_once (helpers := spec_helpers)
                chained_frame 1 (Integral 1) awaiting_binary_one
                {| callback := FirstBinary (TransmitCallback "r" (KnownType Binary));
                   resolver_timeout := {| delay := 10000 |} |}
                {| scan_offset := 18; scan_binaries := [[xaa]];
                   scan_binaryLen := Some NEXT_BINARIES_PACKET_TOKEN |}
                eq_refl eq_refl eq_refl) as H.
  exact (conj (proj1 (proj2 H)) (proj1 (proj2 (proj2 H)))).
Defined.

(** A packet whose identifier names no resolver calls nothing: its binaries
    are skipped, and after a token the next packet of the frame is read. *)
Lemma binary_content_packet_without_resolver {helpers : Helpers}
  (view : list byte) (offset : Z) (t : Transport) (id : Float64) (s : Scan) :
  getFloat64 view offset = Ok id ->
  find_resolver id t = Absent ->
  scan_binaries_loop (length view) view false (offset + 8) [] None = Some (Ok s) ->
  processBinaryContentPacket view offset t =
    if decide (scan_binaryLen s = Some NEXT_BINARIES_PACKET_TOKEN)
    then processBinaryContentPacket view (scan_offset s) t
    else (Ok tt, t).
Proof.
  intros Hid Hfind Hscan.
  rewrite (processBinaryContentPacket_unfold view offset t id s Hid).
  - rewrite Hfind. reflexivity.
  - rewrite Hfind. exact Hscan.
Qed.

(** * Bad connections *)







(** * The callbacks of an invoke *)

Lemma bind_in_scope_gets {A B} (f : Transport -> A) (k : A -> StateM InvokeScope B)
  (s : InvokeScope) :
  (in_scope (gets f) ≫= k) s = k (f (scope_transport s)) s.
Proof. destruct s. reflexivity. Qed.

(** One call of [end] or [reject], by the state of the closures. *)
Lemma use_callback_cases {helpers : Helpers} (callId stamp : Z) (u : CallbackUse)
  (s : InvokeScope) :
  use_callback callId stamp u s =
    if scope_called s then (Throw (InvalidActionError callId), s)
    else if stamp =? badConnectionStamp (scope_transport s)
         then in_scope (send_response callId u)
                {| scope_transport := scope_transport s; scope_called := true |}
         else (Ok tt, {| scope_transport := scope_transport s; scope_called := true |}).
Proof.
  unfold use_callback. rewrite bind_gets.
  destruct (scope_called s); [reflexivity|].
  unfold set_called. rewrite bind_modify, bind_in_scope_gets. simpl.
  destruct (stamp =? badConnectionStamp (scope_transport s)); simpl;
    [destruct u|]; reflexivity.
Qed.

(** [in_scope] keeps the variable [called]. *)
Lemma in_scope_called {A} (m : M A) (s : InvokeScope) :
  scope_called (snd (in_scope m s)) = scope_called s.
Proof. unfold in_scope. destruct (m (scope_transport s)). reflexivity. Qed.

Lemma in_scope_run {A} (m : M A) (s : InvokeScope) :
  in_scope m s =
    (fst (m (scope_transport s)),
     {| scope_transport := snd (m (scope_transport s)); scope_called := scope_called s |}).
Proof. unfold in_scope. destruct (m (scope_transport s)). reflexivity. Qed.

(** An invoke whose listener returns without a response, and code of the
    user that calls [end] twice later on: the second call throws
    [InvalidActionError] to that code and the transport is left as it was;
    [onListenerError] is never called. *)
Lemma late_second_call_is_not_reported :
  let t0 := new_Transport quiet_connector DEFAULT_OPTIONS true in
  let delivered := _processInvoke (helpers := spec_helpers) "p" 3 VNull (KnownType JSON) t0 in
  let first := later_step (helpers := spec_helpers) 3 (MIN_SAFE_INTEGER, false)
                 (Use false (UseEnd (VNumber 1) false)) (snd delivered) in
  let second := later_step (helpers := spec_helpers) 3 (snd (fst first))
                  (Use false (UseEnd (VNumber 2) false)) (snd first) in
  fst delivered = Ok (MIN_SAFE_INTEGER, false) /\
  fst (fst first) = Ok tt /\
  fst (fst second) = Throw (InvalidActionError 3) /\
  snd second = snd first /\
  calls (snd second) =
    [Called_onInvoke "p" 3 VNull (KnownType JSON);
     Called_send (TextMessage [FPacketType InvokeDataResp; FNumber 3; FDataType JSON;
                               FJson (VNumber 1)])].
Proof. vm_compute. auto 10. Qed.

(** [_processInvoke] by the outcome of the listener: what it throws goes to
    [_onListenerError]. *)
Lemma processInvoke_cases {helpers : Helpers} (procedure : string) (callId : Z)
  (data : value) (type : TypeSlot) (t : Transport) :
  let stamp := badConnectionStamp t in
  let s0 := {| scope_transport := snd (called (Called_onInvoke procedure callId data type) t);
               scope_called := false |} in
  let run := listener_steps callId stamp (onInvoke (connector t) procedure data type) s0 in
  _processInvoke procedure callId data type t =
    match fst run with
    | Ok _ => (Ok (stamp, scope_called (snd run)), scope_transport (snd run))
    | Throw e =>
        (Ok (stamp, scope_called (snd run)),
         snd (_onListenerError e (scope_transport (snd run))))
    end.
Proof.
  intros stamp s0 run. unfold _processInvoke, try_catch.
  rewrite (bind_ok _ _ _ s0 tt) by reflexivity.
  fold stamp. fold run. destruct run as [[[]|e] s1]; simpl; [reflexivity|].
  rewrite in_scope_run. reflexivity.
Qed.

(** A listener that calls [end] twice itself: the second call ends it with
    [InvalidActionError], which [_processInvoke] gives to
    [onListenerError]. *)
Lemma second_call_in_listener_is_reported :
  let c := {| onInvalidMessage := fun _ => None;
              onListenerError := fun _ => None;
              onTransmit := fun _ _ _ => None;
              onInvoke := fun _ _ _ => [Use false (UseEnd (VNumber 1) false);
                                         Use false (UseReject VNull)];
              onPing := None; onPong := None;
              connector_send := fun _ => None |} in
  calls (snd (_processInvoke (helpers := spec_helpers) "p" 3 VNull (KnownType JSON)
                (new_Transport c DEFAULT_OPTIONS true))) =
    [Called_onInvoke "p" 3 VNull (KnownType JSON);
     Called_send (TextMessage [FPacketType InvokeDataResp; FNumber 3; FDataType JSON;
                               FJson (VNumber 1)]);
     Called_onListenerError (InvalidActionError 3)].
Proof. vm_compute. reflexivity. Qed.

(** C7, amended. The closures [end] and [reject] of an invoke share one
    variable [called]. A call of either sets it. When it was set before, the
    call throws [InvalidActionError] to its caller and leaves the transport
    as it is; when the caller is the listener itself, outside any [try] of
    its own, the listener ends with that error (and [_processInvoke] hands
    it to [onListenerError]). When the variable was not set and the stamp
    has changed since the invoke was delivered, the call returns and leaves
    the transport as it is; when the stamp is the same, the call sends the
    response. *)
Theorem invoke_callbacks_single_shot {helpers : Helpers} (callId stamp : Z)
  (u : CallbackUse) (s : InvokeScope) :
  let after := use_callback callId stamp u s in
  scope_called (snd after) = true /\
  (scope_called s = true ->
     after = (Throw (InvalidActionError callId), s) /\
     forall rest,
       listener_steps callId stamp (Use false u :: rest) s =
         (Throw (InvalidActionError callId), s)) /\
  (scope_called s = false -> stamp <> badConnectionStamp (scope_transport s) ->
     fst after = Ok tt /\ scope_transport (snd after) = scope_transport s) /\
  (scope_called s = false -> stamp = badConnectionStamp (scope_transport s) ->
     (fst after, scope_transport (snd after)) =
       send_response callId u (scope_transport s)).
Proof.
  intros after. subst after. rewrite use_callback_cases.
  split; [|split; [|split]].
  - destruct (scope_called s) eqn:Hc; [exact Hc|].
    destruct (stamp =? badConnectionStamp (scope_transport s)); [|reflexivity].
    rewrite in_scope_called. reflexivity.
  - intros Hc. rewrite Hc. split; [reflexivity|].
    intros rest. simpl.
    apply bind_throw. rewrite use_callback_cases, Hc. reflexivity.
  - intros -> Hne. apply Z.eqb_neq in Hne. rewrite Hne. auto.
  - intros -> ->. rewrite Z.eqb_refl. rewrite in_scope_run. simpl.
    destruct (send_response callId u (scope_transport s)). reflexivity.
Qed.

Lemma invoke_callbacks_witness :
  use_callback (helpers := spec_helpers) 3 0 (UseEnd VNull false)
    {| scope_transport := new_Transport quiet_connector DEFAULT_OPTIONS true;
       scope_called := true |}
  = (Throw (InvalidActionError 3),
     {| scope_transport := new_Transport quiet_connector DEFAULT_OPTIONS true;
        scope_called := true |}).
Proof.
  exact (proj1 (proj1 (proj2 (invoke_callbacks_single_shot (helpers := spec_helpers)
           3 0 (UseEnd VNull false)
           {| scope_transport := new_Transport quiet_connector DEFAULT_OPTIONS true;
              scope_called := true |})) eq_refl)).
Defined.

(** * The limit of streams in a packet *)

Section StreamLimit.
Context {helpers : Helpers}.
Variables (limit : Z) (parseStreams parseBinaries : bool).

Local Abbreviation walk :=
  (_internalResolveMixedJSONDeep limit parseStreams parseBinaries).
Local Abbreviation count := (stream_placeholders parseStreams parseBinaries).
Local Abbreviation counts := (counts limit).

Lemma counts_ret {A} (a : A) : counts 0 (mret a).
Proof. intros s. simpl. lia. Qed.

Lemma counts_bind {A B} (n1 n2 : nat) (m : StateM Meta A) (k : A -> StateM Meta B) :
  counts n1 m -> (forall a, counts n2 (k a)) -> counts (n1 + n2) (m ≫= k).
Proof.
  intros Hm Hk s. unfold mbind, StateM_bind.
  specialize (Hm s). destruct (m s) as [[a|e] s1]; simpl in *.
  - specialize (Hk a s1). destruct (k a s1) as [[b|e] s2]; simpl in *.
    + lia.
    + destruct Hm as (H1 & H2). destruct Hk as (H3 & H4 & H5).
      split; [lia|]. split; [lia|]. intros He. specialize (H5 He). lia.
  - destruct Hm as (H1 & H2 & H3). split; [lia|]. split; [lia|].
    intros He. specialize (H3 He). lia.
Qed.

Lemma counts_then_ret {A B} (n : nat) (m : StateM Meta A) (g : A -> B) :
  counts n m -> counts n (a ← m; mret (g a)).
Proof.
  intros Hm. rewrite <- (Nat.add_0_r n).
  apply counts_bind; [exact Hm|]. intros a. apply counts_ret.
Qed.

Lemma counts_each_item (f : value -> StateM Meta value) (g : value -> nat)
  (l : list value) :
  Forall (fun v => counts (g v) (f v)) l ->
  counts (sum_list (g <$> l)) (each_item f l).
Proof.
  induction 1 as [|v l Hv Hl IH]; simpl; [apply counts_ret|].
  apply counts_bind; [exact Hv|]. intros x'.
  apply (counts_then_ret _ _ (fun r' => x' :: r')). exact IH.
Qed.

Lemma counts_each_prop (rename : string -> string) (f : value -> StateM Meta value)
  (g : value -> nat) (l : list (string * value)) :
  Forall (fun p => counts (g (snd p)) (f (snd p))) l ->
  forall clone,
    counts (sum_list ((fun p => g (snd p)) <$> l)) (each_prop rename f l clone).
Proof.
  induction 1 as [|p l Hp Hl IH]; intros clone; simpl; [apply counts_ret|].
  apply counts_bind; [exact Hp|]. intros v'. apply IH.
Qed.

Lemma counts_resolve_object (f : value -> StateM Meta value)
  (props : list (string * value)) :
  Forall (fun p => counts (count (snd p)) (f (snd p))) props ->
  counts (count (VObject props))
    (resolve_object limit parseStreams parseBinaries f props).
Proof.
  intros Hprops. unfold resolve_object. simpl.
  assert (Hclone : counts (sum_list ((fun p => count (snd p)) <$> props))
                     (clone ← each_prop unescapePlaceholderSequence f props [];
                      mret (VObject clone))).
  { apply (counts_then_ret _ _ VObject). apply counts_each_prop. exact Hprops. }
  assert (Hstream : forall sid,
            counts 1
              (c ← gets streamCount;
               if limit <=? c then throw stream_limit_error
               else _ ← modify (fun m => {| meta_binaries := meta_binaries m;
                                            streamCount := streamCount m + 1 |});
                    mret (VReadStream {| rs_id := Some sid |}))).
  { intros sid s. unfold mbind, StateM_bind, gets, modify, throw. simpl.
    destruct (Z.leb_spec limit (streamCount s)); simpl; lia. }
  assert (Hbinary : forall i,
            counts 0
              (binaries ← gets meta_binaries;
               match binaries with
               | None => throw (JsError
                   "Can not resolve binary data without binary content packet.")
               | Some bs => mret (binary_at bs i)
               end)).
  { intros i s. unfold mbind, StateM_bind, gets, throw. simpl.
    destruct (meta_binaries s); simpl; [lia|].
    split; [lia|]. split; [lia|]. intros He. discriminate He. }
  destruct parseBinaries, (obj_get "_b" props) as [[]|];
    try apply Hbinary;
    destruct parseStreams, (obj_get "_s" props) as [[]|];
    first [apply Hstream | exact Hclone].
Qed.

Lemma counts_resolve_empty (f : value -> StateM Meta value) :
  counts 0 (resolve_object limit parseStreams parseBinaries f []).
Proof.
  assert (Hzero : count (VObject []) = 0%nat) by (simpl; destruct parseBinaries, parseStreams; reflexivity).
  rewrite <- Hzero. apply counts_resolve_object. constructor.
Qed.

Lemma counts_walk (v : value) : counts (count v) (walk v).
Proof.
  induction v using value_deep_ind;
    try (apply counts_ret);
    try (apply counts_resolve_empty).
  - simpl. apply (counts_then_ret _ _ VArray). apply counts_each_item. assumption.
  - apply counts_resolve_object. assumption.
Qed.

End StreamLimit.

(** C8. The resolving walk of one packet, with a limit that is not
    negative: the stream count never exceeds the limit, whether the walk
    returns or throws; a tree with at most [streamsPerPackageLimit] stream
    placeholders never throws the limit error; a tree with more makes the
    decode throw. The default limit is 20. *)
Theorem resolve_respects_stream_limit {helpers : Helpers} (o : TransportOptions)
  (data : value) (parseStreams parseBinaries : bool)
  (binaries : option (list (list byte))) :
  0 <= streamsPerPackageLimit o ->
  let n := Z.of_nat (stream_placeholders parseStreams parseBinaries data) in
  let run := _resolveMixedJSONDeep o data parseStreams parseBinaries binaries in
  streamCount (snd run) <= streamsPerPackageLimit o /\
  (n <= streamsPerPackageLimit o -> fst run <> Throw stream_limit_error) /\
  (streamsPerPackageLimit o < n -> exists e, fst run = Throw e) /\
  streamsPerPackageLimit DEFAULT_OPTIONS = 20.
Proof.
  intros Hlimit n run.
  pose proof (counts_walk (streamsPerPackageLimit o) parseStreams parseBinaries data
                {| meta_binaries := binaries; streamCount := 0 |}) as [Hbound Hrun].
  fold (_resolveMixedJSONDeep o data parseStreams parseBinaries binaries) in Hbound, Hrun.
  fold run in Hbound, Hrun. simpl in Hbound, Hrun. fold n in Hrun.
  split; [lia|]. split; [|split; [|reflexivity]].
  - intros Hfits Hthrow. rewrite Hthrow in Hrun. destruct Hrun as [_ Hover].
    specialize (Hover eq_refl). lia.
  - intros Hover. destruct (fst run) as [v|e]; [lia | eexists; reflexivity].
Qed.

Lemma resolve_respects_stream_limit_witness :
  fst (_resolveMixedJSONDeep (helpers := spec_helpers) DEFAULT_OPTIONS
         (VArray [VObject [("_s"%string, VNumber 4)]]) true false None)
  <> Throw stream_limit_error.
Proof.
  apply (resolve_respects_stream_limit (helpers := spec_helpers) DEFAULT_OPTIONS
           (VArray [VObject [("_s"%string, VNumber 4)]]) true false None).
  - simpl. lia.
  - simpl. lia.
Defined.

(** A packet with three stream placeholders under a limit of two: the
    decode throws the limit error after two streams. *)
Example three_streams_under_limit_two :
  let o := {| responseTimeout := 10000; binaryContentPacketTimeout := 10000;
              streamsPerPackageLimit := 2; streamsEnabled := true;
              chunksCanContainStreams := false |} in
  _resolveMixedJSONDeep (helpers := spec_helpers) o
    (VArray [VObject [("_s"%string, VNumber 1)]; VObject [("_s"%string, VNumber 2)];
             VObject [("_s"%string, VNumber 3)]]) true false None
  = (Throw stream_limit_error, {| meta_binaries := None; streamCount := 2 |}).
Proof. reflexivity. Qed.

(** * The round trip of the value codec *)

Lemma obj_define_fresh (k : string) (v : value) (o : list (string * value)) :
  k ∉ (fst <$> o) -> obj_define k v o = o ++ [(k, v)].
Proof.
  induction o as [|[k' v'] o IH]; intros Hk; simpl; [reflexivity|].
  rewrite fmap_cons in Hk. apply not_elem_of_cons in Hk as [Hne Hk]. simpl in Hne.
  destruct (String.eqb_spec k' k) as [->|_]; [contradiction|].
  rewrite IH by exact Hk. reflexivity.
Qed.

(** An assignment to a name that is new, and not [__proto__], appends the
    property. *)
Lemma obj_set_fresh (k : string) (v : value) (o : list (string * value)) :
  k <> "__proto__"%string -> k ∉ (fst <$> o) -> obj_set k v o = o ++ [(k, v)].
Proof.
  intros Hproto Hk. unfold obj_set.
  destruct (String.eqb_spec k "__proto__") as [->|_]; [contradiction|].
  apply obj_define_fresh. exact Hk.
Qed.

(** An assignment to [__proto__] makes no property. *)
Lemma obj_set_proto (v : value) (o : list (string * value)) :
  obj_set "__proto__" v o = o.
Proof. reflexivity. Qed.

Lemma obj_get_absent (k : string) (o : list (string * value)) :
  k ∉ (fst <$> o) -> obj_get k o = None.
Proof.
  induction o as [|[k' v'] o IH]; intros Hk; [reflexivity|].
  rewrite fmap_cons in Hk. apply not_elem_of_cons in Hk as [Hne Hk]. simpl in Hne.
  unfold obj_get in *. simpl.
  destruct (String.eqb_spec k' k) as [->|_]; [contradiction|].
  apply IH. exact Hk.
Qed.

Lemma each_item_cons {S} (f : value -> StateM S value) (x : value) (r : list value) :
  each_item f (x :: r) = (x' ← f x; r' ← each_item f r; mret (x' :: r')).
Proof. reflexivity. Qed.

Lemma each_prop_cons {S} (rename : string -> string) (f : value -> StateM S value)
  (p : string * value) (r clone : list (string * value)) :
  each_prop rename f (p :: r) clone =
    (v' ← f (snd p); each_prop rename f r (obj_set (rename (fst p)) v' clone)).
Proof. reflexivity. Qed.

(** On keys that stay distinct after renaming, none of them [__proto__], the
    loop over the properties is the loop over their values, with the renamed
    keys put back. *)
Lemma each_prop_fresh {S} (rename : string -> string) (f : value -> StateM S value)
  (l : list (string * value)) :
  forall clone s,
    NoDup (rename <$> (fst <$> l)) ->
    "__proto__"%string ∉ (rename <$> (fst <$> l)) ->
    (forall k, k ∈ rename <$> (fst <$> l) -> k ∉ fst <$> clone) ->
    each_prop rename f l clone s =
      match each_item f (snd <$> l) s with
      | (Ok vs, s') => (Ok (clone ++ zip (rename <$> (fst <$> l)) vs), s')
      | (Throw e, s') => (Throw e, s')
      end.
Proof.
  induction l as [|[k v] l IH]; intros clone s Hnodup Hproto Hfresh.
  - simpl. rewrite app_nil_r. reflexivity.
  - rewrite !fmap_cons in Hnodup, Hproto, Hfresh. simpl in Hnodup, Hproto, Hfresh.
    apply NoDup_cons in Hnodup as [Hk Hnodup].
    apply not_elem_of_cons in Hproto as [Hne Hproto].
    rewrite each_prop_cons, !fmap_cons, each_item_cons. simpl fst. simpl snd.
    destruct (f v s) as [[v'|e] s1] eqn:Hf.
    2:{ rewrite !(bind_throw _ _ _ _ _ Hf). reflexivity. }
    rewrite !(bind_ok _ _ _ _ _ Hf).
    rewrite obj_set_fresh; [|congruence|apply Hfresh; left].
    rewrite IH; [|exact Hnodup|exact Hproto|].
    + destruct (each_item f (snd <$> l) s1) as [[vs|e] s2] eqn:Hrest.
      * rewrite (bind_ok _ _ _ _ _ Hrest). simpl. rewrite <- app_assoc. reflexivity.
      * rewrite (bind_throw _ _ _ _ _ Hrest). reflexivity.
    + intros k' Hk'. rewrite fmap_app. simpl. intros Hin.
      apply elem_of_app in Hin as [Hin|Hin].
      * apply (Hfresh k'); [right; exact Hk' | exact Hin].
      * apply list_elem_of_singleton in Hin. subst k'. contradiction.
Qed.

Section RoundTrip.
Context {helpers : Helpers} {laws : HelpersLaws helpers}.

Lemma escape_inj (k1 k2 : string) :
  escapePlaceholderSequence k1 = escapePlaceholderSequence k2 -> k1 = k2.
Proof.
  intros H. rewrite <- (unescape_escape k1), <- (unescape_escape k2), H. reflexivity.
Qed.

Lemma meta_same (m : Meta) :
  {| meta_binaries := meta_binaries m; streamCount := streamCount m + Z.of_nat 0 |} = m.
Proof. destruct m; simpl. f_equal. lia. Qed.

(** A value that both walks return as it is. *)
Lemma plain_round_trip (data : value) :
  _processMixedJSONDeepWalk data = mret data ->
  (forall limit parseStreams parseBinaries,
     _internalResolveMixedJSONDeep limit parseStreams parseBinaries data = mret data) ->
  materialized data data -> write_streams data = [] -> read_ids data = [] ->
  value_round_trip data.
Proof.
  intros Henc Hdec Hmat Hws Hids w Hon.
  exists data, w, [], []. rewrite Henc, !app_nil_r, Hws.
  split; [reflexivity|]. split; [reflexivity|]. split; [reflexivity|].
  split; [reflexivity|]. split; [reflexivity|].
  intros limit parseStreams parseBinaries m allBinaries _ _ _ _.
  exists data. rewrite Hdec. simpl length. rewrite meta_same.
  split; [reflexivity|]. split; [exact Hmat | exact Hids].
Qed.

Lemma buffer_round_trip (b : list byte) : value_round_trip (VArrayBuffer b).
Proof.
  intros w Hon.
  exists (VObject [("_b"%string, VNumber (Z.of_nat (length (w_binaries w))))]),
    {| w_transport := w_transport w; w_binaries := w_binaries w ++ [b];
       w_streams := w_streams w |}, [b], [].
  rewrite app_nil_r.
  split; [reflexivity|]. split; [reflexivity|]. split; [reflexivity|].
  split; [reflexivity|]. split; [reflexivity|].
  intros limit parseStreams parseBinaries m allBinaries Hbin Hat _ _.
  destruct Hbin as [-> Hmeta]; [discriminate|].
  specialize (Hat 0%nat b eq_refl). rewrite Nat.add_0_r in Hat.
  exists (VArrayBuffer b). simpl length. rewrite meta_same.
  split; [|split; [constructor | reflexivity]].
  simpl. unfold resolve_object. simpl.
  rewrite bind_gets, Hmeta. unfold binary_at.
  destruct (Z.ltb_spec (Z.of_nat (length (w_binaries w))) 0); [lia|].
  rewrite Nat2Z.id, Hat. reflexivity.
Qed.

Lemma stream_round_trip (s : WriteStream) : value_round_trip (VWriteStream s).
Proof.
  intros w Hon.
  destruct (_getNewStreamId (binary s) (w_transport w)) as [[streamId|e] t1] eqn:Hid.
  2:{ unfold _getNewStreamId in Hid. destruct (binary s); discriminate Hid. }
  assert (Hopts : options t1 = options (w_transport w)).
  { unfold _getNewStreamId in Hid.
    destruct (binary s); inversion Hid; subst;
      destruct (w_transport w); simpl;
      repeat match goal with |- context [if ?c then _ else _] => destruct c end;
      reflexivity. }
  exists (VObject [("_s"%string, VNumber streamId)]),
    {| w_transport := snd (called (Called_writeStream s (ws_init streamId)) t1);
       w_binaries := w_binaries w; w_streams := w_streams w ++ [(s, streamId)] |},
    [], [(s, streamId)].
  rewrite app_nil_r.
  split.
  { simpl. unfold on_transport.
    unfold mbind at 1, StateM_bind at 1. simpl. rewrite Hon.
    unfold mbind at 1, StateM_bind at 1. simpl. rewrite Hid. reflexivity. }
  split; [reflexivity|]. split; [reflexivity|].
  split; [destruct t1; exact Hopts|]. split; [reflexivity|].
  intros limit parseStreams parseBinaries m allBinaries _ _ Hstreams Hfits.
  rewrite Hstreams by discriminate. simpl length in *.
  exists (VReadStream {| rs_id := Some streamId |}).
  split; [|split; [constructor | reflexivity]].
  simpl. unfold resolve_object. simpl.
  destruct parseBinaries; simpl;
    rewrite bind_gets;
    (destruct (Z.leb_spec limit (streamCount m)); [lia|]); reflexivity.
Qed.

(** The round trip of the elements of an array, or of the property values
    of an object, one after the other. *)
Lemma items_round_trip (items : list value) :
  Forall value_round_trip items ->
  round_trip (each_item _processMixedJSONDeepWalk items)
    (concat (write_streams <$> items))
    (fun limit parseStreams parseBinaries =>
       each_item (_internalResolveMixedJSONDeep limit parseStreams parseBinaries))
    (fun newStreams decoded =>
       Forall2 materialized items decoded /\
       concat (read_ids <$> decoded) = Some <$> (snd <$> newStreams)).
Proof.
  induction 1 as [|v items Hv Hitems IH]; intros w Hon.
  - exists [], w, [], []. rewrite !app_nil_r.
    split; [reflexivity|]. split; [reflexivity|]. split; [reflexivity|].
    split; [reflexivity|]. split; [reflexivity|].
    intros limit parseStreams parseBinaries m allBinaries _ _ _ _.
    exists []. simpl length. rewrite meta_same.
    split; [reflexivity|]. split; [constructor | reflexivity].
  - destruct (Hv w Hon) as (e1 & w1 & b1 & s1 & Henc1 & Hb1 & Hs1 & Ho1 & Hws1 & Hdec1).
    assert (Hon1 : streamsEnabled (options (w_transport w1)) = true)
      by (rewrite Ho1; exact Hon).
    destruct (IH w1 Hon1)
      as (es & w2 & b2 & s2 & Henc2 & Hb2 & Hs2 & Ho2 & Hws2 & Hdec2).
    exists (e1 :: es), w2, (b1 ++ b2), (s1 ++ s2).
    split.
    { rewrite each_item_cons. rewrite (bind_ok _ _ _ _ _ Henc1).
      rewrite (bind_ok _ _ _ _ _ Henc2). reflexivity. }
    split; [rewrite Hb2, Hb1, app_assoc; reflexivity|].
    split; [rewrite Hs2, Hs1, app_assoc; reflexivity|].
    split; [rewrite Ho2, Ho1; reflexivity|].
    split; [rewrite fmap_cons, fmap_app, Hws1, Hws2; reflexivity|].
    intros limit parseStreams parseBinaries m allBinaries Hbin Hat Hstreams Hfits.
    rewrite length_app, Nat2Z.inj_add in Hfits.
    destruct (Hdec1 limit parseStreams parseBinaries m allBinaries)
      as (d1 & Hrun1 & Hmat1 & Hids1).
    { intros Hne. apply Hbin. intros Happ. apply app_eq_nil in Happ as [? _]. auto. }
    { intros i b Hi. apply Hat. apply lookup_app_l_Some. exact Hi. }
    { intros Hne. apply Hstreams. intros Happ. apply app_eq_nil in Happ as [? _]. auto. }
    { lia. }
    destruct (Hdec2 limit parseStreams parseBinaries
                {| meta_binaries := meta_binaries m;
                   streamCount := streamCount m + Z.of_nat (length s1) |} allBinaries)
      as (ds & Hrun2 & Hmat2 & Hids2).
    { simpl. intros Hne. apply Hbin. intros Happ. apply app_eq_nil in Happ as [_ ?]. auto. }
    { intros i b Hi. rewrite Hb1, length_app, <- Nat.add_assoc. apply Hat.
      rewrite lookup_app_r by lia.
      replace (length b1 + i - length b1)%nat with i by lia. exact Hi. }
    { intros Hne. apply Hstreams. intros Happ. apply app_eq_nil in Happ as [_ ?]. auto. }
    { simpl. lia. }
    exists (d1 :: ds). split.
    { rewrite each_item_cons. rewrite (bind_ok _ _ _ _ _ Hrun1).
      rewrite (bind_ok _ _ _ _ _ Hrun2). simpl.
      rewrite length_app, Nat2Z.inj_add, Z.add_assoc. reflexivity. }
    split; [constructor; assumption|].
    rewrite fmap_cons. simpl. rewrite Hids1, Hids2, !fmap_app. reflexivity.
Qed.

Lemma array_round_trip (items : list value) :
  Forall value_round_trip items -> value_round_trip (VArray items).
Proof.
  intros Hitems w Hon.
  destruct (items_round_trip items Hitems w Hon)
    as (es & w' & b & s & Henc & Hb & Hs & Ho & Hws & Hdec).
  exists (VArray es), w', b, s.
  split; [simpl; rewrite (bind_ok _ _ _ _ _ Henc); reflexivity|].
  split; [exact Hb|]. split; [exact Hs|]. split; [exact Ho|]. split; [exact Hws|].
  intros limit parseStreams parseBinaries m allBinaries Hbin Hat Hstreams Hfits.
  destruct (Hdec limit parseStreams parseBinaries m allBinaries Hbin Hat Hstreams Hfits)
    as (ds & Hrun & Hmat & Hids).
  exists (VArray ds).
  split; [simpl; rewrite (bind_ok _ _ _ _ _ Hrun); reflexivity|].
  split; [constructor; exact Hmat | exact Hids].
Qed.

Lemma each_item_length {S} (f : value -> StateM S value) (l : list value) :
  forall s vs s', each_item f l s = (Ok vs, s') -> length vs = length l.
Proof.
  induction l as [|x l IH]; intros s vs s' Hrun.
  - inversion Hrun. reflexivity.
  - rewrite each_item_cons in Hrun.
    destruct (f x s) as [[x'|e] s1] eqn:Hx.
    2:{ rewrite (bind_throw _ _ _ _ _ Hx) in Hrun. discriminate Hrun. }
    rewrite (bind_ok _ _ _ _ _ Hx) in Hrun.
    destruct (each_item f l s1) as [[r'|e] s2] eqn:Hl.
    2:{ rewrite (bind_throw _ _ _ _ _ Hl) in Hrun. discriminate Hrun. }
    rewrite (bind_ok _ _ _ _ _ Hl) in Hrun. inversion Hrun; subst.
    simpl. f_equal. eapply IH. exact Hl.
Qed.

Lemma materialized_props (props : list (string * value)) :
  forall ds,
    Forall2 materialized (snd <$> props) ds ->
    Forall2 (fun p p' => fst p = fst p' /\ materialized (snd p) (snd p'))
      props (zip (fst <$> props) ds).
Proof.
  induction props as [|[k v] props IH]; intros ds Hds.
  - constructor.
  - rewrite fmap_cons in Hds. inversion Hds as [|? d ? ds' Hd Hrest]; subst.
    simpl. constructor; [split; [reflexivity | exact Hd]|]. apply IH. exact Hrest.
Qed.

Lemma object_round_trip (props : list (string * value)) :
  NoDup (fst <$> props) ->
  forallb (fun p => kept_key (fst p)) props = true ->
  Forall (fun p => value_round_trip (snd p)) props ->
  value_round_trip (VObject props).
Proof.
  intros Hkeys Hkept Hprops w Hon.
  assert (Hproto : ("__proto__"%string ∉ (fst <$> props)) /\
                   ("__proto__"%string ∉ (escapePlaceholderSequence <$> (fst <$> props)))).
  { rewrite forallb_forall in Hkept.
    split; intros Hin.
    - apply list_elem_of_fmap in Hin as (p & Hp & Hin).
      apply list_elem_of_In, Hkept in Hin. unfold kept_key in Hin.
      apply andb_true_iff in Hin as [Hin _]. rewrite <- Hp in Hin.
      rewrite String.eqb_refl in Hin. discriminate Hin.
    - apply list_elem_of_fmap in Hin as (k & Hk & Hin).
      apply list_elem_of_fmap in Hin as (p & Hp & Hin). subst k.
      apply list_elem_of_In, Hkept in Hin. unfold kept_key in Hin.
      apply andb_true_iff in Hin as [_ Hin]. rewrite <- Hk in Hin.
      rewrite String.eqb_refl in Hin. discriminate Hin. }
  destruct Hproto as [Hproto Hproto_escaped].
  assert (Hvalues : Forall value_round_trip (snd <$> props))
    by (apply Forall_fmap; exact Hprops).
  destruct (items_round_trip _ Hvalues w Hon)
    as (es & w' & b & s & Henc & Hb & Hs & Ho & Hws & Hdec).
  assert (Hescaped : NoDup (escapePlaceholderSequence <$> (fst <$> props))).
  { apply NoDup_fmap_2; [|exact Hkeys]. intros k1 k2. apply escape_inj. }
  assert (Hlen_es : length es = length props).
  { rewrite (each_item_length _ _ _ _ _ Henc), length_fmap. reflexivity. }
  set (encoded := zip (escapePlaceholderSequence <$> (fst <$> props)) es).
  assert (Hfst : fst <$> encoded = escapePlaceholderSequence <$> (fst <$> props)).
  { apply fst_zip. rewrite !length_fmap. lia. }
  assert (Hsnd : snd <$> encoded = es).
  { apply snd_zip. rewrite !length_fmap. lia. }
  exists (VObject encoded), w', b, s.
  split.
  { simpl. erewrite bind_ok; [reflexivity|].
    rewrite each_prop_fresh;
      [|exact Hescaped|exact Hproto_escaped|intros k _ Hin; inversion Hin].
    rewrite Henc. reflexivity. }
  split; [exact Hb|]. split; [exact Hs|]. split; [exact Ho|].
  split.
  { rewrite Hws. simpl. rewrite <- list_fmap_compose. reflexivity. }
  intros limit parseStreams parseBinaries m allBinaries Hbin Hat Hstreams Hfits.
  destruct (Hdec limit parseStreams parseBinaries m allBinaries Hbin Hat Hstreams Hfits)
    as (ds & Hrun & Hmat & Hids).
  assert (Hlen_ds : length ds = length props).
  { rewrite (each_item_length _ _ _ _ _ Hrun). exact Hlen_es. }
  assert (Hno_b : obj_get "_b" encoded = None).
  { apply obj_get_absent. rewrite Hfst. intros Hin.
    apply list_elem_of_fmap in Hin as (k & Hk & _). symmetry in Hk.
    exact (escape_not_b k Hk). }
  assert (Hno_s : obj_get "_s" encoded = None).
  { apply obj_get_absent. rewrite Hfst. intros Hin.
    apply list_elem_of_fmap in Hin as (k & Hk & _). symmetry in Hk.
    exact (escape_not_s k Hk). }
  assert (Hback : unescapePlaceholderSequence <$> (fst <$> encoded) = fst <$> props).
  { rewrite Hfst, <- list_fmap_compose.
    rewrite <- (list_fmap_id (fst <$> props)) at 2.
    apply list_fmap_ext. intros i k _. apply unescape_escape. }
  exists (VObject (zip (fst <$> props) ds)).
  split.
  { simpl. unfold resolve_object. rewrite Hno_b, Hno_s.
    assert (Hclone :
              each_prop unescapePlaceholderSequence
                (_internalResolveMixedJSONDeep limit parseStreams parseBinaries)
                encoded [] m
              = (Ok (zip (fst <$> props) ds),
                 {| meta_binaries := meta_binaries m;
                    streamCount := streamCount m + Z.of_nat (length s) |})).
    { rewrite each_prop_fresh.
      - rewrite Hsnd, Hrun, Hback. reflexivity.
      - rewrite Hback. exact Hkeys.
      - rewrite Hback. exact Hproto.
      - intros k _ Hin. inversion Hin. }
    destruct parseBinaries, parseStreams;
      rewrite (bind_ok _ _ _ _ _ Hclone); reflexivity. }
  split.
  - constructor. apply materialized_props. exact Hmat.
  - simpl. rewrite <- Hids.
    assert (Hvalues' : (fun p : string * value => read_ids (snd p))
                         <$> zip (fst <$> props) ds
                       = read_ids <$> (snd <$> zip (fst <$> props) ds))
      by (rewrite <- list_fmap_compose; reflexivity).
    rewrite Hvalues', snd_zip by (rewrite length_fmap; lia). reflexivity.
Qed.

(** Every encodable value makes the round trip, from any state of the
    walk. *)
Lemma encodable_round_trip (data : value) :
  encodable data = true -> value_round_trip data.
Proof.
  induction data using value_deep_ind; intros Henc; try discriminate Henc;
    try (apply plain_round_trip; [reflexivity | reflexivity | constructor
                                 | reflexivity | reflexivity]).
  - apply buffer_round_trip.
  - apply stream_round_trip.
  - apply array_round_trip. simpl in Henc.
    rewrite forallb_forall in Henc. rewrite Forall_forall in H |- *.
    intros v Hv. apply H; [exact Hv|]. apply Henc. apply list_elem_of_In. exact Hv.
  - simpl in Henc. apply andb_true_iff in Henc as [Hkeys Hvalues].
    apply andb_true_iff in Hkeys as [Hkeys Hkept].
    apply bool_decide_eq_true in Hkeys.
    apply object_round_trip; [exact Hkeys|exact Hkept|].
    rewrite forallb_forall in Hvalues. rewrite Forall_forall in H |- *.
    intros p Hp. apply H; [exact Hp|]. apply Hvalues. apply list_elem_of_In. exact Hp.
Qed.

End RoundTrip.

(** The escape modelled from the specification keeps its promises. *)
Lemma spec_helpers_laws : HelpersLaws spec_helpers.
Proof.
  split; intros k; simpl; unfold spec_escape, spec_unescape.
  - destruct k as [|c r]; [reflexivity|].
    destruct c as [[] [] [] [] [] [] [] []]; try reflexivity;
      destruct r as [|c' r']; try reflexivity;
      destruct c' as [[] [] [] [] [] [] [] []]; reflexivity.
  - destruct k as [|c r]; [discriminate|].
    destruct c as [[] [] [] [] [] [] [] []]; discriminate.
  - destruct k as [|c r]; [discriminate|].
    destruct c as [[] [] [] [] [] [] [] []]; discriminate.
Qed.

(** A [Date] goes through the encoding walk as it is, and the resolving
    walk, which finds an object without enumerable properties, leaves an
    empty object in its place. *)
Lemma date_does_not_round_trip :
  let t := new_Transport quiet_connector DEFAULT_OPTIONS true in
  _processMixedJSONDeep (helpers := spec_helpers) (VDate 0) t
    = (Ok (VDate 0, [], []), t) /\
  (forall parseStreams parseBinaries binaries,
     fst (_resolveMixedJSONDeep (helpers := spec_helpers) DEFAULT_OPTIONS (VDate 0)
            parseStreams parseBinaries binaries) = Ok (VObject [])) /\
  VObject [] <> VDate 0.
Proof.
  split; [reflexivity|]. split; [|discriminate].
  intros [] [] binaries; reflexivity.
Qed.

(** A value with one stream more than the limit is encoded, and the
    resolving walk of what was encoded throws. *)
Lemma stream_limit_breaks_round_trip :
  let t := new_Transport quiet_connector DEFAULT_OPTIONS true in
  exists encoded streams t',
    _processMixedJSONDeep (helpers := spec_helpers) twenty_one_streams t
      = (Ok (encoded, [], streams), t') /\
    fst (_resolveMixedJSONDeep (helpers := spec_helpers) DEFAULT_OPTIONS encoded
           true false None) = Throw stream_limit_error.
Proof. vm_compute. eexists _, _, _. split; reflexivity. Qed.

(** A user key [__proto__] does not come back: the encoding walk escapes
    it, the resolving walk assigns the value to [clone["__proto__"]], which
    makes no property. The key [_proto__] is lost by the encoding walk, which
    escapes it to [__proto__]. *)
Example proto_key_is_lost :
  let t := new_Transport quiet_connector DEFAULT_OPTIONS true in
  _processMixedJSONDeep (helpers := spec_helpers)
    (VObject [("__proto__"%string, VNumber 1); ("a"%string, VNumber 2)]) t
    = (Ok (VObject [("___proto__"%string, VNumber 1); ("a"%string, VNumber 2)], [], []), t) /\
  fst (_resolveMixedJSONDeep (helpers := spec_helpers) DEFAULT_OPTIONS
         (VObject [("___proto__"%string, VNumber 1); ("a"%string, VNumber 2)])
         false false None)
    = Ok (VObject [("a"%string, VNumber 2)]) /\
  _processMixedJSONDeep (helpers := spec_helpers)
    (VObject [("_proto__"%string, VNumber 1); ("a"%string, VNumber 2)]) t
    = (Ok (VObject [("a"%string, VNumber 2)], [], []), t).
Proof. split; [reflexivity|]. split; reflexivity. Qed.

(** C1, amended. The key escape modelled from the specification is
    invertible and never yields [_b] or [_s]; and with any key escape that
    is so: for a value built from JSON primitives, buffers, write streams,
    arrays and objects (no [Date]), none of whose keys is [__proto__] or
    escaped to [__proto__], with at most [streamsPerPackageLimit] write
    streams, on a transport whose streams are enabled, the encoding walk
    returns; the resolving walk of what it returned, with the collected
    binaries and the parsing of binaries and of streams switched on where
    there are some, returns the value with every write stream replaced by a
    read stream that has the identifier given to that write stream; buffers,
    keys and everything else are equal. *)
Theorem mixed_json_round_trip :
  HelpersLaws spec_helpers /\
  forall helpers : Helpers, HelpersLaws helpers ->
  forall (data : value) (t : Transport),
  encodable data = true ->
  streamsEnabled (options t) = true ->
  Z.of_nat (length (write_streams data)) <= streamsPerPackageLimit (options t) ->
  exists encoded binaries streams t',
    _processMixedJSONDeep data t = (Ok (encoded, binaries, streams), t') /\
    fst <$> streams = write_streams data /\
    forall parseStreams parseBinaries,
      (binaries <> [] -> parseBinaries = true) ->
      (streams <> [] -> parseStreams = true) ->
      exists decoded,
        fst (_resolveMixedJSONDeep (options t) encoded parseStreams parseBinaries
               (if nonempty binaries then Some binaries else None)) = Ok decoded /\
        materialized data decoded /\
        read_ids decoded = Some <$> (snd <$> streams).
Proof.
  split; [exact spec_helpers_laws|].
  intros helpers laws data t Henc Hon Hfits.
  destruct (encodable_round_trip data Henc
              {| w_transport := t; w_binaries := []; w_streams := [] |} Hon)
    as (encoded & w' & binaries & streams & Hrun & Hb & Hs & Ho & Hws & Hdec).
  simpl in Hb, Hs, Ho.
  exists encoded, binaries, streams, (w_transport w').
  split.
  { unfold _processMixedJSONDeep. rewrite Hrun, Hb, Hs. reflexivity. }
  split; [exact Hws|].
  intros parseStreams parseBinaries Hbin Hstreams.
  destruct (Hdec (streamsPerPackageLimit (options t)) parseStreams parseBinaries
              {| meta_binaries := if nonempty binaries then Some binaries else None;
                 streamCount := 0 |} binaries)
    as (decoded & Hdecoded & Hmat & Hids).
  - intros Hne. split; [exact (Hbin Hne)|]. simpl.
    destruct binaries; [contradiction | reflexivity].
  - intros i b Hi. exact Hi.
  - exact Hstreams.
  - simpl. rewrite <- Hws, length_fmap in Hfits. lia.
  - exists decoded. unfold _resolveMixedJSONDeep. rewrite Hdecoded.
    split; [reflexivity|]. split; [exact Hmat | exact Hids].
Qed.

Lemma mixed_json_round_trip_witness :
  exists encoded binaries streams t',
    _processMixedJSONDeep (helpers := spec_helpers)
      (VObject [("_b"%string, VNumber 3);
                ("file"%string, VArrayBuffer [x01; x02]);
                ("s"%string, VWriteStream {| binary := true; label := 1 |})])
      (new_Transport quiet_connector DEFAULT_OPTIONS true)
    = (Ok (encoded, binaries, streams), t') /\
    fst <$> streams = [{| binary := true; label := 1 |}].
Proof.
  destruct (proj2 mixed_json_round_trip spec_helpers (proj1 mixed_json_round_trip)
              (VObject [("_b"%string, VNumber 3);
                        ("file"%string, VArrayBuffer [x01; x02]);
                        ("s"%string, VWriteStream {| binary := true; label := 1 |})])
              (new_Transport quiet_connector DEFAULT_OPTIONS true))
    as (encoded & binaries & streams & t' & Hrun & Hws & _).
  - vm_compute. reflexivity.
  - reflexivity.
  - simpl. lia.
  - exists encoded, binaries, streams, t'. split; [exact Hrun | exact Hws].
Defined.

(** The adversarial keys of the witness: a user key [_b] with a number comes
    back as it was, beside a buffer and a binary stream. *)
Example adversarial_keys_round_trip :
  let t := new_Transport quiet_connector DEFAULT_OPTIONS true in
  let data := VObject [("_b"%string, VNumber 3);
                       ("_s"%string, VNumber 4);
                       ("file"%string, VArrayBuffer [x01; x02]);
                       ("s"%string, VWriteStream {| binary := true; label := 1 |})] in
  match fst (_processMixedJSONDeep (helpers := spec_helpers) data t) with
  | Ok (encoded, binaries, streams) =>
      fst (_resolveMixedJSONDeep (helpers := spec_helpers) DEFAULT_OPTIONS encoded
             true true (Some binaries))
      = Ok (VObject [("_b"%string, VNumber 3);
                     ("_s"%string, VNumber 4);
                     ("file"%string, VArrayBuffer [x01; x02]);
                     ("s"%string, VReadStream {| rs_id := Some (-1) |})])
  | Throw _ => False
  end.
Proof. vm_compute. reflexivity. Qed.

(** * What a computation keeps of the transport *)

(** Computations that keep a part of the transport which no recorded call
    changes. *)
Section Kept.
Context {X : Type} (f : Transport -> X).
Hypothesis f_trace : forall x t, f (set_trace x t) = f t.
Local Abbreviation kept := (frames (same f)).

Lemma kept_ret {S A} (on : S -> Transport) (a : A) : kept on (mret a).
Proof. intros s. reflexivity. Qed.

Lemma kept_throw {S A} (on : S -> Transport) (e : Error) : kept on (throw (A := A) e).
Proof. intros s. reflexivity. Qed.

Lemma kept_gets {S A} (on : S -> Transport) (g : S -> A) : kept on (gets g).
Proof. intros s. reflexivity. Qed.

Lemma kept_lift_result {S A} (on : S -> Transport) (r : result A) :
  kept on (lift_result r).
Proof. intros s. reflexivity. Qed.

Lemma kept_modify {S} (on : S -> Transport) (g : S -> S) :
  (forall s, f (on (g s)) = f (on s)) -> kept on (modify g).
Proof. intros H s. apply H. Qed.

Lemma kept_bind {S A B} (on : S -> Transport) (m : StateM S A) (k : A -> StateM S B) :
  kept on m -> (forall a, kept on (k a)) -> kept on (m ≫= k).
Proof.
  intros Hm Hk s. unfold same, mbind, StateM_bind.
  specialize (Hm s). unfold same in Hm.
  destruct (m s) as [[a|e] s1]; simpl in *; [|exact Hm].
  rewrite <- Hm. apply Hk.
Qed.

Lemma kept_try_catch {S A} (on : S -> Transport) (m : StateM S A)
  (h : Error -> StateM S A) :
  kept on m -> (forall e, kept on (h e)) -> kept on (try_catch m h).
Proof.
  intros Hm Hh s. unfold same, try_catch.
  specialize (Hm s). unfold same in Hm.
  destruct (m s) as [[a|e] s1]; simpl in *; [exact Hm|].
  rewrite <- Hm. apply Hh.
Qed.

Lemma kept_called (c : Call) : kept (fun t => t) (called c).
Proof. intros t. unfold same, called, modify. simpl. apply f_trace. Qed.

Lemma kept_hook (c : Call) (o : option Error) : kept (fun t => t) (hook c o).
Proof.
  unfold hook. apply kept_bind; [apply kept_called|].
  intros _. destruct o; [apply kept_throw | apply kept_ret].
Qed.

Lemma kept_for_in {K V} (g : K -> V -> M unit) (l : list (K * V)) :
  (forall k v, kept (fun t => t) (g k v)) -> kept (fun t => t) (for_in g l).
Proof.
  intros Hg. induction l as [|e l IH]; simpl; [apply kept_ret|].
  apply kept_bind; [apply Hg | intros _; exact IH].
Qed.

Lemma kept_on_transport {A} (m : M A) :
  kept (fun t => t) m -> kept w_transport (on_transport m).
Proof.
  intros Hm w. unfold on_transport. specialize (Hm (w_transport w)).
  destruct (m (w_transport w)) as [r t']. exact Hm.
Qed.



End Kept.

Ltac kept_step f :=
  lazymatch goal with
  | |- frames (same _) _ (@mret _ _ _ _) => apply (kept_ret f)
  | |- frames (same _) _ (throw _) => apply (kept_throw f)
  | |- frames (same _) _ (gets _) => apply (kept_gets f)
  | |- frames (same _) _ (lift_result _) => apply (kept_lift_result f)
  | |- frames (same _) _ (called _) => apply (kept_called f); intros ? []; reflexivity
  | |- frames (same _) _ (send _) => unfold send
  | |- frames (same _) _ (hook _ _) => apply (kept_hook f); intros ? []; reflexivity
  | |- frames (same _) _ (on_transport _) => apply (kept_on_transport f)
  | |- frames (same _) _ (@mbind _ _ _ _ _ _) => apply (kept_bind f); [|intros ?]
  | |- frames (same _) _ (try_catch _ _) => apply (kept_try_catch f); [|intros ?]
  | |- frames (same _) _ (for_in _ _) => apply (kept_for_in f); intros ? ?
  | |- frames (same _) _ (modify _) => apply (kept_modify f); intros []; reflexivity
  | |- frames (same _) _ (match ?x with _ => _ end) => destruct x
  end.

Ltac kept_cases f := repeat kept_step f.

(** * The response timer of an invoke *)

(** [prepareInvoke] leaves the pending invokes as they are: the walk of the
    payload and the allocation of identifiers change counters and record
    calls. *)
Section PendingInvokesKept.
Context {helpers : Helpers}.
Local Abbreviation kept := (frames (same _invokeResponsePromises)).








End PendingInvokesKept.


Section Collecting.
Context {helpers : Helpers}.







End Collecting.





(** [setResponseTimeout] arms the timer of the call when its entry is
    installed and has none, and changes nothing else. *)
Lemma setResponseTimeout_promises (callId : Z) (responseTimeout : option Z)
  (t : Transport) :
  _invokeResponsePromises (snd (setResponseTimeout callId responseTimeout t)) =
    match _invokeResponsePromises t !! number_key callId with
    | Some {| timeout := None; returnDataType := r |} =>
        <[number_key callId :=
            {| timeout := Some {| delay := effective_timeout responseTimeout (options t) |};
               returnDataType := r |}]> (_invokeResponsePromises t)
    | _ => _invokeResponsePromises t
    end.
Proof.
  unfold setResponseTimeout. rewrite bind_gets.
  destruct (_invokeResponsePromises t !! number_key callId) as [[[tm|] r]|];
    try reflexivity.
  rewrite bind_gets. destruct t; reflexivity.
Qed.

Lemma setResponseTimeout_keeps_armed (callId c : Z) (responseTimeout : option Z)
  (t : Transport) :
  armed c t -> armed c (snd (setResponseTimeout callId responseTimeout t)).
Proof.
  intros (p & tm & Hp & Htm). unfold armed. rewrite setResponseTimeout_promises.
  destruct (_invokeResponsePromises t !! number_key callId) as [[[tm'|] r]|] eqn:Hentry;
    try (exists p, tm; split; assumption).
  destruct (decide (callId = c)) as [->|Hne].
  - rewrite Hentry in Hp. inversion Hp; subst p. discriminate Htm.
  - exists p, tm.
    rewrite lookup_insert_ne by (intros Heq; apply number_key_inj in Heq; contradiction).
    split; assumption.
Qed.

























(** * More theorems: identifiers *)

(** The counter of call identifiers and of binary content packets, as
    both allocators step it. *)
Lemma mod_inj (a b n : Z) :
  0 < n -> a mod n = b mod n -> - n < a - b < n -> a = b.
Proof.
  intros Hn Hmod Hclose.
  pose proof (Z.div_mod a n ltac:(lia)) as Ha.
  pose proof (Z.div_mod b n ltac:(lia)) as Hb.
  assert (a - b = n * (a / n - b / n)) as Hdiff by lia.
  assert (a / n - b / n = 0) by nia. lia.
Qed.

Lemma allocate_S {S} (alloc : StateM S Z) (n : nat) (s : S) :
  allocate alloc (Datatypes.S n) s =
    match alloc s with
    | (Ok id, s') => id :: allocate alloc n s'
    | (Throw _, _) => []
    end.
Proof. reflexivity. Qed.

Lemma getNewCid_step (t : Transport) :
  0 <= _cid t <= MAX_SAFE_INTEGER + 1 ->
  exists t',
    _getNewCid t = (Ok (_cid t mod 2 ^ 53), t') /\
    _cid t' = _cid t mod 2 ^ 53 + 1 /\
    0 <= _cid t' <= MAX_SAFE_INTEGER + 1.
Proof.
  intros Hrange. unfold _getNewCid, MAX_SAFE_INTEGER in *.
  destruct t as [? ? ? ? ? ? ? ? ? c ? ? ?]; simpl in *.
  destruct (Z.ltb_spec (2 ^ 53 - 1) c) as [Hwrap|Hin]; simpl.
  - assert (c = 2 ^ 53) as -> by lia. rewrite Z.mod_same by lia.
    eexists. split; [reflexivity|]. simpl. lia.
  - rewrite Z.mod_small by lia.
    eexists. split; [reflexivity|]. simpl. lia.
Qed.

Lemma allocate_cids (n : nat) : forall (t : Transport) (i : nat),
  0 <= _cid t <= MAX_SAFE_INTEGER + 1 ->
  (i < n)%nat ->
  allocate _getNewCid n t !! i = Some ((_cid t + Z.of_nat i) mod 2 ^ 53).
Proof.
  induction n as [|n IH]; intros t i Hrange Hi; [lia|].
  destruct (getNewCid_step t Hrange) as (t' & Hrun & Hnext & Hrange').
  rewrite allocate_S, Hrun. destruct i as [|i]; simpl.
  - rewrite Z.add_0_r. reflexivity.
  - rewrite (IH t' i Hrange') by lia. rewrite Hnext. f_equal.
    rewrite <- (Zplus_mod_idemp_l (_cid t)).
    f_equal. lia.
Qed.

Lemma allocate_length {S} (alloc : StateM S Z) (n : nat) :
  (forall s, exists id s', alloc s = (Ok id, s')) ->
  forall s, length (allocate alloc n s) = n.
Proof.
  intros Htotal. induction n as [|n IH]; intros s; [reflexivity|].
  rewrite allocate_S. destruct (Htotal s) as (id & s' & ->). simpl. rewrite IH. reflexivity.
Qed.

(** X1. Call identifiers. From a transport whose counter is in its range,
    as it is after the constructor and stays, the call that follows [i]
    others returns the counter plus [i] modulo [2^53]: the identifiers lie
    between 0 and the largest safe integer, and any run of at most [2^53]
    allocations returns identifiers that differ from one another. *)
Theorem call_ids_are_distinct (n : nat) (t : Transport) :
  0 <= _cid t <= MAX_SAFE_INTEGER + 1 ->
  let ids := allocate _getNewCid n t in
  length ids = n /\
  (forall i, (i < n)%nat -> ids !! i = Some ((_cid t + Z.of_nat i) mod 2 ^ 53)) /\
  (forall id, id ∈ ids -> 0 <= id <= MAX_SAFE_INTEGER) /\
  (Z.of_nat n <= 2 ^ 53 -> NoDup ids).
Proof.
  intros Hrange ids.
  assert (Hlen : length ids = n).
  { apply allocate_length. intros s. unfold _getNewCid. eexists _, _. reflexivity. }
  assert (Hat : forall i, (i < n)%nat ->
                  ids !! i = Some ((_cid t + Z.of_nat i) mod 2 ^ 53)).
  { intros i Hi. apply allocate_cids; assumption. }
  split; [exact Hlen|]. split; [exact Hat|]. split.
  - intros id Hin. apply list_elem_of_lookup in Hin as [i Hi].
    assert (i < n)%nat as Hlt by (rewrite <- Hlen; eapply lookup_lt_Some; exact Hi).
    rewrite (Hat i Hlt) in Hi. inversion Hi; subst id.
    pose proof (Z.mod_pos_bound (_cid t + Z.of_nat i) (2 ^ 53) ltac:(lia)).
    unfold MAX_SAFE_INTEGER. lia.
  - intros Hn. apply NoDup_alt. intros i j id Hi Hj.
    assert (i < n)%nat as Hil by (rewrite <- Hlen; eapply lookup_lt_Some; exact Hi).
    assert (j < n)%nat as Hjl by (rewrite <- Hlen; eapply lookup_lt_Some; exact Hj).
    rewrite (Hat i Hil) in Hi. rewrite (Hat j Hjl) in Hj.
    assert (_cid t + Z.of_nat i = _cid t + Z.of_nat j).
    { apply (mod_inj _ _ (2 ^ 53)); [lia | congruence | lia]. }
    lia.
Qed.

Lemma call_ids_are_distinct_witness :
  NoDup (allocate _getNewCid 3 (new_Transport quiet_connector DEFAULT_OPTIONS true)).
Proof.
  apply (call_ids_are_distinct 3 (new_Transport quiet_connector DEFAULT_OPTIONS true)).
  - unfold MAX_SAFE_INTEGER. simpl. lia.
  - simpl. lia.
Defined.

Lemma getNewBinaryContentPacketId_step (t : Transport) :
  0 <= _binaryContentPacketId t <= MAX_SAFE_INTEGER + 1 ->
  exists t',
    _getNewBinaryContentPacketId t = (Ok (_binaryContentPacketId t mod 2 ^ 53), t') /\
    _binaryContentPacketId t' = _binaryContentPacketId t mod 2 ^ 53 + 1 /\
    0 <= _binaryContentPacketId t' <= MAX_SAFE_INTEGER + 1.
Proof.
  intros Hrange. unfold _getNewBinaryContentPacketId, MAX_SAFE_INTEGER in *.
  destruct t as [? ? ? c ? ? ? ? ? ? ? ? ?]; simpl in *.
  destruct (Z.ltb_spec (2 ^ 53 - 1) c) as [Hwrap|Hin]; simpl.
  - assert (c = 2 ^ 53) as -> by lia. rewrite Z.mod_same by lia.
    eexists. split; [reflexivity|]. simpl. lia.
  - rewrite Z.mod_small by lia.
    eexists. split; [reflexivity|]. simpl. lia.
Qed.

Lemma allocate_packet_ids (n : nat) : forall (t : Transport) (i : nat),
  0 <= _binaryContentPacketId t <= MAX_SAFE_INTEGER + 1 ->
  (i < n)%nat ->
  allocate _getNewBinaryContentPacketId n t !! i
    = Some ((_binaryContentPacketId t + Z.of_nat i) mod 2 ^ 53).
Proof.
  induction n as [|n IH]; intros t i Hrange Hi; [lia|].
  destruct (getNewBinaryContentPacketId_step t Hrange) as (t' & Hrun & Hnext & Hrange').
  rewrite allocate_S, Hrun. destruct i as [|i]; simpl.
  - rewrite Z.add_0_r. reflexivity.
  - rewrite (IH t' i Hrange') by lia. rewrite Hnext. f_equal.
    rewrite <- (Zplus_mod_idemp_l (_binaryContentPacketId t)).
    f_equal. lia.
Qed.

Lemma getNewMultiBinaryContentPacketId_step (c : Z) :
  MIN_SAFE_INTEGER - 1 <= c <= -1 ->
  exists c',
    _getNewMultiBinaryContentPacketId c
      = (Ok (- 1 - (- 1 - c) mod MAX_SAFE_INTEGER), c') /\
    - 1 - c' = (- 1 - c) mod MAX_SAFE_INTEGER + 1 /\
    MIN_SAFE_INTEGER - 1 <= c' <= -1.
Proof.
  intros Hrange.
  unfold _getNewMultiBinaryContentPacketId, MIN_SAFE_INTEGER, MAX_SAFE_INTEGER in *.
  destruct (Z.ltb_spec c (- (2 ^ 53 - 1))) as [Hwrap|Hin].
  - assert (c = - 2 ^ 53) as -> by lia.
    replace (- 1 - - 2 ^ 53) with (2 ^ 53 - 1) by lia.
    rewrite Z.mod_same by lia.
    eexists. split; [reflexivity|]. lia.
  - rewrite Z.mod_small by lia.
    eexists. split; [f_equal; f_equal; lia|]. lia.
Qed.

Lemma allocate_multi_ids (n : nat) : forall (c : Z) (i : nat),
  MIN_SAFE_INTEGER - 1 <= c <= -1 ->
  (i < n)%nat ->
  allocate _getNewMultiBinaryContentPacketId n c !! i
    = Some (- 1 - (- 1 - c + Z.of_nat i) mod MAX_SAFE_INTEGER).
Proof.
  induction n as [|n IH]; intros c i Hrange Hi; [lia|].
  destruct (getNewMultiBinaryContentPacketId_step c Hrange)
    as (c' & Hrun & Hnext & Hrange').
  rewrite allocate_S, Hrun. destruct i as [|i]; simpl.
  - rewrite Z.add_0_r. reflexivity.
  - rewrite (IH c' i Hrange') by lia. rewrite Hnext. f_equal. f_equal.
    replace (- 1 - c + Z.of_nat (S i)) with (- 1 - c + (1 + Z.of_nat i)) by lia.
    rewrite <- Z.add_assoc. apply Zplus_mod_idemp_l.
Qed.

(** X2. Identifiers of binary content packets. The allocator of a
    transport returns its counter plus the number of earlier calls modulo
    [2^53], a number from 0 to the largest safe integer; the static
    allocator of the packages for many transports returns the numbers -1,
    -2, ... down to the smallest safe integer and then -1 again. So the
    identifiers of one allocator differ from one another over any run
    shorter than its period, and an identifier of a package for many
    transports is never the one of a package of a transport. *)
Theorem packet_ids_never_collide (n m : nat) (t : Transport) (c : Z) :
  0 <= _binaryContentPacketId t <= MAX_SAFE_INTEGER + 1 ->
  MIN_SAFE_INTEGER - 1 <= c <= -1 ->
  let own := allocate _getNewBinaryContentPacketId n t in
  let multi := allocate _getNewMultiBinaryContentPacketId m c in
  (forall i, (i < n)%nat ->
     own !! i = Some ((_binaryContentPacketId t + Z.of_nat i) mod 2 ^ 53)) /\
  (forall i, (i < m)%nat ->
     multi !! i = Some (- 1 - (- 1 - c + Z.of_nat i) mod MAX_SAFE_INTEGER)) /\
  (Z.of_nat n <= 2 ^ 53 -> NoDup own) /\
  (Z.of_nat m <= MAX_SAFE_INTEGER -> NoDup multi) /\
  (forall a b, a ∈ own -> b ∈ multi -> b < 0 <= a).
Proof.
  intros Hown Hmulti own multi.
  assert (Hn : length own = n).
  { apply allocate_length. intros s. unfold _getNewBinaryContentPacketId.
    eexists _, _. reflexivity. }
  assert (Hm : length multi = m).
  { apply allocate_length. intros s. unfold _getNewMultiBinaryContentPacketId.
    eexists _, _. reflexivity. }
  pose proof (fun i => allocate_packet_ids n t i Hown) as Hat.
  pose proof (fun i => allocate_multi_ids m c i Hmulti) as Hat'.
  fold own in Hat. fold multi in Hat'.
  split; [exact Hat|]. split; [exact Hat'|]. split; [|split].
  - intros Hle. apply NoDup_alt. intros i j id Hi Hj.
    assert (i < n)%nat as Hil by (rewrite <- Hn; eapply lookup_lt_Some; exact Hi).
    assert (j < n)%nat as Hjl by (rewrite <- Hn; eapply lookup_lt_Some; exact Hj).
    rewrite (Hat i Hil) in Hi. rewrite (Hat j Hjl) in Hj.
    assert (_binaryContentPacketId t + Z.of_nat i = _binaryContentPacketId t + Z.of_nat j).
    { apply (mod_inj _ _ (2 ^ 53)); [lia | congruence | lia]. }
    lia.
  - intros Hle. apply NoDup_alt. intros i j id Hi Hj.
    assert (i < m)%nat as Hil by (rewrite <- Hm; eapply lookup_lt_Some; exact Hi).
    assert (j < m)%nat as Hjl by (rewrite <- Hm; eapply lookup_lt_Some; exact Hj).
    rewrite (Hat' i Hil) in Hi. rewrite (Hat' j Hjl) in Hj.
    assert (- 1 - c + Z.of_nat i = - 1 - c + Z.of_nat j).
    { apply (mod_inj _ _ MAX_SAFE_INTEGER);
        [unfold MAX_SAFE_INTEGER; lia | | unfold MAX_SAFE_INTEGER in *; lia].
      inversion Hi. inversion Hj. lia. }
    lia.
  - intros a b Ha Hb.
    apply list_elem_of_lookup in Ha as [i Hi]. apply list_elem_of_lookup in Hb as [j Hj].
    assert (i < n)%nat as Hil by (rewrite <- Hn; eapply lookup_lt_Some; exact Hi).
    assert (j < m)%nat as Hjl by (rewrite <- Hm; eapply lookup_lt_Some; exact Hj).
    rewrite (Hat i Hil) in Hi. rewrite (Hat' j Hjl) in Hj.
    inversion Hi; subst a. inversion Hj; subst b.
    pose proof (Z.mod_pos_bound (_binaryContentPacketId t + Z.of_nat i) (2 ^ 53)
                  ltac:(lia)).
    pose proof (Z.mod_pos_bound (- 1 - c + Z.of_nat j) MAX_SAFE_INTEGER
                  ltac:(unfold MAX_SAFE_INTEGER; lia)).
    lia.
Qed.

Lemma packet_ids_never_collide_witness :
  NoDup (allocate _getNewBinaryContentPacketId 2
           (new_Transport quiet_connector DEFAULT_OPTIONS true)) /\
  NoDup (allocate _getNewMultiBinaryContentPacketId 2 (-1)).
Proof.
  destruct (packet_ids_never_collide 2 2
              (new_Transport quiet_connector DEFAULT_OPTIONS true) (-1))
    as (_ & _ & Hown & Hmulti & _).
  - unfold MAX_SAFE_INTEGER. simpl. lia.
  - unfold MIN_SAFE_INTEGER. lia.
  - split; [apply Hown | apply Hmulti]; unfold MAX_SAFE_INTEGER; simpl; lia.
Defined.

(** * More theorems: the stamp of bad connections *)

(** [emitBadConnection] sets the stamp that [_generateNewBadConnectionStamp]
    gives, whatever the callbacks it reaches do. *)
Lemma emitBadConnection_stamp (type : BadConnectionType) (msg : option string)
  (t : Transport) :
  badConnectionStamp (snd (emitBadConnection type msg t))
    = _generateNewBadConnectionStamp t.
Proof.
  assert (Hrest : frames (same badConnectionStamp) (fun t => t)
            (_ ← _rejectBinaryContentResolver (BadConnectionError type msg);
             _ ← _rejectInvokeRespPromises (BadConnectionError type msg);
             _ ← _emitBadConnectionToStreams;
             _ ← modify (set_activeReadStreams ∅);
             modify (set_activeWriteStreams ∅))).
  { unfold _rejectBinaryContentResolver, _rejectInvokeRespPromises,
      _emitBadConnectionToStreams, fail_binaries_callback, fail_callback,
      call_onInvalidMessage.
    kept_cases badConnectionStamp. }
  unfold emitBadConnection. rewrite bind_modify, bind_called, bind_modify.
  rewrite (Hrest _). destruct t; reflexivity.
Qed.

Lemma generateNewBadConnectionStamp_step (t : Transport) :
  MIN_SAFE_INTEGER <= badConnectionStamp t <= MAX_SAFE_INTEGER + 1 ->
  _generateNewBadConnectionStamp t
    = MIN_SAFE_INTEGER + (badConnectionStamp t - MIN_SAFE_INTEGER + 1) mod 2 ^ 54.
Proof.
  intros Hrange.
  unfold _generateNewBadConnectionStamp, MAX_SAFE_INTEGER, MIN_SAFE_INTEGER in *.
  destruct (Z.ltb_spec (2 ^ 53 - 1) (badConnectionStamp t)) as [Hwrap|Hin].
  - assert (badConnectionStamp t = 2 ^ 53) as -> by lia.
    replace (2 ^ 53 - - (2 ^ 53 - 1) + 1) with (2 ^ 54) by lia.
    rewrite Z.mod_same by lia. lia.
  - rewrite Z.mod_small by lia. lia.
Qed.

Lemma disconnect_all_stamp (reasons : list (BadConnectionType * option string)) :
  forall t,
    MIN_SAFE_INTEGER <= badConnectionStamp t <= MAX_SAFE_INTEGER + 1 ->
    badConnectionStamp (disconnect_all reasons t)
      = MIN_SAFE_INTEGER
        + (badConnectionStamp t - MIN_SAFE_INTEGER + Z.of_nat (length reasons)) mod 2 ^ 54.
Proof.
  induction reasons as [|r reasons IH]; intros t Hrange.
  - simpl. rewrite Z.add_0_r, Z.mod_small; unfold MAX_SAFE_INTEGER, MIN_SAFE_INTEGER in *; lia.
  - cbn [disconnect_all length].
    pose proof (emitBadConnection_stamp (fst r) (snd r) t) as Hstamp.
    rewrite (generateNewBadConnectionStamp_step t Hrange) in Hstamp.
    rewrite IH.
    + rewrite Hstamp. f_equal.
      replace (MIN_SAFE_INTEGER
               + (badConnectionStamp t - MIN_SAFE_INTEGER + 1) mod 2 ^ 54
               - MIN_SAFE_INTEGER)
        with ((badConnectionStamp t - MIN_SAFE_INTEGER + 1) mod 2 ^ 54) by lia.
      rewrite Zplus_mod_idemp_l. f_equal. lia.
    + rewrite Hstamp.
      pose proof (Z.mod_pos_bound (badConnectionStamp t - MIN_SAFE_INTEGER + 1) (2 ^ 54)
                    ltac:(lia)).
      unfold MAX_SAFE_INTEGER, MIN_SAFE_INTEGER in *. lia.
Qed.

(** X3. The stamp over many bad connections. On a transport whose stamp is
    in its range, as it is after the constructor and stays, the stamp
    after [n] calls of [emitBadConnection] is the old one moved [n] steps
    round the [2^54] values of the range, whatever the callbacks do. For
    [0 < n < 2^54] it differs from the old one, so the callbacks [end] and
    [reject] of an invoke that was delivered before these bad connections
    send nothing when they are called after them: the first call returns
    and leaves the transport as it is. *)
Theorem stamp_fences_after_disconnects {helpers : Helpers}
  (reasons : list (BadConnectionType * option string)) (t : Transport)
  (callId : Z) (u : CallbackUse) :
  MIN_SAFE_INTEGER <= badConnectionStamp t <= MAX_SAFE_INTEGER + 1 ->
  reasons <> [] ->
  Z.of_nat (length reasons) < 2 ^ 54 ->
  let t' := disconnect_all reasons t in
  badConnectionStamp t'
    = MIN_SAFE_INTEGER
      + (badConnectionStamp t - MIN_SAFE_INTEGER + Z.of_nat (length reasons)) mod 2 ^ 54 /\
  badConnectionStamp t' <> badConnectionStamp t /\
  use_callback callId (badConnectionStamp t) u
    {| scope_transport := t'; scope_called := false |}
  = (Ok tt, {| scope_transport := t'; scope_called := true |}).
Proof.
  intros Hrange Hsome Hfew t'.
  pose proof (disconnect_all_stamp reasons t Hrange) as Hstamp. fold t' in Hstamp.
  assert (Hne : badConnectionStamp t' <> badConnectionStamp t).
  { rewrite Hstamp. intros Heq.
    assert (badConnectionStamp t - MIN_SAFE_INTEGER + Z.of_nat (length reasons)
            = badConnectionStamp t - MIN_SAFE_INTEGER).
    { apply (mod_inj _ _ (2 ^ 54)); [lia | | lia].
      rewrite (Z.mod_small (badConnectionStamp t - MIN_SAFE_INTEGER));
        unfold MAX_SAFE_INTEGER, MIN_SAFE_INTEGER in *; lia. }
    destruct reasons; [contradiction | simpl in *; lia]. }
  split; [exact Hstamp|]. split; [exact Hne|].
  rewrite use_callback_cases. simpl.
  destruct (Z.eqb_spec (badConnectionStamp t) (badConnectionStamp t')) as [Heq|_];
    [symmetry in Heq; contradiction | reflexivity].
Qed.

Lemma stamp_fences_after_disconnects_witness :
  use_callback (helpers := spec_helpers) 3
    (badConnectionStamp (new_Transport quiet_connector DEFAULT_OPTIONS true))
    (UseEnd (VNumber 1) false)
    {| scope_transport :=
         disconnect_all [("lost"%string, None)]
           (new_Transport quiet_connector DEFAULT_OPTIONS true);
       scope_called := false |}
  = (Ok tt,
     {| scope_transport :=
          disconnect_all [("lost"%string, None)]
            (new_Transport quiet_connector DEFAULT_OPTIONS true);
        scope_called := true |}).
Proof.
  apply (stamp_fences_after_disconnects (helpers := spec_helpers)
           [("lost"%string, None)]
           (new_Transport quiet_connector DEFAULT_OPTIONS true) 3
           (UseEnd (VNumber 1) false)).
  - simpl. unfold MIN_SAFE_INTEGER, MAX_SAFE_INTEGER. lia.
  - discriminate.
  - simpl. lia.
Defined.

(** * More theorems: the bytes of binary frames *)

Lemma byte_value_of (v : Z) : byte_value (byte_of v) = v mod 256.
Proof.
  unfold byte_value, byte_of.
  pose proof (Z.mod_pos_bound v 256 ltac:(lia)) as Hb.
  destruct (Byte.of_N (Z.to_N (v mod 256))) as [b|] eqn:Hof; simpl.
  - apply Byte.to_of_N in Hof. rewrite Hof. lia.
  - apply Byte.of_N_None_iff in Hof. lia.
Qed.

Lemma byte_value_bound (b : byte) : 0 <= byte_value b < 256.
Proof.
  unfold byte_value. pose proof (Byte.to_N_bounded b). lia.
Qed.

Lemma be_value_snoc (l : list byte) (b : byte) : forall acc,
  be_value acc (l ++ [b]) = be_value acc l * 256 + byte_value b.
Proof.
  induction l as [|x l IH]; intros acc; [reflexivity|].
  change (be_value (acc * 256 + byte_value x) (l ++ [b])
          = be_value (acc * 256 + byte_value x) l * 256 + byte_value b).
  apply IH.
Qed.

Lemma length_uint_bytes (n : nat) : forall v, length (uint_bytes n v) = n.
Proof.
  induction n as [|n IH]; intros v; [reflexivity|].
  simpl. rewrite length_app, IH. simpl. lia.
Qed.

(** Reading the bytes of a number gives the number back, up to the width. *)
Lemma be_value_uint_bytes (n : nat) : forall v,
  be_value 0 (uint_bytes n v) = v mod 256 ^ Z.of_nat n.
Proof.
  induction n as [|n IH]; intros v.
  - simpl. rewrite Z.mod_1_r. reflexivity.
  - cbn [uint_bytes]. rewrite be_value_snoc, IH, byte_value_of.
    rewrite Nat2Z.inj_succ, Z.pow_succ_r by lia.
    rewrite (Z.rem_mul_r v 256 (256 ^ Z.of_nat n)) by lia. lia.
Qed.

(** [slice] by [take] and [drop]. *)
Lemma slice_from_take (l : list byte) : forall i from to,
  from <= i ->
  slice_from i l from to = take (Z.to_nat (to - i)) l.
Proof.
  induction l as [|b l IH]; intros i from to Hi; simpl.
  - rewrite take_nil. reflexivity.
  - destruct (Z.leb_spec from i); [|lia]. simpl.
    destruct (Z.ltb_spec i to).
    + rewrite IH by lia.
      replace (Z.to_nat (to - i)) with (S (Z.to_nat (to - (i + 1)))) by lia.
      reflexivity.
    + rewrite slice_from_past by lia.
      replace (Z.to_nat (to - i)) with O by lia. reflexivity.
Qed.

Lemma slice_from_drop (l : list byte) : forall i from to,
  i <= from ->
  slice_from i l from to = take (Z.to_nat (to - from)) (drop (Z.to_nat (from - i)) l).
Proof.
  induction l as [|b l IH]; intros i from to Hi; simpl.
  - rewrite drop_nil, take_nil. reflexivity.
  - destruct (Z.leb_spec from i); simpl.
    + assert (i = from) as -> by lia.
      replace (Z.to_nat (from - from)) with O by lia. rewrite drop_0.
      destruct (Z.ltb_spec from to).
      * rewrite slice_from_take by lia.
        replace (Z.to_nat (to - from)) with (S (Z.to_nat (to - (from + 1)))) by lia.
        reflexivity.
      * rewrite slice_from_past by lia.
        replace (Z.to_nat (to - from)) with O by lia. reflexivity.
    + rewrite IH by lia.
      replace (Z.to_nat (from - i)) with (S (Z.to_nat (from - (i + 1)))) by lia.
      reflexivity.
Qed.

Lemma slice_take_drop (l : list byte) (from to : Z) :
  0 <= from ->
  slice l from to = take (Z.to_nat (to - from)) (drop (Z.to_nat from) l).
Proof.
  intros Hfrom. unfold slice. rewrite slice_from_drop by lia.
  rewrite Z.sub_0_r. reflexivity.
Qed.

(** The part of a buffer between two others. *)
Lemma slice_middle (pre mid post : list byte) (from to : Z) :
  from = byteLength pre -> to = from + byteLength mid ->
  slice (pre ++ mid ++ post) from to = mid.
Proof.
  unfold byteLength. intros -> ->.
  rewrite slice_take_drop by lia.
  rewrite Nat2Z.id, drop_app_length.
  replace (Z.to_nat (Z.of_nat (length pre) + Z.of_nat (length mid) - Z.of_nat (length pre)))
    with (length mid) by lia.
  apply take_app_length.
Qed.

(** The rest of a buffer, when less is left than is asked for. *)
Lemma slice_rest (pre rest : list byte) (from to : Z) :
  from = byteLength pre -> from + byteLength rest <= to ->
  slice (pre ++ rest) from to = rest.
Proof.
  unfold byteLength. intros -> Hto.
  rewrite slice_take_drop by lia.
  rewrite Nat2Z.id, drop_app_length.
  apply take_ge. lia.
Qed.

Lemma div_mod_fields (q r b : Z) :
  0 <= r < b -> (q * b + r) / b = q /\ (q * b + r) mod b = r.
Proof.
  intros Hr. split.
  - symmetry. apply (Z.div_unique _ _ q r); lia.
  - symmetry. apply (Z.mod_unique _ _ q r); lia.
Qed.

(** The value of a datum by its three fields, for a biased exponent that is
    neither 0 nor 2047. *)
Lemma float64_of_fields (negative : bool) (e f : Z) :
  1 <= e <= 2046 -> 0 <= f < 2 ^ 52 ->
  float64_of_bits ((if negative then 2 ^ 63 else 0) + e * 2 ^ 52 + f) =
    if 0 <=? e - 1075
    then Integral ((if negative then -1 else 1) * ((2 ^ 52 + f) * 2 ^ (e - 1075)))
    else if (2 ^ 52 + f) mod 2 ^ (- (e - 1075)) =? 0
         then Integral ((if negative then -1 else 1)
                        * ((2 ^ 52 + f) / 2 ^ (- (e - 1075))))
         else NonIntegral ((if negative then 2 ^ 63 else 0) + e * 2 ^ 52 + f).
Proof.
  intros He Hf. unfold float64_of_bits.
  set (bits := (if negative then 2 ^ 63 else 0) + e * 2 ^ 52 + f).
  assert (Hsign : Z.testbit bits 63 = negative).
  { rewrite Z.testbit_eqb by lia.
    destruct (div_mod_fields (if negative then 1 else 0) (e * 2 ^ 52 + f) (2 ^ 63))
      as [Hq _]; [lia|].
    replace bits with ((if negative then 1 else 0) * 2 ^ 63 + (e * 2 ^ 52 + f))
      by (subst bits; destruct negative; lia).
    rewrite Hq. destruct negative; reflexivity. }
  assert (Hexp : Z.land (Z.shiftr bits 52) 2047 = e).
  { rewrite Z.shiftr_div_pow2 by lia.
    change 2047 with (Z.ones 11). rewrite Z.land_ones by lia.
    destruct (div_mod_fields ((if negative then 2048 else 0) + e) f (2 ^ 52))
      as [Hq _]; [lia|].
    replace bits with (((if negative then 2048 else 0) + e) * 2 ^ 52 + f)
      by (subst bits; destruct negative; lia).
    rewrite Hq.
    destruct (div_mod_fields (if negative then 1 else 0) e (2 ^ 11)) as [_ Hr]; [lia|].
    replace ((if negative then 2048 else 0) + e)
      with ((if negative then 1 else 0) * 2 ^ 11 + e) by (destruct negative; lia).
    exact Hr. }
  assert (Hfrac : Z.land bits (2 ^ 52 - 1) = f).
  { change (2 ^ 52 - 1) with (Z.ones 52). rewrite Z.land_ones by lia.
    destruct (div_mod_fields ((if negative then 2048 else 0) + e) f (2 ^ 52))
      as [_ Hr]; [lia|].
    replace bits with (((if negative then 2048 else 0) + e) * 2 ^ 52 + f)
      by (subst bits; destruct negative; lia).
    exact Hr. }
  rewrite Hsign, Hexp, Hfrac.
  destruct (Z.eqb_spec e 2047); [lia|]. destruct (Z.eqb_spec e 0); [lia|].
  reflexivity.
Qed.

(** The datum of an integer of at most 53 bits is read back as it is. *)
Lemma float64_round_trip (z : Z) :
  - 2 ^ 53 <= z <= 2 ^ 53 -> float64_of_bits (float64_bits z) = Integral z.
Proof.
  intros Hz. unfold float64_bits.
  destruct (Z.eqb_spec z 0) as [->|Hnz]; [reflexivity|].
  set (a := Z.abs z). set (e := Z.log2 a).
  assert (Ha : 0 < a <= 2 ^ 53) by (subst a; lia).
  pose proof (Z.log2_spec a ltac:(lia)) as Hlog. fold e in Hlog.
  assert (He : 0 <= e <= 53).
  { split; [apply Z.log2_nonneg|].
    destruct (Z.le_gt_cases e 53) as [|Hbig]; [assumption|].
    assert (2 ^ 54 <= 2 ^ e) by (apply Z.pow_le_mono_r; lia). lia. }
  rewrite Z.pow_succ_r in Hlog by lia.
  replace (if z <? 0 then 2 ^ 63 else 0)
    with (if (z <? 0) then 2 ^ 63 else 0) by reflexivity.
  destruct (Z.leb_spec e 52) as [Hsmall|Hbig].
  - assert (Hpow : 2 ^ e * 2 ^ (52 - e) = 2 ^ 52).
    { rewrite <- Z.pow_add_r by lia. f_equal. lia. }
    assert (Hp : 0 < 2 ^ (52 - e)) by (apply Z.pow_pos_nonneg; lia).
    replace (a * 2 ^ (52 - e) - 2 ^ 52) with (a * 2 ^ (52 - e) - 2 ^ 52) by reflexivity.
    rewrite (float64_of_fields (z <? 0) (e + 1023) (a * 2 ^ (52 - e) - 2 ^ 52));
      [|lia|nia].
    replace (2 ^ 52 + (a * 2 ^ (52 - e) - 2 ^ 52)) with (a * 2 ^ (52 - e)) by lia.
    replace (e + 1023 - 1075) with (e - 52) by lia.
    destruct (Z.leb_spec 0 (e - 52)).
    + assert (e = 52) as He52 by lia. rewrite He52 in *.
      change (2 ^ (52 - 52)) with 1. change (2 ^ (52 - 52)) with 1 in *.
      f_equal. subst a. destruct (Z.ltb_spec z 0); lia.
    + replace (- (e - 52)) with (52 - e) by lia.
      rewrite Z.mod_mul by lia. rewrite Z.eqb_refl.
      rewrite Z.div_mul by lia.
      f_equal. subst a. destruct (Z.ltb_spec z 0); lia.
  - assert (e = 53) as He53 by lia. rewrite He53 in *.
    assert (a = 2 ^ 53) as Ha53 by lia. rewrite Ha53.
    change (2 ^ 53 / 2 ^ (53 - 52) - 2 ^ 52) with 0.
    rewrite (float64_of_fields (z <? 0) (53 + 1023) 0) by lia.
    change (0 <=? 53 + 1023 - 1075) with true. cbv beta iota.
    change ((2 ^ 52 + 0) * 2 ^ (53 + 1023 - 1075)) with (2 ^ 53).
    f_equal. subst a. destruct (Z.ltb_spec z 0); lia.
Qed.

Lemma float64_bits_bound (z : Z) :
  - 2 ^ 53 <= z <= 2 ^ 53 -> 0 <= float64_bits z < 2 ^ 64.
Proof.
  intros Hz. unfold float64_bits.
  destruct (Z.eqb_spec z 0) as [->|Hnz]; [lia|].
  set (a := Z.abs z). set (e := Z.log2 a).
  assert (Ha : 0 < a <= 2 ^ 53) by (subst a; lia).
  pose proof (Z.log2_spec a ltac:(lia)) as Hlog. fold e in Hlog.
  assert (He : 0 <= e <= 53).
  { split; [apply Z.log2_nonneg|].
    destruct (Z.le_gt_cases e 53) as [|Hbig]; [assumption|].
    assert (2 ^ 54 <= 2 ^ e) by (apply Z.pow_le_mono_r; lia). lia. }
  rewrite Z.pow_succ_r in Hlog by lia.
  assert (Hsig : 2 ^ 52 <= (if e <=? 52 then a * 2 ^ (52 - e) else a / 2 ^ (e - 52))
                 < 2 ^ 53).
  { destruct (Z.leb_spec e 52) as [Hsmall|Hbig].
    - assert (Hpow : 2 ^ e * 2 ^ (52 - e) = 2 ^ 52).
      { rewrite <- Z.pow_add_r by lia. f_equal. lia. }
      assert (Hp : 0 < 2 ^ (52 - e)) by (apply Z.pow_pos_nonneg; lia).
      nia.
    - assert (e = 53) as He53 by lia. rewrite He53 in *.
      assert (a = 2 ^ 53) as -> by lia.
      change (2 ^ 53 / 2 ^ (53 - 52)) with (2 ^ 52). lia. }
  destruct (z <? 0); lia.
Qed.

Lemma byteLength_app (a b : list byte) : byteLength (a ++ b) = byteLength a + byteLength b.
Proof. unfold byteLength. rewrite length_app. lia. Qed.

Lemma byteLength_setFloat64 (z : Z) : byteLength (setFloat64 z) = 8.
Proof. unfold byteLength, setFloat64. rewrite length_uint_bytes. reflexivity. Qed.

Lemma byteLength_setUint32 (v : Z) : byteLength (setUint32 v) = 4.
Proof. unfold byteLength, setUint32. rewrite length_uint_bytes. reflexivity. Qed.

Lemma byteLength_nonneg (l : list byte) : 0 <= byteLength l.
Proof. unfold byteLength. lia. Qed.

(** [getFloat64] on what [setFloat64] wrote. *)
Lemma getFloat64_set (pre rest : list byte) (z : Z) :
  - 2 ^ 53 <= z <= 2 ^ 53 ->
  getFloat64 (pre ++ setFloat64 z ++ rest) (byteLength pre) = Ok (Integral z).
Proof.
  intros Hz. unfold getFloat64.
  rewrite !byteLength_app, byteLength_setFloat64.
  pose proof (byteLength_nonneg pre). pose proof (byteLength_nonneg rest).
  destruct (Z.leb_spec 0 (byteLength pre)); [|lia].
  destruct (Z.leb_spec (byteLength pre + 8) (byteLength pre + (8 + byteLength rest)));
    [|lia].
  simpl. rewrite (slice_middle pre (setFloat64 z) rest);
    [|reflexivity | rewrite byteLength_setFloat64; lia].
  unfold setFloat64. rewrite be_value_uint_bytes.
  pose proof (float64_bits_bound z Hz).
  rewrite Z.mod_small by (change (256 ^ Z.of_nat 8) with (2 ^ 64); lia).
  rewrite float64_round_trip by lia. reflexivity.
Qed.

(** [getUint32] on what [setUint32] wrote. *)
Lemma getUint32_set (pre rest : list byte) (v : Z) :
  0 <= v < 2 ^ 32 ->
  getUint32 (pre ++ setUint32 v ++ rest) (byteLength pre) = Ok v.
Proof.
  intros Hv. unfold getUint32.
  rewrite !byteLength_app, byteLength_setUint32.
  pose proof (byteLength_nonneg pre). pose proof (byteLength_nonneg rest).
  destruct (Z.leb_spec 0 (byteLength pre)); [|lia].
  destruct (Z.leb_spec (byteLength pre + 4) (byteLength pre + (4 + byteLength rest)));
    [|lia].
  simpl. rewrite (slice_middle pre (setUint32 v) rest);
    [|reflexivity | rewrite byteLength_setUint32; lia].
  unfold setUint32. rewrite be_value_uint_bytes.
  rewrite Z.mod_small by (change (256 ^ Z.of_nat 4) with (2 ^ 32); lia).
  reflexivity.
Qed.

(** The loop of [_processBinaryContentPacket] over items that were written
    behind their lengths: it collects the items and goes on behind them. *)
Lemma scan_written_items (hasResolver : bool) (content : list (list byte)) :
  forall (pre rest : list byte) (acc : list (list byte)) (last : option Z) (fuel : nat),
    Forall (fun item => byteLength item <= MAX_SUPPORTED_ARRAY_BUFFER_SIZE) content ->
    scan_binaries_loop (length content + fuel)
      (pre ++ concat ((fun item => setUint32 (byteLength item) ++ item) <$> content) ++ rest)
      hasResolver (byteLength pre) acc last
    = scan_binaries_loop fuel
        (pre ++ concat ((fun item => setUint32 (byteLength item) ++ item) <$> content)
             ++ rest)
        hasResolver
        (byteLength pre
         + byteLength (concat ((fun item => setUint32 (byteLength item) ++ item)
                                 <$> content)))
        (if hasResolver then acc ++ content else acc)
        (fold_left (fun _ item => Some (byteLength item)) content last).
Proof.
  induction content as [|item content IH]; intros pre rest acc last fuel Hsmall.
  - simpl. rewrite Z.add_0_r. destruct hasResolver; [rewrite app_nil_r|]; reflexivity.
  - apply Forall_cons in Hsmall as [Hitem Hsmall].
    rewrite fmap_cons. cbn [concat length Nat.add fold_left].
    set (body := concat ((fun item => setUint32 (byteLength item) ++ item) <$> content)).
    set (view := pre ++ ((setUint32 (byteLength item) ++ item) ++ body) ++ rest).
    assert (Hview : view = pre ++ setUint32 (byteLength item) ++ (item ++ body ++ rest)).
    { subst view. rewrite <- !app_assoc. reflexivity. }
    assert (Hview' : view = (pre ++ setUint32 (byteLength item) ++ item) ++ body ++ rest).
    { subst view. rewrite <- !app_assoc. reflexivity. }
    pose proof (byteLength_nonneg pre). pose proof (byteLength_nonneg item).
    pose proof (byteLength_nonneg body). pose proof (byteLength_nonneg rest).
    unfold scan_binaries_loop at 1; fold scan_binaries_loop.
    assert (Hlen : byteLength view
                   = byteLength pre + 4 + byteLength item + byteLength body
                     + byteLength rest).
    { rewrite Hview. rewrite !byteLength_app, byteLength_setUint32. lia. }
    destruct (Z.ltb_spec (byteLength pre) (byteLength view)); [|lia].
    unfold MAX_SUPPORTED_ARRAY_BUFFER_SIZE, MAX_UINT_32 in Hitem.
    assert (Hget : getUint32 view (byteLength pre) = Ok (byteLength item))
      by (rewrite Hview; apply getUint32_set; lia).
    rewrite Hget.
    unfold NEXT_BINARIES_PACKET_TOKEN, MAX_UINT_32.
    destruct (Z.eqb_spec (byteLength item) 4294967295); [lia|].
    assert (Hslice : slice view (byteLength pre + 4) (byteLength pre + 4 + byteLength item)
                     = item).
    { rewrite Hview, app_assoc.
      apply slice_middle; [rewrite byteLength_app, byteLength_setUint32; lia | lia]. }
    rewrite Hslice.
    replace (byteLength pre + 4 + byteLength item)
      with (byteLength (pre ++ setUint32 (byteLength item) ++ item))
      by (rewrite !byteLength_app, byteLength_setUint32; lia).
    rewrite Hview'. rewrite IH by exact Hsmall. fold body.
    rewrite !byteLength_app, byteLength_setUint32.
    f_equal; [lia|].
    destruct hasResolver; [rewrite <- app_assoc|]; reflexivity.
Qed.

Lemma last_length_is_no_token (content : list (list byte)) : forall last,
  Forall (fun item => byteLength item <= MAX_SUPPORTED_ARRAY_BUFFER_SIZE) content ->
  last <> Some NEXT_BINARIES_PACKET_TOKEN ->
  fold_left (fun _ item => Some (byteLength item)) content last
    <> Some NEXT_BINARIES_PACKET_TOKEN.
Proof.
  induction content as [|item content IH]; intros last Hsmall Hlast; [exact Hlast|].
  apply Forall_cons in Hsmall as [Hitem Hsmall]. simpl. apply IH; [exact Hsmall|].
  unfold MAX_SUPPORTED_ARRAY_BUFFER_SIZE, NEXT_BINARIES_PACKET_TOKEN in *.
  intros Heq. inversion Heq. lia.
Qed.

Lemma check_sizes_ok (content : list (list byte)) :
  check_sizes content = Ok tt <->
  Forall (fun item => byteLength item <= MAX_SUPPORTED_ARRAY_BUFFER_SIZE) content.
Proof.
  induction content as [|item content IH]; simpl.
  - split; [intros _; apply Forall_nil_2 | reflexivity].
  - destruct (Z.ltb_spec MAX_SUPPORTED_ARRAY_BUFFER_SIZE (byteLength item)).
    + split; [discriminate|]. intros H'. apply Forall_cons in H' as [? _]. lia.
    + rewrite IH. split; [intros; apply Forall_cons; split; [lia | assumption]|].
      intros H'. apply Forall_cons in H' as [_ ?]. assumption.
Qed.

Lemma scan_at_end (fuel : nat) (view : list byte) (hasResolver : bool) (offset : Z)
  (binaries : list (list byte)) (binaryLen : option Z) :
  byteLength view <= offset ->
  scan_binaries_loop fuel view hasResolver offset binaries binaryLen
    = Some (Ok {| scan_offset := offset; scan_binaries := binaries;
                  scan_binaryLen := binaryLen |}).
Proof.
  intros Hend. destruct fuel; unfold scan_binaries_loop;
    destruct (Z.ltb_spec offset (byteLength view)); (lia || reflexivity).
Qed.

Lemma length_setUint32 (v : Z) : length (setUint32 v) = 4%nat.
Proof. apply length_uint_bytes. Qed.

Lemma length_written_items (content : list (list byte)) :
  (length content
   <= length (concat ((fun item => setUint32 (byteLength item) ++ item) <$> content)))%nat.
Proof.
  induction content as [|item content IH]; [reflexivity|].
  rewrite fmap_cons. cbn [concat]. rewrite !length_app.
  rewrite length_setUint32. cbn [length]. lia.
Qed.

(** The loop over a frame that ends with its last item. *)
Lemma scan_written_frame (hasResolver : bool) (content : list (list byte))
  (pre : list byte) (fuel : nat) :
  Forall (fun item => byteLength item <= MAX_SUPPORTED_ARRAY_BUFFER_SIZE) content ->
  (length content <= fuel)%nat ->
  exists s,
    scan_binaries_loop fuel
      (pre ++ concat ((fun item => setUint32 (byteLength item) ++ item) <$> content))
      hasResolver (byteLength pre) [] None = Some (Ok s) /\
    scan_binaries s = (if hasResolver then content else []) /\
    scan_binaryLen s <> Some NEXT_BINARIES_PACKET_TOKEN.
Proof.
  intros Hsmall Hfuel.
  replace fuel with (length content + (fuel - length content))%nat by lia.
  rewrite <- (app_nil_r (concat _)).
  rewrite scan_written_items by exact Hsmall.
  rewrite scan_at_end.
  - eexists. split; [reflexivity|]. simpl. split; [reflexivity|].
    apply last_length_is_no_token; [exact Hsmall | discriminate].
  - rewrite !byteLength_app. change (byteLength (@nil byte)) with 0. lia.
Qed.

(** The loop over a frame that was cut in its last item: the item is
    collected as far as it goes. *)
Lemma scan_cut_frame (hasResolver : bool) (content : list (list byte))
  (pre partial : list byte) (n : Z) (fuel : nat) :
  Forall (fun item => byteLength item <= MAX_SUPPORTED_ARRAY_BUFFER_SIZE) content ->
  byteLength partial < n <= MAX_SUPPORTED_ARRAY_BUFFER_SIZE ->
  (length content < fuel)%nat ->
  exists s,
    scan_binaries_loop fuel
      (pre ++ concat ((fun item => setUint32 (byteLength item) ++ item) <$> content)
           ++ setUint32 n ++ partial)
      hasResolver (byteLength pre) [] None = Some (Ok s) /\
    scan_binaries s = (if hasResolver then content ++ [partial] else []) /\
    scan_binaryLen s <> Some NEXT_BINARIES_PACKET_TOKEN.
Proof.
  intros Hsmall Hn Hfuel.
  replace fuel with (length content + S (fuel - length content - 1))%nat by lia.
  rewrite scan_written_items by exact Hsmall.
  set (body := concat ((fun item => setUint32 (byteLength item) ++ item) <$> content)).
  set (view := pre ++ body ++ setUint32 n ++ partial).
  assert (Hview : view = (pre ++ body) ++ setUint32 n ++ partial)
    by (subst view; rewrite <- !app_assoc; reflexivity).
  pose proof (byteLength_nonneg pre). pose proof (byteLength_nonneg body).
  pose proof (byteLength_nonneg partial).
  assert (Hlen : byteLength view = byteLength pre + byteLength body + 4 + byteLength partial).
  { rewrite Hview. rewrite !byteLength_app, byteLength_setUint32. lia. }
  unfold scan_binaries_loop at 1; fold scan_binaries_loop.
  destruct (Z.ltb_spec (byteLength pre + byteLength body) (byteLength view)); [|lia].
  unfold MAX_SUPPORTED_ARRAY_BUFFER_SIZE, MAX_UINT_32 in Hn.
  assert (Hget : getUint32 view (byteLength pre + byteLength body) = Ok n).
  { rewrite Hview, <- byteLength_app. apply getUint32_set. lia. }
  rewrite Hget. unfold NEXT_BINARIES_PACKET_TOKEN, MAX_UINT_32.
  destruct (Z.eqb_spec n 4294967295); [lia|].
  assert (Hslice : slice view (byteLength pre + byteLength body + 4)
                     (byteLength pre + byteLength body + 4 + n) = partial).
  { rewrite Hview, app_assoc. apply slice_rest.
    - rewrite !byteLength_app, byteLength_setUint32. lia.
    - lia. }
  rewrite Hslice, scan_at_end by lia.
  eexists. split; [reflexivity|]. simpl. split.
  - destruct hasResolver; reflexivity.
  - intros Heq. inversion Heq. lia.
Qed.

Lemma byte_value_code (p : PacketType) : byte_value (byte_of (PacketType_code p)) = PacketType_code p.
Proof. destruct p; reflexivity. Qed.

(** A binary content packet that starts behind the header byte of a frame
    and was written for the identifier [refId], on a transport that has a
    resolver for it. *)
Lemma process_written_content {helpers : Helpers} (refId : Z) (body : list byte)
  (binaries : list (list byte)) (t : Transport) (r : BinaryContentResolver) (s : Scan) :
  - 2 ^ 53 <= refId <= 2 ^ 53 ->
  _binaryContentResolver t !! number_key refId = Some r ->
  scan_binaries_loop
    (length (byte_of (PacketType_code BinaryContent) :: setFloat64 refId ++ body))
    (byte_of (PacketType_code BinaryContent) :: setFloat64 refId ++ body)
    true 9 [] None = Some (Ok s) ->
  scan_binaries s = binaries ->
  scan_binaryLen s <> Some NEXT_BINARIES_PACKET_TOKEN ->
  emitMessage
    (RawBinary (byte_of (PacketType_code BinaryContent) :: setFloat64 refId ++ body)) t
  = try_catch (fire_resolver (number_key refId) r binaries) call_onInvalidMessage t.
Proof.
  intros Hid Hresolver Hscan Hbinaries Hlast.
  set (view := byte_of (PacketType_code BinaryContent) :: setFloat64 refId ++ body) in *.
  assert (Hfloat : getFloat64 view 1 = Ok (Integral refId)).
  { apply (getFloat64_set [byte_of (PacketType_code BinaryContent)] body refId Hid). }
  assert (Hname : float_name (Integral refId) = number_key refId)
    by (apply float_name_integral; lia).
  assert (Hfind : find_resolver (Integral refId) t = Own r).
  { unfold find_resolver. rewrite Hname. apply registry_get_own. exact Hresolver. }
  assert (Hpacket : processBinaryContentPacket view 1 t
                    = fire_resolver (number_key refId) r binaries t).
  { rewrite (processBinaryContentPacket_unfold view 1 t (Integral refId) s Hfloat);
      rewrite Hfind; [|exact Hscan].
    rewrite Hbinaries, Hname.
    destruct (fire_resolver (number_key refId) r binaries t) as [[[]|e] t']; [|reflexivity].
    destruct (decide (scan_binaryLen s = Some NEXT_BINARIES_PACKET_TOKEN));
      [contradiction | reflexivity]. }
  assert (Hlong : (9 <= length view)%nat).
  { subst view. cbn [length]. rewrite length_app. unfold setFloat64.
    rewrite length_uint_bytes. lia. }
  assert (Hbin : _processBinaryPacket view t = fire_resolver (number_key refId) r binaries t).
  { unfold _processBinaryPacket. subst view. cbv beta iota.
    rewrite byte_value_code, Z.eqb_refl. exact Hpacket. }
  clearbody view. unfold emitMessage, try_catch.
  destruct view as [|b [|c rest]]; try (simpl in Hlong; lia).
  rewrite Hbin. reflexivity.
Qed.

(** X4. Binary content frames: what the writer wrote, the reader reads.
    When [_createBinaryContentPacket] returns a frame for the identifier
    [refId] (an integer of at most 53 bits, as the allocators give) and the
    binaries [content], then processing the bytes of this frame on a
    transport that has a resolver for [refId] takes the resolver out,
    clears its timer and calls it with exactly the binaries [content];
    what the callback throws goes to [onInvalidMessage]. *)
Theorem binary_content_frame_round_trip {helpers : Helpers} (refId : Z)
  (content : list (list byte)) (msg : Message) (t : Transport)
  (r : BinaryContentResolver) :
  _createBinaryContentPacket refId content = Ok msg ->
  - 2 ^ 53 <= refId <= 2 ^ 53 ->
  _binaryContentResolver t !! number_key refId = Some r ->
  exists bytes,
    frame_bytes msg = Some bytes /\
    emitMessage (RawBinary bytes) t
      = try_catch (fire_resolver (number_key refId) r content) call_onInvalidMessage t /\
    (exists more,
       calls (snd (fire_resolver (number_key refId) r content t)) = calls t ++
         [Called_clearTimeout (Some (resolver_timeout r));
          Called_resolverCallback (number_key refId) None content] ++ more) /\
    _binaryContentResolver (snd (fire_resolver (number_key refId) r content t)) !! number_key refId
      = None.
Proof.
  intros Hcreate Hid Hresolver.
  unfold _createBinaryContentPacket in Hcreate.
  destruct (check_sizes content) as [[]|e] eqn:Hsizes; [|discriminate Hcreate].
  inversion Hcreate; subst msg. clear Hcreate.
  apply check_sizes_ok in Hsizes.
  eexists. split; [reflexivity|].
  destruct (fire_resolver_continues (number_key refId) r content t) as [Hcalls Hgone].
  split; [|split; [exact Hcalls | exact Hgone]].
  set (body := concat ((fun item => setUint32 (byteLength item) ++ item) <$> content)).
  destruct (scan_written_frame true content
              (byte_of (PacketType_code BinaryContent) :: setFloat64 refId)
              (length (byte_of (PacketType_code BinaryContent) :: setFloat64 refId ++ body))
              Hsizes) as (s & Hscan & Hbinaries & Hlast).
  { cbn [length]. rewrite length_app. pose proof (length_written_items content).
    fold body in H. lia. }
  apply (process_written_content refId body content t r s Hid Hresolver);
    [|exact Hbinaries | exact Hlast].
  exact Hscan.
Qed.

Lemma binary_content_frame_round_trip_witness :
  exists bytes,
    frame_bytes (BinaryContentMessage 1 [[xaa]; []]) = Some bytes /\
    emitMessage (helpers := spec_helpers) (RawBinary bytes) awaiting_binary_one
      = try_catch
          (fire_resolver (helpers := spec_helpers) "1"
             {| callback := FirstBinary (TransmitCallback "r" (KnownType Binary));
                resolver_timeout := {| delay := 10000 |} |} [[xaa]; []])
          call_onInvalidMessage awaiting_binary_one.
Proof.
  destruct (binary_content_frame_round_trip (helpers := spec_helpers) 1 [[xaa]; []]
              (BinaryContentMessage 1 [[xaa]; []]) awaiting_binary_one
              {| callback := FirstBinary (TransmitCallback "r" (KnownType Binary));
                 resolver_timeout := {| delay := 10000 |} |})
    as (bytes & Hbytes & Hrun & _).
  - reflexivity.
  - lia.
  - reflexivity.
  - exists bytes. split; [exact Hbytes | exact Hrun].
Defined.

(** X5. A binary content frame that was cut inside its last item. The
    length field promises more bytes than the frame holds;
    [buffer.slice] returns the bytes that are there, so the resolver is
    called, without any error, with the items before and with the last
    item as far as it goes. *)
Theorem cut_binary_content_frame_is_delivered_short {helpers : Helpers} (refId : Z)
  (content : list (list byte)) (item : list byte) (m : nat) (t : Transport)
  (r : BinaryContentResolver) :
  check_sizes (content ++ [item]) = Ok tt ->
  (m < length item)%nat ->
  - 2 ^ 53 <= refId <= 2 ^ 53 ->
  _binaryContentResolver t !! number_key refId = Some r ->
  emitMessage
    (RawBinary
       (byte_of (PacketType_code BinaryContent) :: setFloat64 refId
          ++ concat ((fun item => setUint32 (byteLength item) ++ item) <$> content)
          ++ setUint32 (byteLength item) ++ take m item)) t
  = try_catch (fire_resolver (number_key refId) r (content ++ [take m item]))
      call_onInvalidMessage t.
Proof.
  intros Hsizes Hm Hid Hresolver.
  apply check_sizes_ok in Hsizes. apply Forall_app in Hsizes as [Hcontent Hitem].
  apply Forall_cons in Hitem as [Hitem _].
  set (body := concat ((fun item => setUint32 (byteLength item) ++ item) <$> content)).
  assert (Hcut : byteLength (take m item) < byteLength item).
  { unfold byteLength. rewrite length_take. lia. }
  destruct (scan_cut_frame true content
              (byte_of (PacketType_code BinaryContent) :: setFloat64 refId)
              (take m item) (byteLength item)
              (length (byte_of (PacketType_code BinaryContent) :: setFloat64 refId
                         ++ body ++ setUint32 (byteLength item) ++ take m item))
              Hcontent) as (s & Hscan & Hbinaries & Hlast).
  { lia. }
  { cbn [length]. rewrite !length_app, length_setUint32.
    pose proof (length_written_items content). fold body in H. lia. }
  apply (process_written_content refId _ _ t r s Hid Hresolver);
    [|exact Hbinaries | exact Hlast].
  exact Hscan.
Qed.

Lemma cut_binary_content_frame_witness :
  emitMessage (helpers := spec_helpers)
    (RawBinary
       (byte_of (PacketType_code BinaryContent) :: setFloat64 1
          ++ concat ((fun item => setUint32 (byteLength item) ++ item) <$> [])
          ++ setUint32 (byteLength [xaa; xbb; xcc]) ++ take 1 [xaa; xbb; xcc]))
    awaiting_binary_one
  = try_catch
      (fire_resolver (helpers := spec_helpers) "1"
         {| callback := FirstBinary (TransmitCallback "r" (KnownType Binary));
            resolver_timeout := {| delay := 10000 |} |}
         ([] ++ [take 1 [xaa; xbb; xcc]]))
      call_onInvalidMessage awaiting_binary_one.
Proof.
  apply (cut_binary_content_frame_is_delivered_short (helpers := spec_helpers) 1 []
           [xaa; xbb; xcc] 1 awaiting_binary_one
           {| callback := FirstBinary (TransmitCallback "r" (KnownType Binary));
              resolver_timeout := {| delay := 10000 |} |}).
  - reflexivity.
  - simpl. lia.
  - lia.
  - reflexivity.
Defined.

Lemma read_stream_id_written (header : byte) (streamId : Z) (binary : list byte) :
  - 2 ^ 53 <= streamId <= 2 ^ 53 ->
  read_stream_id (header :: float64_host_bytes streamId ++ binary)
    = Ok (Some (Integral streamId)).
Proof.
  intros Hid. unfold read_stream_id.
  assert (Hslice : slice (header :: float64_host_bytes streamId ++ binary) 1 9
                   = float64_host_bytes streamId).
  { apply (slice_middle [header] (float64_host_bytes streamId) binary); [reflexivity|].
    unfold float64_host_bytes, byteLength. rewrite length_rev.
    unfold setFloat64. rewrite length_uint_bytes. reflexivity. }
  rewrite Hslice. unfold float64_host_bytes at 1.
  rewrite length_rev. unfold setFloat64 at 1. rewrite length_uint_bytes.
  unfold float64_host_bytes. rewrite rev_involutive.
  unfold setFloat64. rewrite be_value_uint_bytes.
  pose proof (float64_bits_bound streamId Hid).
  rewrite Z.mod_small by (change (256 ^ Z.of_nat 8) with (2 ^ 64); lia).
  rewrite float64_round_trip by lia. reflexivity.
Qed.

Lemma slice_behind_id (header : byte) (streamId : Z) (binary : list byte) :
  slice (header :: float64_host_bytes streamId ++ binary) 9
    (byteLength (header :: float64_host_bytes streamId ++ binary)) = binary.
Proof.
  assert (Hlen : byteLength (header :: float64_host_bytes streamId) = 9).
  { unfold byteLength, float64_host_bytes. cbn [length]. rewrite length_rev.
    unfold setFloat64. rewrite length_uint_bytes. reflexivity. }
  change (header :: float64_host_bytes streamId ++ binary)
    with ((header :: float64_host_bytes streamId) ++ binary).
  apply slice_rest; [symmetry; exact Hlen|].
  rewrite byteLength_app. lia.
Qed.

(** X6. Binary stream chunks: what the writer wrote, the reader reads.
    The frame that [_sendBinaryStreamChunk] hands to [send] for the stream
    [streamId] (an integer of at most 53 bits), processed by a transport
    that has a read stream under this identifier, pushes exactly the bytes
    [binary] to that stream as a binary chunk and, for an end, ends the
    stream after it; nothing else is called and the call returns. The
    sender makes this one call of [send] and returns or throws as [send]
    does. *)
Theorem binary_stream_chunk_round_trip {helpers : Helpers} (streamId : Z)
  (binary : list byte) (end_ : bool) (sender t : Transport) (stream : ReadStream) :
  - 2 ^ 53 <= streamId <= 2 ^ 53 ->
  _activeReadStreams t !! number_key streamId = Some stream ->
  exists msg bytes,
    _sendBinaryStreamChunk streamId binary end_ sender
      = (match connector_send (connector sender) msg with
         | None => Ok tt
         | Some e => Throw e
         end, record_calls [Called_send msg] sender) /\
    frame_bytes msg = Some bytes /\
    emitMessage (RawBinary bytes) t
      = (Ok tt,
         record_calls
           (Called_readStream stream (rs_pushBinaryChunk binary)
              :: if end_ then [Called_readStream stream rs_end] else []) t).
Proof.
  intros Hid Hstream.
  assert (Hfound : registry_get (_activeReadStreams t)
                     (stream_key (Some (Integral streamId))) = Own stream).
  { cbn [stream_key]. rewrite float_name_integral by lia.
    apply registry_get_own. exact Hstream. }
  eexists _, _. split; [apply send_run|]. split; [reflexivity|].
  set (header := byte_of (PacketType_code (if end_ then StreamEnd else StreamChunk))).
  set (frame := header :: float64_host_bytes streamId ++ binary).
  assert (Hlong : (9 <= length frame)%nat).
  { subst frame. cbn [length]. rewrite length_app. unfold float64_host_bytes.
    rewrite length_rev. unfold setFloat64. rewrite length_uint_bytes. lia. }
  assert (Hbin : _processBinaryPacket frame t
                 = (Ok tt,
                    record_calls
                      (Called_readStream stream (rs_pushBinaryChunk binary)
                         :: if end_ then [Called_readStream stream rs_end] else []) t)).
  { unfold _processBinaryPacket. subst frame. cbv beta iota.
    rewrite (read_stream_id_written header streamId binary Hid).
    rewrite slice_behind_id.
    subst header. rewrite byte_value_code.
    unfold _processBinaryStreamChunk, _processBinaryStreamEnd.
    destruct end_; cbv beta iota.
    - change (PacketType_code StreamEnd =? PacketType_code BinaryContent) with false.
      change (PacketType_code StreamEnd =? PacketType_code StreamChunk) with false.
      change (PacketType_code StreamEnd =? PacketType_code StreamEnd) with true.
      cbv beta iota.
      unfold lift_result. rewrite (bind_ok _ _ _ t (Some (Integral streamId))) by reflexivity.
      rewrite bind_gets, Hfound.
      rewrite bind_called, called_records, record_calls_app. reflexivity.
    - change (PacketType_code StreamChunk =? PacketType_code BinaryContent) with false.
      change (PacketType_code StreamChunk =? PacketType_code StreamChunk) with true.
      cbv beta iota.
      unfold lift_result. rewrite (bind_ok _ _ _ t (Some (Integral streamId))) by reflexivity.
      rewrite bind_gets, Hfound.
      rewrite called_records. reflexivity. }
  change (frame_bytes _) with (Some frame) in *.
  clearbody frame. unfold emitMessage, try_catch.
  destruct frame as [|b [|c rest]]; try (simpl in Hlong; lia).
  rewrite Hbin. reflexivity.
Qed.

Lemma binary_stream_chunk_round_trip_witness :
  exists msg bytes,
    _sendBinaryStreamChunk 2 [xaa; xbb] true
      (new_Transport quiet_connector DEFAULT_OPTIONS true)
      = (Ok tt, record_calls [Called_send msg]
                  (new_Transport quiet_connector DEFAULT_OPTIONS true)) /\
    frame_bytes msg = Some bytes /\
    emitMessage (helpers := spec_helpers) (RawBinary bytes) busy_transport
      = (Ok tt,
         record_calls
           [Called_readStream {| rs_id := Some 2 |} (rs_pushBinaryChunk [xaa; xbb]);
            Called_readStream {| rs_id := Some 2 |} rs_end] busy_transport).
Proof.
  apply (binary_stream_chunk_round_trip (helpers := spec_helpers) 2 [xaa; xbb] true
           (new_Transport quiet_connector DEFAULT_OPTIONS true) busy_transport
           {| rs_id := Some 2 |}).
  - lia.
  - reflexivity.
Defined.

(** * More theorems: what inbound messages leave of the transport *)

Section FramesOfDispatch.
Context (R : Transport -> Transport -> Prop) `{!Respected R} {helpers : Helpers}.
Hypothesis respected_resolvers : forall x t, R t (set_binaryContentResolver x t).
Hypothesis respected_delivery :
  forall k binaries t, R t (snd (called (Called_resolverCallback k None binaries) t)).

Lemma frames_fail_callback (k : DataCallback) (e : Error) :
  frames R (fun t => t) (fail_callback k e).
Proof. unfold fail_callback, call_onInvalidMessage. frames_cases. Qed.

Lemma frames_call_onInvalidMessage (e : Error) :
  frames R (fun t => t) (call_onInvalidMessage e).
Proof. unfold call_onInvalidMessage. frames_cases. Qed.

Lemma frames_resolveBinaryContent (id : value) (cb : BinariesCallback) :
  frames R (fun t => t) (_resolveBinaryContent id cb).
Proof.
  unfold _resolveBinaryContent. frames_cases.
  apply (frames_modify R). intros t. apply respected_resolvers.
Qed.

Lemma frames_processData (type : TypeSlot) (data meta : value) (cb : DataCallback) :
  frames R (fun t => t) (_processData type data meta cb).
Proof.
  unfold _processData. frames_step; [frames_step|].
  frames_cases;
    first [ apply (frames_run_callback R) | apply frames_fail_callback
          | apply frames_resolveBinaryContent ].
Qed.

Lemma frames_fire_resolver (id : string) (r : BinaryContentResolver)
  (binaries : list (list byte)) :
  frames R (fun t => t) (fire_resolver id r binaries).
Proof.
  unfold fire_resolver.
  frames_step; [apply (frames_modify R); intros t; apply respected_resolvers|].
  frames_step; [frames_step|].
  frames_step; [intros t; apply respected_delivery|].
  apply (frames_run_binaries_callback R).
Qed.

Lemma frames_fire_inherited : frames R (fun t => t) fire_inherited.
Proof. unfold fire_inherited. frames_cases. Qed.

Lemma frames_processBinaryContentPacket_fuel (fuel : nat) (view : list byte) :
  forall offset t r,
    _processBinaryContentPacket fuel view offset t = Some r -> R t (snd r).
Proof.
  induction fuel as [|fuel IH]; intros offset t r; [discriminate|].
  unfold _processBinaryContentPacket; fold _processBinaryContentPacket.
  destruct (getFloat64 view offset) as [id|e];
    [|intros H; inversion H; apply respected_refl].
  match goal with |- context [scan_binaries_loop fuel view ?h ?o ?b ?l] =>
    destruct (scan_binaries_loop fuel view h o b l) as [[s|e]|]
  end; [|intros H; inversion H; apply respected_refl | discriminate].
  assert (Hfired : R t (snd (match find_resolver id t with
                             | Own r0 => fire_resolver (float_name id) r0 (scan_binaries s) t
                             | Inherited => fire_inherited t
                             | Absent => (Ok tt, t)
                             end))).
  { destruct (find_resolver id t) as [r0| |];
      [apply frames_fire_resolver | apply frames_fire_inherited | apply respected_refl]. }
  destruct (match find_resolver id t with
            | Own r0 => fire_resolver (float_name id) r0 (scan_binaries s) t
            | Inherited => fire_inherited t
            | Absent => (Ok tt, t)
            end) as [[[]|e] t']; simpl in Hfired;
    [|intros H; inversion H; exact Hfired].
  destruct (decide (scan_binaryLen s = Some NEXT_BINARIES_PACKET_TOKEN)).
  - intros H. eapply respected_trans; [exact Hfired | eapply IH; exact H].
  - intros H. inversion H. exact Hfired.
Qed.

Lemma frames_processBinaryContentPacket (view : list byte) (offset : Z) :
  frames R (fun t => t) (processBinaryContentPacket view offset).
Proof.
  intros t. unfold processBinaryContentPacket.
  destruct (_processBinaryContentPacket (S (length view)) view offset t) as [r|] eqn:Hrun.
  - eapply frames_processBinaryContentPacket_fuel. exact Hrun.
  - apply respected_refl.
Qed.

Lemma frames_processBinaryPacket (buffer : list byte) :
  frames R (fun t => t) (_processBinaryPacket buffer).
Proof.
  unfold _processBinaryPacket, _processBinaryStreamChunk, _processBinaryStreamEnd.
  frames_cases;
    first [ apply frames_processBinaryContentPacket
          | apply frames_call_onInvalidMessage ].
Qed.

Lemma frames_chunk_promise (streamId : string) (type : TypeSlot) (data meta : value) :
  frames R (fun t => t) (chunk_promise streamId type data meta).
Proof.
  unfold chunk_promise. frames_cases;
    first [apply frames_fail_callback | apply frames_processData].
Qed.

Lemma frames_processJsonActionPacket (packet : ActionPacket) :
  frames R (fun t => t) (_processJsonActionPacket packet).
Proof.
  unfold _processJsonActionPacket, _rejectInvoke, _processStreamAccept,
    _processStreamDataPermission, _processReadStreamClose,
    _processJsonWriteStreamClose, _processJsonStreamChunk, _processJsonStreamEnd,
    fire_inherited.
  destruct packet; frames_cases;
    first [ apply frames_processData | apply frames_call_onInvalidMessage
          | apply frames_chunk_promise
          | apply (frames_modify R); intros t; apply respected_promises ].
Qed.

Lemma frames_process_bundle (packets : list ActionPacket) :
  frames R (fun t => t) (process_bundle packets).
Proof.
  induction packets as [|p r IH]; simpl; frames_cases;
    [apply frames_processJsonActionPacket | exact IH].
Qed.

Lemma frames_emitMessage_body (rawMsg : RawMessage) :
  frames R (fun t => t)
    (match rawMsg with
     | RawBinary buffer =>
         match buffer with
         | [b] =>
             if byte_value b =? PING_UINT8 then
               try_catch (c ← gets connector; hook Called_onPing (onPing c))
                 (fun err => c ← gets connector;
                             hook (Called_onListenerError err) (onListenerError c err))
             else if byte_value b =? PONG_UINT8 then
               try_catch (c ← gets connector; hook Called_onPong (onPong c))
                 (fun err => c ← gets connector;
                             hook (Called_onListenerError err) (onListenerError c err))
             else _processBinaryPacket buffer
         | _ => _processBinaryPacket buffer
         end
     | RawText (Throw err) => call_onInvalidMessage err
     | RawText (Ok (BundlePacket (Some packets))) => process_bundle packets
     | RawText (Ok (BundlePacket None)) => mret tt
     | RawText (Ok (SinglePacket packet)) => _processJsonActionPacket packet
     end).
Proof.
  destruct rawMsg as [[|b [|c rest]]|[[[packets|]|packet]|err]];
    first [ apply frames_processBinaryPacket | apply frames_call_onInvalidMessage
          | apply frames_process_bundle | apply frames_processJsonActionPacket
          | idtac ].
  - destruct (byte_value b =? PING_UINT8); [frames_cases|].
    destruct (byte_value b =? PONG_UINT8); [frames_cases|].
    apply frames_processBinaryPacket.
  - frames_cases.
Qed.

Lemma frames_emitMessage (rawMsg : RawMessage) :
  frames R (fun t => t) (emitMessage rawMsg).
Proof.
  unfold emitMessage. apply (frames_try_catch R).
  - apply frames_emitMessage_body.
  - intros e. apply frames_call_onInvalidMessage.
Qed.

End FramesOfDispatch.

#[global] Instance same_setup_respected :
  Respected (same (fun t => (options t, connector t, _cid t))).
Proof.
  split; unfold same;
    [ reflexivity | intros t1 t2 t3 H1 H2; congruence | ..];
    first [intros ? []; reflexivity | intros []; reflexivity].
Qed.

Lemma try_catch_ok {S} (m : StateM S unit) (h : Error -> StateM S unit) (s : S) :
  (forall e s1, m s = (Throw e, s1) -> fst (h e s1) = Ok tt) ->
  fst (try_catch m h s) = Ok tt.
Proof.
  intros H. unfold try_catch.
  destruct (m s) as [[[]|e] s1] eqn:E; [reflexivity | apply (H e s1 eq_refl)].
Qed.

(** X7. [emitMessage] is safe to call with any message on any transport:
    it leaves the options, the connector and the counter of call
    identifiers as they are, and when the hook [onInvalidMessage] never
    throws, it returns, whatever the message holds and whatever the
    listeners and callbacks it reaches do. *)
Theorem emitMessage_returns {helpers : Helpers} (rawMsg : RawMessage) (t : Transport) :
  let t' := snd (emitMessage rawMsg t) in
  options t' = options t /\ connector t' = connector t /\ _cid t' = _cid t /\
  ((forall e, onInvalidMessage (connector t) e = None) ->
   fst (emitMessage rawMsg t) = Ok tt).
Proof.
  intros t'.
  assert (Hres : forall x t0,
            same (fun t => (options t, connector t, _cid t)) t0
              (set_binaryContentResolver x t0)).
  { intros x []. reflexivity. }
  assert (Hdel : forall k binaries t0,
            same (fun t => (options t, connector t, _cid t)) t0
              (snd (called (Called_resolverCallback k None binaries) t0))).
  { intros k binaries []. reflexivity. }
  pose proof (frames_emitMessage _ Hres Hdel rawMsg t) as Hsame.
  unfold same in Hsame. fold t' in Hsame. injection Hsame as Ho Hc Hi.
  split; [exact Ho|]. split; [exact Hc|]. split; [exact Hi|].
  intros Hquiet. unfold emitMessage. apply try_catch_ok. intros e t1 Hrun.
  pose proof (frames_emitMessage_body _ Hres Hdel rawMsg t) as Hbody.
  unfold same in Hbody. rewrite Hrun in Hbody. simpl in Hbody.
  injection Hbody as _ Hc1 _.
  unfold call_onInvalidMessage. rewrite bind_gets, Hc1, Hquiet. reflexivity.
Qed.

Lemma emitMessage_returns_witness :
  fst (emitMessage (helpers := spec_helpers) (RawBinary [x05; x00])
         (new_Transport quiet_connector DEFAULT_OPTIONS true)) = Ok tt.
Proof.
  apply (emitMessage_returns (helpers := spec_helpers) (RawBinary [x05; x00])
           (new_Transport quiet_connector DEFAULT_OPTIONS true)).
  intros e. reflexivity.
Defined.

(** * More theorems: bundles *)

Lemma process_bundle_app {helpers : Helpers} (ps qs : list ActionPacket) : forall t,
  process_bundle (ps ++ qs) t =
    match process_bundle ps t with
    | (Ok _, t1) => process_bundle qs t1
    | (Throw e, t1) => (Throw e, t1)
    end.
Proof.
  induction ps as [|p ps IH]; intros t; [reflexivity|].
  cbn [app process_bundle]. unfold mbind, StateM_bind.
  destruct (_processJsonActionPacket p t) as [[[]|e] t']; [apply IH | reflexivity].
Qed.

Lemma process_bundle_singles {helpers : Helpers} (ps : list ActionPacket) :
  forall t t1,
    process_bundle ps t = (Ok tt, t1) -> emit_each ps t = t1.
Proof.
  induction ps as [|p ps IH]; intros t t1 Hrun.
  - inversion Hrun. reflexivity.
  - cbn [process_bundle] in Hrun. apply bind_inv in Hrun as ([] & t' & Hp & Hrest).
    cbn [emit_each]. unfold emitMessage, try_catch. rewrite Hp.
    apply IH. exact Hrest.
Qed.

(** X8. Bundles. When every packet of a bundle is processed without an
    exception, the bundle does what its packets do when each is sent as a
    message of its own, in their order. When a packet throws (a wrong type
    in a checked slot, a [null] element, a second resolver for one
    identifier, ...), the error goes to [onInvalidMessage] once and the
    packets behind it in the bundle are not processed at all. *)
Theorem bundle_stops_at_first_throw {helpers : Helpers}
  (ps rest : list ActionPacket) (p : ActionPacket) (t t1 t2 : Transport) (e : Error) :
  process_bundle ps t = (Ok tt, t1) ->
  _processJsonActionPacket p t1 = (Throw e, t2) ->
  emitMessage (RawText (Ok (BundlePacket (Some ps)))) t = (Ok tt, emit_each ps t) /\
  emitMessage (RawText (Ok (BundlePacket (Some (ps ++ p :: rest))))) t
    = call_onInvalidMessage e t2.
Proof.
  intros Hps Hp. split.
  - unfold emitMessage, try_catch. rewrite Hps.
    rewrite (process_bundle_singles ps t t1 Hps). reflexivity.
  - unfold emitMessage, try_catch. rewrite process_bundle_app, Hps.
    cbn [process_bundle]. unfold mbind, StateM_bind. rewrite Hp. reflexivity.
Qed.

Lemma bundle_stops_at_first_throw_witness :
  let t := new_Transport quiet_connector DEFAULT_OPTIONS true in
  calls (snd (emitMessage (helpers := spec_helpers)
                (RawText (Ok (BundlePacket (Some
                   ([TransmitPacket (VString "a") (KnownType JSON) (VNumber 1) VUndefined]
                    ++ StreamAcceptPacket (VNumber 1) (VString "x")
                    :: [TransmitPacket (VString "b") (KnownType JSON) (VNumber 2)
                          VUndefined]))))) t))
  = [Called_onTransmit "a" (VNumber 1) (KnownType JSON);
     Called_onInvalidMessage (JsError "Invalid buffer size data type to accept a stream.")].
Proof.
  intros t.
  set (ps := [TransmitPacket (VString "a") (KnownType JSON) (VNumber 1) VUndefined]).
  set (p := StreamAcceptPacket (VNumber 1) (VString "x")).
  assert (Hps : process_bundle ps t = (Ok tt, snd (process_bundle ps t)))
    by (vm_compute; reflexivity).
  assert (Hp : _processJsonActionPacket p (snd (process_bundle ps t))
               = (Throw (JsError "Invalid buffer size data type to accept a stream."),
                  snd (process_bundle ps t)))
    by (vm_compute; reflexivity).
  rewrite (proj2 (bundle_stops_at_first_throw (helpers := spec_helpers) ps
             [TransmitPacket (VString "b") (KnownType JSON) (VNumber 2) VUndefined]
             p t _ _ _ Hps Hp)).
  vm_compute. reflexivity.
Defined.

(** * More theorems: responses to an invoke *)

Lemma response_without_entry {helpers : Helpers} (callId : value) (key : string)
  (t : Transport) (p : ActionPacket) :
  ToPropertyKey callId = Ok key ->
  registry_get (_invokeResponsePromises t) key = Absent ->
  (exists type data meta, p = InvokeDataRespPacket callId type data meta) \/
  (exists err, p = InvokeErrRespPacket callId err) ->
  emitMessage (RawText (Ok (SinglePacket p))) t = (Ok tt, t).
Proof.
  intros Hkey Hnone [(type & data & meta & ->) | (err & ->)];
    unfold emitMessage, try_catch, _processJsonActionPacket, _rejectInvoke;
    rewrite (bind_ok _ _ _ t key) by (unfold lift_result; rewrite Hkey; reflexivity);
    rewrite bind_gets, Hnone; reflexivity.
Qed.

(** X9. A pending invoke is settled by the first response only. On a
    transport that has an entry under the name [key] of the identifier
    [callId] of a response (for a number, its numeral), a data response of
    type JSON clears the timer of the entry, takes the entry out and
    resolves the promise with the data (together with the type when the
    invoke asked for it); an error response clears the timer, takes the
    entry out and rejects the promise with the hydrated error. After either
    of them, any further data or error response for [callId] changes nothing
    and calls nothing. *)
Theorem invoke_response_settles_once {helpers : Helpers} (callId : value)
  (key : string) (resp : InvokeResponsePromise) (data meta err : value)
  (t : Transport) :
  ToPropertyKey callId = Ok key ->
  prototype_member key = false ->
  _invokeResponsePromises t !! key = Some resp ->
  let settled c :=
    set_invokeResponsePromises (delete key (_invokeResponsePromises t))
      (record_calls [Called_clearTimeout (timeout resp); c] t) in
  let resolved :=
    settled (Called_resolve key data
               (if returnDataType resp then Some (KnownType JSON) else None)) in
  let rejected := settled (Called_reject key (HydratedError err)) in
  emitMessage (RawText (Ok (SinglePacket
     (InvokeDataRespPacket callId (KnownType JSON) data meta)))) t = (Ok tt, resolved) /\
  emitMessage (RawText (Ok (SinglePacket (InvokeErrRespPacket callId err)))) t
    = (Ok tt, rejected) /\
  (forall p t1,
     t1 = resolved \/ t1 = rejected ->
     (exists type data' meta', p = InvokeDataRespPacket callId type data' meta') \/
     (exists err', p = InvokeErrRespPacket callId err') ->
     emitMessage (RawText (Ok (SinglePacket p))) t1 = (Ok tt, t1)).
Proof.
  intros Hkey Hplain Hresp settled resolved rejected.
  assert (Hconv : forall t0 : Transport,
            lift_result (ToPropertyKey callId) t0 = (Ok key, t0))
    by (intros t0; unfold lift_result; rewrite Hkey; reflexivity).
  pose proof (registry_get_own _ _ _ Hresp) as Hown.
  split; [|split].
  - unfold emitMessage, try_catch, _processJsonActionPacket.
    rewrite (bind_ok _ _ _ _ _ (Hconv t)).
    rewrite bind_gets, Hown, bind_called, bind_modify.
    rewrite processData_known. cbn [run_callback].
    rewrite called_records. subst resolved settled.
    destruct t; unfold record_calls, entries_at; simpl. rewrite <- app_assoc.
    reflexivity.
  - unfold emitMessage, try_catch, _processJsonActionPacket, _rejectInvoke.
    rewrite (bind_ok _ _ _ _ _ (Hconv t)).
    rewrite bind_gets, Hown, bind_called, bind_modify, called_records.
    subst rejected settled.
    destruct t; unfold record_calls, entries_at; simpl. rewrite <- app_assoc.
    reflexivity.
  - intros p t1 Ht1 Hp. apply (response_without_entry callId key); [exact Hkey| |exact Hp].
    unfold registry_get. rewrite Hplain.
    replace (_invokeResponsePromises t1 !! key) with (@None InvokeResponsePromise);
      [reflexivity|].
    destruct Ht1 as [-> | ->]; subst resolved rejected settled;
      destruct t; simpl; symmetry; apply lookup_delete_eq.
Qed.

Lemma invoke_response_settles_once_witness :
  emitMessage (helpers := spec_helpers)
    (RawText (Ok (SinglePacket (InvokeErrRespPacket (VNumber 7) (VString "no")))))
    busy_transport
  = (Ok tt,
     set_invokeResponsePromises (delete "7"%string (_invokeResponsePromises busy_transport))
       (record_calls [Called_clearTimeout (Some {| delay := 10000 |});
                      Called_reject "7" (HydratedError (VString "no"))] busy_transport)).
Proof.
  exact (proj1 (proj2 (invoke_response_settles_once (helpers := spec_helpers)
           (VNumber 7) "7"
           {| timeout := Some {| delay := 10000 |}; returnDataType := false |}
           VNull VNull (VString "no") busy_transport eq_refl eq_refl eq_refl))).
Defined.

(** X10. A data response that cannot be read leaves the promise of the
    invoke unsettled. For a response whose type slot holds nothing that
    [_processData] accepts (it is none of the members JSON and Binary, no
    mixed type, and not the member Stream on a transport with streams
    enabled), the timer of the entry is cleared and the entry is taken out
    before the data is looked at; the error then goes to [onInvalidMessage]
    only: neither [resolve] nor [reject] of the promise is called, and as
    the entry is gone no later response and no timer can settle it. *)
Theorem unreadable_response_settles_nothing {helpers : Helpers} (callId : value)
  (key : string) (resp : InvokeResponsePromise) (type : TypeSlot) (data meta : value)
  (t : Transport) :
  ToPropertyKey callId = Ok key ->
  _invokeResponsePromises t !! key = Some resp ->
  unreadable_type type t = true ->
  onInvalidMessage (connector t) (JsError "Invalid data type.") = None ->
  let t' := snd (emitMessage (RawText (Ok (SinglePacket
                   (InvokeDataRespPacket callId type data meta)))) t) in
  t' = set_invokeResponsePromises (delete key (_invokeResponsePromises t))
         (record_calls [Called_clearTimeout (timeout resp);
                        Called_onInvalidMessage (JsError "Invalid data type.")] t) /\
  _invokeResponsePromises t' !! key = None /\
  (forall k x y, Called_resolve k x y ∉ drop (length (calls t)) (calls t')) /\
  (forall k x, Called_reject k x ∉ drop (length (calls t)) (calls t')).
Proof.
  intros Hkey Hresp Htype Hquiet t'.
  unfold unreadable_type in Htype.
  repeat (apply andb_true_iff in Htype as [Htype ?]).
  repeat match goal with H : negb _ = true |- _ => apply negb_true_iff in H end.
  assert (Hrun : t' = set_invokeResponsePromises (delete key (_invokeResponsePromises t))
                        (record_calls [Called_clearTimeout (timeout resp);
                                       Called_onInvalidMessage (JsError "Invalid data type.")]
                           t)).
  { subst t'. unfold emitMessage, try_catch, _processJsonActionPacket.
    rewrite (bind_ok _ _ _ t key) by (unfold lift_result; rewrite Hkey; reflexivity).
    rewrite bind_gets, (registry_get_own _ _ _ Hresp), bind_called, bind_modify.
    unfold _processData. rewrite bind_gets.
    replace (streamsEnabled (options _)) with (streamsEnabled (options t))
      by (destruct t; reflexivity).
    repeat match goal with H : _ = false |- _ => rewrite H end.
    cbn [fail_callback].
    unfold call_onInvalidMessage. rewrite bind_gets.
    replace (connector _) with (connector t) by (destruct t; reflexivity).
    rewrite Hquiet. unfold hook. rewrite bind_called.
    destruct t; unfold record_calls, entries_at; simpl. rewrite <- app_assoc.
    reflexivity. }
  split; [exact Hrun|].
  assert (Hcalls : drop (length (calls t)) (calls t')
                   = [Called_clearTimeout (timeout resp);
                      Called_onInvalidMessage (JsError "Invalid data type.")]).
  { rewrite Hrun. unfold calls. destruct t; unfold record_calls, entries_at; simpl.
    rewrite fmap_app, length_fmap. rewrite <- (length_fmap call).
    rewrite drop_app_length. reflexivity. }
  split; [rewrite Hrun; destruct t; simpl; apply lookup_delete_eq|].
  rewrite Hcalls. split.
  - intros k x y Hin. repeat (apply elem_of_cons in Hin as [Heq|Hin]; [discriminate Heq|]).
    inversion Hin.
  - intros k x Hin. repeat (apply elem_of_cons in Hin as [Heq|Hin]; [discriminate Heq|]).
    inversion Hin.
Qed.

Lemma unreadable_response_witness :
  _invokeResponsePromises
    (snd (emitMessage (helpers := spec_helpers)
            (RawText (Ok (SinglePacket
               (InvokeDataRespPacket (VNumber 7) (VString "json") VNull VUndefined))))
            busy_transport)) !! "7"%string = None.
Proof.
  exact (proj1 (proj2 (unreadable_response_settles_nothing (helpers := spec_helpers)
           (VNumber 7) "7"
           {| timeout := Some {| delay := 10000 |}; returnDataType := false |}
           (VString "json") VNull VUndefined busy_transport
           eq_refl eq_refl eq_refl eq_refl))).
Defined.

(** The number 0 in the type slot is the member JSON. With the members
    numbered as in the specification, a response of this type is read and
    resolves the promise, and so does a response with the number 4, the
    member for JSON with binaries, that names no binary content packet. *)
Example numbered_type_slots_are_read :
  calls (snd (emitMessage (helpers := spec_helpers)
                (RawText (Ok (SinglePacket
                   (InvokeDataRespPacket (VNumber 7) (VNumber 0) VNull VUndefined))))
                busy_transport))
    = [Called_clearTimeout (Some {| delay := 10000 |}); Called_resolve "7" VNull None] /\
  calls (snd (emitMessage (helpers := spec_helpers)
                (RawText (Ok (SinglePacket
                   (InvokeDataRespPacket (VNumber 7) (VNumber 4) VNull VUndefined))))
                busy_transport))
    = [Called_clearTimeout (Some {| delay := 10000 |}); Called_resolve "7" VNull None].
Proof. split; vm_compute; reflexivity. Qed.

(** * More theorems: resolvers of binary content *)

Lemma processData_awaited {helpers : Helpers} (type : TypeSlot) (data meta : value)
  (cb : DataCallback) (id : Z) (t : Transport) :
  awaited_binaries type data meta = Some id ->
  exists k, _processData type data meta cb t = _resolveBinaryContent (VNumber id) k t.
Proof.
  intros Hawaited. unfold _processData, awaited_binaries in *. rewrite bind_gets.
  destruct (is_type type JSON); [discriminate Hawaited|].
  destruct (is_type type Binary).
  - destruct data; try discriminate Hawaited. inversion Hawaited; subst.
    eexists. reflexivity.
  - destruct (isMixedJSONDataType type); [|discriminate Hawaited].
    destruct meta; try discriminate Hawaited. inversion Hawaited; subst.
    eexists. reflexivity.
Qed.

(** X11. One resolver per binary content packet. While a resolver waits
    for the binary content [id], registered under the name [key] of [id]
    (its numeral), a further transmit or invoke that refers to the same
    [id] is refused: [_resolveBinaryContent] throws, the error goes to
    [onInvalidMessage], no listener is called for the packet, and the
    registry of resolvers stays as it is, so the waiting resolver keeps its
    callback and its timer. *)
Theorem second_resolver_is_refused {helpers : Helpers} (id : Z) (key : string)
  (r : BinaryContentResolver) (type : TypeSlot) (data meta : value)
  (name : string) (callId : Z) (t : Transport) :
  ToPropertyKey (VNumber id) = Ok key ->
  _binaryContentResolver t !! key = Some r ->
  awaited_binaries type data meta = Some id ->
  let refused := call_onInvalidMessage (JsError "Binaries resolver already exists.") t in
  emitMessage (RawText (Ok (SinglePacket
     (TransmitPacket (VString name) type data meta)))) t = refused /\
  emitMessage (RawText (Ok (SinglePacket
     (InvokePacket (VString name) (VNumber callId) type data meta)))) t = refused /\
  _binaryContentResolver (snd refused) = _binaryContentResolver t /\
  calls (snd refused)
    = calls t ++ [Called_onInvalidMessage (JsError "Binaries resolver already exists.")].
Proof.
  intros Hkey Hresolver Hawaited refused.
  assert (Hthrow : forall k,
            _resolveBinaryContent (VNumber id) k t
            = (Throw (JsError "Binaries resolver already exists."), t)).
  { intros k. unfold _resolveBinaryContent.
    rewrite (bind_ok _ _ _ t key) by (unfold lift_result; rewrite Hkey; reflexivity).
    rewrite bind_gets, (registry_get_own _ _ _ Hresolver). reflexivity. }
  split; [|split; [|split]].
  - unfold emitMessage, try_catch, _processJsonActionPacket.
    destruct (processData_awaited type data meta (TransmitCallback name type) id t Hawaited)
      as [k ->].
    rewrite Hthrow. reflexivity.
  - unfold emitMessage, try_catch, _processJsonActionPacket.
    destruct (processData_awaited type data meta (InvokeCallback name callId type) id t
                Hawaited) as [k ->].
    rewrite Hthrow. reflexivity.
  - subst refused. unfold call_onInvalidMessage, hook. rewrite bind_gets, bind_called.
    destruct (onInvalidMessage _ _); destruct t; reflexivity.
  - subst refused. unfold call_onInvalidMessage, hook, calls.
    rewrite bind_gets, bind_called.
    destruct (onInvalidMessage _ _); destruct t; simpl; rewrite fmap_app; reflexivity.
Qed.

Lemma second_resolver_is_refused_witness :
  emitMessage (helpers := spec_helpers)
    (RawText (Ok (SinglePacket
       (TransmitPacket (VString "again") (KnownType Binary) (VNumber 1) VUndefined))))
    awaiting_binary_one
  = call_onInvalidMessage (JsError "Binaries resolver already exists.")
      awaiting_binary_one.
Proof.
  exact (proj1 (second_resolver_is_refused (helpers := spec_helpers) 1 "1"
           {| callback := FirstBinary (TransmitCallback "r" (KnownType Binary));
              resolver_timeout := {| delay := 10000 |} |}
           (KnownType Binary) (VNumber 1) VUndefined "again" 0 awaiting_binary_one
           eq_refl eq_refl eq_refl)).
Defined.

(** A written frame for an identifier that nobody waits for is dropped. *)
Lemma written_frame_unawaited {helpers : Helpers} (refId : Z)
  (content : list (list byte)) (t : Transport) :
  check_sizes content = Ok tt ->
  - 2 ^ 53 <= refId <= 2 ^ 53 ->
  _binaryContentResolver t !! number_key refId = None ->
  emitMessage
    (RawBinary (byte_of (PacketType_code BinaryContent) :: setFloat64 refId
                  ++ concat ((fun item => setUint32 (byteLength item) ++ item)
                               <$> content))) t
  = (Ok tt, t).
Proof.
  intros Hsizes Hid Hnone. apply check_sizes_ok in Hsizes.
  set (body := concat ((fun item => setUint32 (byteLength item) ++ item) <$> content)).
  set (view := byte_of (PacketType_code BinaryContent) :: setFloat64 refId ++ body).
  destruct (scan_written_frame false content
              (byte_of (PacketType_code BinaryContent) :: setFloat64 refId)
              (length view) Hsizes) as (s & Hscan & _ & Hlast).
  { subst view. cbn [length]. rewrite length_app.
    pose proof (length_written_items content) as Hitems. fold body in Hitems. lia. }
  assert (Hfloat : getFloat64 view 1 = Ok (Integral refId)).
  { apply (getFloat64_set [byte_of (PacketType_code BinaryContent)] body refId Hid). }
  assert (Hfind : find_resolver (Integral refId) t = Absent).
  { unfold find_resolver. rewrite float_name_integral by lia.
    apply registry_get_number. exact Hnone. }
  assert (Hpacket : processBinaryContentPacket view 1 t = (Ok tt, t)).
  { rewrite (binary_content_packet_without_resolver view 1 t (Integral refId) s
               Hfloat Hfind Hscan).
    destruct (decide (scan_binaryLen s = Some NEXT_BINARIES_PACKET_TOKEN));
      [contradiction | reflexivity]. }
  assert (Hlong : (9 <= length view)%nat).
  { subst view. cbn [length]. rewrite length_app. unfold setFloat64.
    rewrite length_uint_bytes. lia. }
  assert (Hbin : _processBinaryPacket view t = (Ok tt, t)).
  { unfold _processBinaryPacket. subst view. cbv beta iota.
    rewrite byte_value_code, Z.eqb_refl. exact Hpacket. }
  clearbody view. unfold emitMessage, try_catch.
  destruct view as [|b [|c rest]]; try (simpl in Hlong; lia).
  rewrite Hbin. reflexivity.
Qed.

Lemma call_onInvalidMessage_resolvers (e : Error) (t : Transport) :
  _binaryContentResolver (snd (call_onInvalidMessage e t)) = _binaryContentResolver t.
Proof.
  unfold call_onInvalidMessage, hook. rewrite bind_gets, bind_called.
  destruct (onInvalidMessage _ _); destruct t; reflexivity.
Qed.

Lemma fail_binaries_callback_resolvers (k : BinariesCallback) (e : Error) (t : Transport) :
  _binaryContentResolver (snd (fail_binaries_callback k e t)) = _binaryContentResolver t.
Proof.
  unfold fail_binaries_callback, fail_callback.
  destruct k as [[]|? ? ? []];
    first [apply call_onInvalidMessage_resolvers | destruct t; reflexivity].
Qed.

(** The bytes written for [content], processed while a resolver waits. *)
Lemma binary_content_frame_bytes_processed {helpers : Helpers} (id : Z)
  (content : list (list byte)) (t : Transport) (r : BinaryContentResolver) :
  check_sizes content = Ok tt ->
  - 2 ^ 53 <= id <= 2 ^ 53 ->
  _binaryContentResolver t !! number_key id = Some r ->
  emitMessage
    (RawBinary (byte_of (PacketType_code BinaryContent) :: setFloat64 id
                  ++ concat ((fun item => setUint32 (byteLength item) ++ item)
                               <$> content))) t
  = try_catch (fire_resolver (number_key id) r content) call_onInvalidMessage t /\
  _binaryContentResolver (snd (fire_resolver (number_key id) r content t)) !! number_key id = None.
Proof.
  intros Hsizes Hid Hresolver. apply check_sizes_ok in Hsizes.
  destruct (fire_resolver_continues (number_key id) r content t) as [_ Hgone].
  split; [|exact Hgone].
  set (body := concat ((fun item => setUint32 (byteLength item) ++ item) <$> content)).
  destruct (scan_written_frame true content
              (byte_of (PacketType_code BinaryContent) :: setFloat64 id)
              (length (byte_of (PacketType_code BinaryContent) :: setFloat64 id ++ body))
              Hsizes) as (s & Hscan & Hbinaries & Hlast).
  { cbn [length]. rewrite length_app. pose proof (length_written_items content) as Hi.
    fold body in Hi. lia. }
  apply (process_written_content id body content t r s Hid Hresolver);
    [exact Hscan | exact Hbinaries | exact Hlast].
Qed.


Lemma call_onInvalidMessage_calls (e : Error) (t : Transport) :
  calls (snd (call_onInvalidMessage e t)) = calls t ++ [Called_onInvalidMessage e].
Proof.
  unfold call_onInvalidMessage, hook. rewrite bind_gets, bind_called.
  destruct (onInvalidMessage _ _); apply calls_record_calls.
Qed.

Lemma fail_binaries_callback_calls (k : BinariesCallback) (e : Error) (t : Transport) :
  exists more, calls (snd (fail_binaries_callback k e t)) = calls t ++ more.
Proof.
  unfold fail_binaries_callback, fail_callback.
  destruct k as [[]|? ? ? []]; eexists;
    first [apply call_onInvalidMessage_calls | exact (calls_record_calls [_] t)].
Qed.

Lemma resolver_timer_fires_effect (id : Z) (r : BinaryContentResolver) (t : Transport) :
  _binaryContentResolver t !! number_key id = Some r ->
  (exists more,
     calls (snd (resolver_timer_fires (number_key id) t)) = calls t ++
       Called_resolverCallback (number_key id) (Some (TimeoutError BinaryResolve (number_key id))) []
       :: more) /\
  _binaryContentResolver (snd (resolver_timer_fires (number_key id) t)) !! number_key id = None.
Proof.
  intros Hresolver. unfold resolver_timer_fires.
  rewrite bind_gets, Hresolver, bind_modify, bind_called. split.
  - match goal with |- context [fail_binaries_callback ?k ?e ?s] =>
      destruct (fail_binaries_callback_calls k e s) as [more Hmore]
    end.
    exists more. rewrite Hmore, calls_record_calls, <- app_assoc.
    destruct t; reflexivity.
  - rewrite fail_binaries_callback_resolvers.
    destruct t; simpl. apply lookup_delete_eq.
Qed.

(** X12. The timer of a resolver and the frame it waits for: whichever
    comes first wins, and the other one does nothing. When the timer fires
    first, the resolver is taken out and its callback gets a
    [TimeoutError]; the frame written for the same identifier that arrives
    afterwards is dropped, it calls nothing and changes nothing. When the
    frame comes first, the timer that fires afterwards finds no resolver
    and does nothing. *)
Theorem resolver_timer_or_frame {helpers : Helpers} (id : Z)
  (r : BinaryContentResolver) (content : list (list byte)) (t : Transport) :
  _binaryContentResolver t !! number_key id = Some r ->
  check_sizes content = Ok tt ->
  - 2 ^ 53 <= id <= 2 ^ 53 ->
  let frame := RawBinary (byte_of (PacketType_code BinaryContent) :: setFloat64 id
                            ++ concat ((fun item => setUint32 (byteLength item) ++ item)
                                         <$> content)) in
  let timed_out := snd (resolver_timer_fires (number_key id) t) in
  let delivered := snd (emitMessage frame t) in
  (exists more,
     calls timed_out = calls t ++
       Called_resolverCallback (number_key id) (Some (TimeoutError BinaryResolve (number_key id))) []
       :: more) /\
  emitMessage frame timed_out = (Ok tt, timed_out) /\
  resolver_timer_fires (number_key id) delivered = (Ok tt, delivered).
Proof.
  intros Hresolver Hsizes Hid frame timed_out delivered.
  destruct (resolver_timer_fires_effect id r t Hresolver) as [Hcalls Hgone].
  split; [exact Hcalls|]. split.
  - apply written_frame_unawaited; assumption.
  - assert (Hnone : _binaryContentResolver delivered !! number_key id = None).
    { subst delivered frame.
      destruct (binary_content_frame_bytes_processed id content t r Hsizes Hid Hresolver)
        as [Hrun Hfired].
      rewrite Hrun. unfold try_catch.
      destruct (fire_resolver (number_key id) r content t) as [[[]|e] t'] eqn:Hfire;
        simpl in Hfired |- *; [exact Hfired|].
      rewrite call_onInvalidMessage_resolvers. exact Hfired. }
    unfold resolver_timer_fires. rewrite bind_gets, Hnone. reflexivity.
Qed.

Lemma resolver_timer_or_frame_witness :
  let frame := RawBinary (byte_of (PacketType_code BinaryContent) :: setFloat64 1
                            ++ concat ((fun item => setUint32 (byteLength item) ++ item)
                                         <$> [[xaa]])) in
  emitMessage (helpers := spec_helpers) frame
    (snd (resolver_timer_fires "1" awaiting_binary_one))
  = (Ok tt, snd (resolver_timer_fires "1" awaiting_binary_one)).
Proof.
  exact (proj1 (proj2 (resolver_timer_or_frame (helpers := spec_helpers) 1
           {| callback := FirstBinary (TransmitCallback "r" (KnownType Binary));
              resolver_timeout := {| delay := 10000 |} |}
           [[xaa]] awaiting_binary_one eq_refl eq_refl ltac:(lia)))).
Defined.

(** * More theorems: a binary transmit from end to end *)

Lemma prepareTransmit_buffer {helpers : Helpers} (receiver : string) (b : list byte)
  (sender sender' : Transport) (pack : TransmitPackage) :
  prepareTransmit receiver (VArrayBuffer b) true sender = (Ok pack, sender') ->
  0 <= _binaryContentPacketId sender <= MAX_SAFE_INTEGER + 1 ->
  exists id,
    0 <= id <= MAX_SAFE_INTEGER /\
    check_sizes [b] = Ok tt /\
    pack = {| transmit_pack :=
                {| head := [FPacketType Transmit; FName receiver; FDataType Binary;
                            FNumber id];
                   binaryFrame := Some (BinaryContentMessage id [b]) |};
              transmit_afterSend := None |}.
Proof.
  intros Hprep Hrange. unfold prepareTransmit in Hprep.
  cbn [negb] in Hprep. rewrite bind_gets in Hprep.
  assert (Hbranch :
    (binaryContentPacketId ← _getNewBinaryContentPacketId;
     frame ← lift_result (_createBinaryContentPacket binaryContentPacketId [b]);
     mret {| transmit_pack :=
               {| head := [FPacketType Transmit; FName receiver; FDataType Binary;
                           FNumber binaryContentPacketId];
                  binaryFrame := Some frame |};
             transmit_afterSend := None |}) sender = (Ok pack, sender')).
  { destruct (streamsEnabled (options sender)); exact Hprep. }
  clear Hprep.
  destruct (getNewBinaryContentPacketId_step sender Hrange) as (s1 & Hid & _ & _).
  rewrite (bind_ok _ _ _ _ _ Hid) in Hbranch.
  apply bind_inv in Hbranch as (frame & s2 & Hframe & Hret).
  unfold lift_result, _createBinaryContentPacket in Hframe.
  destruct (check_sizes [b]) as [[]|e] eqn:Hsizes; [|discriminate Hframe].
  inversion Hframe; subst frame s2. inversion Hret; subst pack.
  exists (_binaryContentPacketId sender mod 2 ^ 53).
  pose proof (Z.mod_pos_bound (_binaryContentPacketId sender) (2 ^ 53) ltac:(lia)).
  split; [unfold MAX_SAFE_INTEGER; lia|]. split; reflexivity.
Qed.

(** X13. A buffer sent by [transmit], end to end. The package that
    [prepareTransmit] builds for an [ArrayBuffer] has the head
    [Transmit, receiver, Binary, id] and a binary frame for the same
    [id]. A transport that receives the packet of this head and then the
    bytes of this frame, with no resolver for [id] before and a listener
    that returns, registers a resolver with the timeout of its options,
    then clears that timer and calls [onTransmit] once, with the receiver,
    exactly the bytes of the buffer and the type [Binary]; afterwards its
    registry of resolvers is what it was. *)
Theorem binary_transmit_end_to_end {helpers : Helpers} (receiver : string)
  (b : list byte) (sender sender' : Transport) (pack : TransmitPackage)
  (t : Transport) :
  prepareTransmit receiver (VArrayBuffer b) true sender = (Ok pack, sender') ->
  0 <= _binaryContentPacketId sender <= MAX_SAFE_INTEGER + 1 ->
  exists id msg bytes,
    head (transmit_pack pack)
      = [FPacketType Transmit; FName receiver; FDataType Binary; FNumber id] /\
    binaryFrame (transmit_pack pack) = Some msg /\
    frame_bytes msg = Some bytes /\
    (_binaryContentResolver t !! number_key id = None ->
     onTransmit (connector t) receiver (VArrayBuffer b) (KnownType Binary) = None ->
     let t1 := snd (emitMessage (RawText (Ok (SinglePacket
                      (TransmitPacket (VString receiver) (KnownType Binary) (VNumber id)
                         VUndefined)))) t) in
     let t2 := snd (emitMessage (RawBinary bytes) t1) in
     calls t1 = calls t /\
     fst (emitMessage (RawBinary bytes) t1) = Ok tt /\
     calls t2 = calls t ++
       [Called_clearTimeout
          (Some {| delay := binaryContentPacketTimeout (options t) |});
        Called_resolverCallback (number_key id) None [b];
        Called_onTransmit receiver (VArrayBuffer b) (KnownType Binary)] /\
     _binaryContentResolver t2 = _binaryContentResolver t).
Proof.
  intros Hprep Hrange.
  destruct (prepareTransmit_buffer receiver b sender sender' pack Hprep Hrange)
    as (id & Hid & Hsizes & ->).
  exists id. eexists _, _. split; [reflexivity|]. split; [reflexivity|].
  split; [reflexivity|].
  intros Hfree Hquiet t1 t2.
  set (r := {| callback := FirstBinary (TransmitCallback receiver (KnownType Binary));
               resolver_timeout := {| delay := binaryContentPacketTimeout (options t) |} |}).
  assert (Ht1 : t1 = set_binaryContentResolver
                       (<[number_key id := r]> (_binaryContentResolver t)) t).
  { subst t1. unfold emitMessage, try_catch. cbn [_processJsonActionPacket].
    rewrite processData_known. cbn [is_number].
    unfold _resolveBinaryContent.
    rewrite (bind_ok _ _ _ t tt) by reflexivity.
    rewrite (bind_ok _ _ _ t (number_key id))
      by (unfold lift_result; rewrite ToPropertyKey_number;
          [reflexivity | unfold MAX_SAFE_INTEGER in Hid; lia]).
    rewrite bind_gets, (registry_get_number _ _ Hfree), bind_gets. reflexivity. }
  assert (Hwaits : _binaryContentResolver t1 !! number_key id = Some r).
  { rewrite Ht1. destruct t; simpl. apply lookup_insert_eq. }
  destruct (binary_content_frame_bytes_processed id [b] t1 r Hsizes
              ltac:(unfold MAX_SAFE_INTEGER in Hid; lia) Hwaits) as [Hrun _].
  assert (Hfire : fire_resolver (number_key id) r [b] t1
                  = (Ok tt,
                     record_calls
                       [Called_clearTimeout (Some (resolver_timeout r));
                        Called_resolverCallback (number_key id) None [b];
                        Called_onTransmit receiver (VArrayBuffer b) (KnownType Binary)]
                       (set_binaryContentResolver
                          (delete (number_key id) (_binaryContentResolver t1)) t1))).
  { unfold fire_resolver. rewrite bind_modify, !bind_called.
    subst r. cbn [callback run_binaries_callback run_callback].
    change (binary_at [b] 0) with (VArrayBuffer b).
    unfold _processTransmit, try_catch.
    rewrite bind_gets.
    replace (connector _) with (connector t) by (rewrite Ht1; destruct t; reflexivity).
    rewrite Hquiet. unfold hook. rewrite bind_called. cbn.
    rewrite !record_calls_app. reflexivity. }
  split; [rewrite Ht1; destruct t; reflexivity|].
  subst t2. change (RawBinary _) with
    (RawBinary (byte_of (PacketType_code BinaryContent) :: setFloat64 id
                  ++ concat ((fun item => setUint32 (byteLength item) ++ item) <$> [b]))).
  rewrite Hrun. unfold try_catch. rewrite Hfire.
  split; [reflexivity|]. split.
  - cbn [snd]. rewrite calls_record_calls. f_equal.
    rewrite Ht1. destruct t; reflexivity.
  - cbn [snd]. rewrite Ht1. destruct t; simpl.
    apply delete_insert_id. exact Hfree.
Qed.

Lemma binary_transmit_end_to_end_witness :
  let sender := new_Transport quiet_connector DEFAULT_OPTIONS true in
  let pack := {| transmit_pack :=
                   {| head := [FPacketType Transmit; FName "r"; FDataType Binary;
                               FNumber 0];
                      binaryFrame := Some (BinaryContentMessage 0 [[xaa]]) |};
                 transmit_afterSend := None |} in
  exists id msg bytes,
    head (transmit_pack pack)
      = [FPacketType Transmit; FName "r"; FDataType Binary; FNumber id] /\
    binaryFrame (transmit_pack pack) = Some msg /\
    frame_bytes msg = Some bytes /\
    calls (snd (emitMessage (helpers := spec_helpers) (RawBinary bytes)
                  (snd (emitMessage (helpers := spec_helpers)
                          (RawText (Ok (SinglePacket
                             (TransmitPacket (VString "r") (KnownType Binary)
                                (VNumber id) VUndefined)))) sender))))
    = calls sender ++
        [Called_clearTimeout (Some {| delay := 10000 |});
         Called_resolverCallback (number_key id) None [[xaa]];
         Called_onTransmit "r" (VArrayBuffer [xaa]) (KnownType Binary)].
Proof.
  intros sender pack.
  destruct (binary_transmit_end_to_end (helpers := spec_helpers) "r" [xaa] sender
              (set_binaryContentPacketId 1 sender) pack sender eq_refl)
    as (id & msg & bytes & Hhead & Hframe & Hbytes & Hrun).
  - unfold MAX_SAFE_INTEGER. simpl. lia.
  - exists id, msg, bytes. split; [exact Hhead|]. split; [exact Hframe|].
    split; [exact Hbytes|].
    destruct (Hrun (lookup_empty _) eq_refl) as (_ & _ & Hcalls & _). exact Hcalls.
Defined.

(** * More theorems: the data of a packet of type [Stream] *)

(** X14. A transmit of type [Stream] whose data is no number, on a
    transport with streams enabled: [_processData] calls its callback with
    the error [Invalid stream id.] and then goes on and calls it again with
    a read stream made from that data. So for this one packet the hook
    [onInvalidMessage] is called and, when it returns, the listener
    [onTransmit] is called too, with a stream that has no numeric
    identifier. *)
Theorem stream_packet_without_id_is_delivered {helpers : Helpers} (receiver : string)
  (data meta : value) (t : Transport) :
  streamsEnabled (options t) = true ->
  is_number data = false ->
  onInvalidMessage (connector t) (JsError "Invalid stream id.") = None ->
  onTransmit (connector t) receiver (VReadStream {| rs_id := None |}) (KnownType Stream)
    = None ->
  emitMessage (RawText (Ok (SinglePacket
     (TransmitPacket (VString receiver) (KnownType Stream) data meta)))) t
  = (Ok tt,
     record_calls
       [Called_onInvalidMessage (JsError "Invalid stream id.");
        Called_onTransmit receiver (VReadStream {| rs_id := None |}) (KnownType Stream)]
       t).
Proof.
  intros Hon Hdata Hquiet Hlistener.
  assert (Hid : number_of data = None) by (destruct data; try reflexivity; discriminate).
  unfold emitMessage, try_catch. cbn [_processJsonActionPacket].
  rewrite processData_known, Hon, Hdata, Hid. cbn [fail_callback run_callback].
  assert (Hfail : call_onInvalidMessage (JsError "Invalid stream id.") t
                  = (Ok tt, record_calls [Called_onInvalidMessage
                                            (JsError "Invalid stream id.")] t)).
  { unfold call_onInvalidMessage. rewrite bind_gets, Hquiet. reflexivity. }
  rewrite (bind_ok _ _ _ _ _ Hfail).
  unfold _processTransmit, try_catch. rewrite bind_gets, connector_record_calls, Hlistener.
  unfold hook. rewrite bind_called. cbn. rewrite record_calls_app. reflexivity.
Qed.

Lemma stream_packet_without_id_witness :
  emitMessage (helpers := spec_helpers)
    (RawText (Ok (SinglePacket
       (TransmitPacket (VString "r") (KnownType Stream) (VString "x") VUndefined))))
    (new_Transport quiet_connector DEFAULT_OPTIONS true)
  = (Ok tt,
     record_calls
       [Called_onInvalidMessage (JsError "Invalid stream id.");
        Called_onTransmit "r" (VReadStream {| rs_id := None |}) (KnownType Stream)]
       (new_Transport quiet_connector DEFAULT_OPTIONS true)).
Proof.
  apply (stream_packet_without_id_is_delivered (helpers := spec_helpers) "r"
           (VString "x") VUndefined (new_Transport quiet_connector DEFAULT_OPTIONS true));
    reflexivity.
Defined.

(** * More theorems: packages for many transports *)

Section Agreement.
Context {helpers : Helpers}.

Lemma agrees_ret {A} (a : A) : agrees (mret a) (mret a).
Proof. intros []. reflexivity. Qed.

Lemma agrees_bind {A B} (m : StateM Walk A) (m' : StateM (list (list byte)) A)
  (k : A -> StateM Walk B) (k' : A -> StateM (list (list byte)) B) :
  agrees m m' -> (forall a, agrees (k a) (k' a)) -> agrees (m ≫= k) (m' ≫= k').
Proof.
  intros Hm Hk w. unfold mbind, StateM_bind. rewrite (Hm w).
  destruct (m' (w_binaries w)) as [[a|e] bs]; simpl; [|reflexivity].
  rewrite (Hk a _). reflexivity.
Qed.

Lemma agrees_each_item (f : value -> StateM Walk value)
  (f' : value -> StateM (list (list byte)) value) (l : list value) :
  Forall (fun v => write_streams v = [] -> agrees (f v) (f' v)) l ->
  concat (write_streams <$> l) = [] ->
  agrees (each_item f l) (each_item f' l).
Proof.
  induction 1 as [|v l Hv Hl IH]; intros Hnone; [apply agrees_ret|].
  rewrite fmap_cons in Hnone. simpl in Hnone.
  apply app_eq_nil in Hnone as [Hv0 Hl0].
  rewrite !each_item_cons.
  apply agrees_bind; [apply Hv; exact Hv0|]. intros x'.
  apply agrees_bind; [apply IH; exact Hl0|]. intros r'. apply agrees_ret.
Qed.

Lemma agrees_each_prop (rename : string -> string) (f : value -> StateM Walk value)
  (f' : value -> StateM (list (list byte)) value) (l : list (string * value)) :
  Forall (fun p => write_streams (snd p) = [] -> agrees (f (snd p)) (f' (snd p))) l ->
  concat ((fun p => write_streams (snd p)) <$> l) = [] ->
  forall clone, agrees (each_prop rename f l clone) (each_prop rename f' l clone).
Proof.
  induction 1 as [|p l Hp Hl IH]; intros Hnone clone; [apply agrees_ret|].
  rewrite fmap_cons in Hnone. simpl in Hnone.
  apply app_eq_nil in Hnone as [Hp0 Hl0].
  rewrite !each_prop_cons.
  apply agrees_bind; [apply Hp; exact Hp0|]. intros v'. apply IH. exact Hl0.
Qed.

Lemma agrees_walk (data : value) :
  write_streams data = [] ->
  agrees (_processMixedJSONDeepWalk data) (_processMultiMixedJSONDeep data).
Proof.
  induction data using value_deep_ind; intros Hnone;
    try (intros []; reflexivity).
  - discriminate Hnone.
  - simpl in Hnone |- *.
    apply agrees_bind; [|intros a; apply agrees_ret].
    apply agrees_each_item; assumption.
  - simpl in Hnone |- *.
    apply agrees_bind; [|intros a; apply agrees_ret].
    apply agrees_each_prop; assumption.
Qed.

End Agreement.

(** X15. The two encoding walks agree on payloads without streams. For a
    value that holds no write stream, [_processMixedJSONDeep] of a
    transport returns the encoded value and the binaries that the static
    [_processMultiMixedJSONDeep] returns, collects no stream and leaves the
    transport exactly as it was: no identifier is used and nothing is
    called. *)
Theorem multi_walk_agrees {helpers : Helpers} (data : value) (t : Transport) :
  write_streams data = [] ->
  _processMixedJSONDeep data t =
    (match fst (_processMultiMixedJSONDeep data []) with
     | Ok encoded => Ok (encoded, snd (_processMultiMixedJSONDeep data []), [])
     | Throw e => Throw e
     end, t).
Proof.
  intros Hnone. unfold _processMixedJSONDeep.
  rewrite (agrees_walk data Hnone). simpl.
  destruct (_processMultiMixedJSONDeep data []) as [[v|e] bs]; reflexivity.
Qed.

Lemma multi_walk_agrees_witness :
  _processMixedJSONDeep (helpers := spec_helpers)
    (VObject [("a"%string, VArrayBuffer [xaa])])
    (new_Transport quiet_connector DEFAULT_OPTIONS true)
  = (Ok (VObject [("a"%string, VObject [("_b"%string, VNumber 0)])], [[xaa]], []),
     new_Transport quiet_connector DEFAULT_OPTIONS true).
Proof.
  apply (multi_walk_agrees (helpers := spec_helpers)
           (VObject [("a"%string, VArrayBuffer [xaa])])
           (new_Transport quiet_connector DEFAULT_OPTIONS true)).
  reflexivity.
Defined.


(** * More theorems: the order of a transmit *)

Section Initializing.
Context {helpers : Helpers}.

Lemma initializes_ret {A} (a : A) : initializes [] (mret a).
Proof.
  intros w _. exists a, w, []. unfold init_calls. simpl. rewrite !app_nil_r.
  repeat split; reflexivity.
Qed.

Lemma initializes_bind {A B} (s1 s2 : list WriteStream) (m : StateM Walk A)
  (k : A -> StateM Walk B) :
  initializes s1 m -> (forall a, initializes s2 (k a)) -> initializes (s1 ++ s2) (m ≫= k).
Proof.
  intros Hm Hk w Hon.
  assert (Hon0 : s1 <> [] -> streamsEnabled (options (w_transport w)) = true).
  { intros Hne. apply Hon. intros Happ. apply app_eq_nil in Happ as [? _]. auto. }
  destruct (Hm w Hon0) as (a & w1 & n1 & Hrun1 & Hs1 & Hf1 & Hc1 & Ho1).
  assert (Hon1 : s2 <> [] -> streamsEnabled (options (w_transport w1)) = true).
  { intros Hne. rewrite Ho1. apply Hon. intros Happ.
    apply app_eq_nil in Happ as [_ ?]. auto. }
  destruct (Hk a w1 Hon1) as (b & w2 & n2 & Hrun2 & Hs2 & Hf2 & Hc2 & Ho2).
  exists b, w2, (n1 ++ n2).
  split; [rewrite (bind_ok _ _ _ _ _ Hrun1); exact Hrun2|].
  split; [rewrite Hs2, Hs1, app_assoc; reflexivity|].
  split; [rewrite fmap_app, Hf1, Hf2; reflexivity|].
  split; [|congruence].
  rewrite Hc2, Hc1. unfold init_calls. rewrite fmap_app, app_assoc. reflexivity.
Qed.

Lemma initializes_then_ret {A B} (s : list WriteStream) (m : StateM Walk A) (g : A -> B) :
  initializes s m -> initializes s (a ← m; mret (g a)).
Proof.
  intros Hm. rewrite <- (app_nil_r s).
  apply initializes_bind; [exact Hm|]. intros a. apply initializes_ret.
Qed.

Lemma initializes_each_item (f : value -> StateM Walk value)
  (g : value -> list WriteStream) (l : list value) :
  Forall (fun v => initializes (g v) (f v)) l ->
  initializes (concat (g <$> l)) (each_item f l).
Proof.
  induction 1 as [|v l Hv Hl IH]; [apply initializes_ret|].
  rewrite each_item_cons, fmap_cons. simpl.
  apply initializes_bind; [exact Hv|]. intros x'.
  apply (initializes_then_ret _ _ (fun r' => x' :: r')). exact IH.
Qed.

Lemma initializes_each_prop (rename : string -> string)
  (f : value -> StateM Walk value) (g : value -> list WriteStream)
  (l : list (string * value)) :
  Forall (fun p => initializes (g (snd p)) (f (snd p))) l ->
  forall clone,
    initializes (concat ((fun p => g (snd p)) <$> l)) (each_prop rename f l clone).
Proof.
  induction 1 as [|p l Hp Hl IH]; intros clone; [apply initializes_ret|].
  rewrite each_prop_cons, fmap_cons. simpl.
  apply initializes_bind; [exact Hp|]. intros v'. apply IH.
Qed.

Lemma getNewStreamId_quiet (b : bool) (t : Transport) :
  exists streamId t1,
    _getNewStreamId b t = (Ok streamId, t1) /\
    calls t1 = calls t /\ options t1 = options t /\
    badConnectionStamp t1 = badConnectionStamp t /\ open t1 = open t /\
    trace t1 = trace t.
Proof.
  unfold _getNewStreamId. destruct b; eexists _, _; (split; [reflexivity|]);
    destruct t; simpl;
    repeat match goal with |- context [if ?c then _ else _] => destruct c end;
    repeat split; reflexivity.
Qed.

Lemma initializes_walk (data : value) :
  initializes (write_streams data) (_processMixedJSONDeepWalk data).
Proof.
  induction data using value_deep_ind; try apply initializes_ret.
  - intros w _. eexists _, _, []. unfold init_calls. simpl. rewrite !app_nil_r.
    split; [reflexivity|]. repeat split; reflexivity.
  - intros w0 Hon. specialize (Hon ltac:(discriminate)).
    destruct (getNewStreamId_quiet (binary w) (w_transport w0))
      as (streamId & t1 & Hid & Hc & Ho & _).
    exists (VObject [("_s"%string, VNumber streamId)]),
      {| w_transport := snd (called (Called_writeStream w (ws_init streamId)) t1);
         w_binaries := w_binaries w0; w_streams := w_streams w0 ++ [(w, streamId)] |},
      [(w, streamId)].
    split.
    { simpl. unfold on_transport.
      unfold mbind at 1, StateM_bind at 1. simpl. rewrite Hon.
      unfold mbind at 1, StateM_bind at 1. simpl. rewrite Hid. reflexivity. }
    split; [reflexivity|]. split; [reflexivity|].
    cbn [w_transport]. rewrite called_records. cbn [snd].
    rewrite calls_record_calls, Hc. split; [reflexivity|].
    rewrite <- Ho. destruct t1; reflexivity.
  - simpl. apply (initializes_then_ret _ _ VArray). apply initializes_each_item.
    assumption.
  - simpl. apply (initializes_then_ret _ _ VObject). apply initializes_each_prop.
    assumption.
Qed.

End Initializing.

(** The mixed branch of a sender: the streams it hands back are the write
    streams of the payload, each initialised, and nothing else is
    called. *)
Lemma mixed_package_initializes {helpers : Helpers} (data : value) (single : bool)
  (mkHead : DataType -> list Field) (t t1 : Transport) (p : Package)
  (streams : list (WriteStream * Z)) :
  mixed_package data single mkHead t = (Ok (p, streams), t1) ->
  (write_streams data <> [] -> streamsEnabled (options t) = true) ->
  fst <$> streams = write_streams data /\
  calls t1 = calls t ++ init_calls streams.
Proof.
  intros Hpack Hon. unfold mixed_package in Hpack.
  apply bind_inv in Hpack as ([[data' binaries] streams'] & t3 & Hwalk & Hpack).
  unfold _processMixedJSONDeep in Hwalk.
  pose proof (initializes_walk data
                {| w_transport := t; w_binaries := []; w_streams := [] |} Hon)
    as (enc & w' & news & Hw & Hs & Hf & Hc & _).
  rewrite Hw in Hwalk. simpl in Hs, Hc. inversion Hwalk; subst data' binaries streams' t3.
  destruct (nonempty (w_binaries w')).
  - apply bind_inv in Hpack as (id & t4 & Hid & Hpack).
    apply bind_inv in Hpack as (frame & t5 & Hframe & Hpack).
    inversion Hpack; subst. unfold lift_result in Hframe. inversion Hframe; subst.
    split; [exact Hf|].
    unfold _getNewBinaryContentPacketId in Hid. inversion Hid; subst.
    rewrite <- Hc. unfold calls.
    destruct (w_transport w'); simpl. destruct (MAX_SAFE_INTEGER <? _); reflexivity.
  - inversion Hpack; subst. split; [exact Hf | exact Hc].
Qed.

Lemma onTransmitted_all_run (streams : list (WriteStream * Z)) : forall t,
  onTransmitted_all streams t = (Ok tt, record_calls (transmitted_calls streams) t).
Proof.
  induction streams as [|s r IH]; intros t.
  - simpl. rewrite record_calls_nil. reflexivity.
  - cbn [onTransmitted_all]. rewrite bind_called, IH.
    unfold transmitted_calls. rewrite fmap_cons, record_calls_app. reflexivity.
Qed.

Lemma frames_prepareTransmit {helpers : Helpers}
  (R : Transport -> Transport -> Prop) `{!Respected R}
  (receiver : string) (data : value) (processComplexTypes : bool) :
  frames R (fun t => t) (prepareTransmit receiver data processComplexTypes).
Proof.
  unfold prepareTransmit. destruct processComplexTypes; cbn [negb]; [|frames_step].
  frames_step; [frames_step|].
  destruct data, a; frames_cases; try apply (frames_mixed_package R).
Qed.

(** The package of [prepareTransmit], by the streams it initialised. *)
Lemma prepareTransmit_initializes {helpers : Helpers} (receiver : string)
  (data : value) (processComplexTypes : bool) (t t1 : Transport)
  (pack : TransmitPackage) :
  prepareTransmit receiver data processComplexTypes t = (Ok pack, t1) ->
  streamsEnabled (options t) = true ->
  exists streams,
    fst <$> streams
      = (if processComplexTypes then write_streams data else []) /\
    calls t1 = calls t ++ init_calls streams /\
    (transmit_afterSend pack = Some streams \/
     streams = [] /\ transmit_afterSend pack = None) /\
    connector t1 = connector t.
Proof.
  intros Hprep Hon.
  assert (Hconn : connector t1 = connector t).
  { pose proof (frames_prepareTransmit
                  (same (fun t => (options t, connector t, _cid t)))
                  receiver data processComplexTypes t) as Hsame.
    rewrite Hprep in Hsame. unfold same in Hsame. cbn [snd] in Hsame.
    injection Hsame as _ Hc _. exact Hc. }
  cut (exists streams,
         fst <$> streams = (if processComplexTypes then write_streams data else []) /\
         calls t1 = calls t ++ init_calls streams /\
         (transmit_afterSend pack = Some streams \/
          streams = [] /\ transmit_afterSend pack = None)).
  { intros (streams & H1 & H2 & H3). exists streams. auto. }
  clear Hconn. unfold prepareTransmit in Hprep.
  destruct processComplexTypes; cbn [negb] in Hprep.
  2:{ inversion Hprep; subst. exists []. unfold init_calls. simpl. rewrite app_nil_r.
      split; [reflexivity|]. split; [reflexivity|]. right. split; reflexivity. }
  rewrite bind_gets, Hon in Hprep.
  assert (Hmixed :
    (p ← mixed_package data false
           (fun type => [FPacketType Transmit; FName receiver; FDataType type]);
     let '(pack0, streams) := p in
     mret {| transmit_pack := pack0;
             transmit_afterSend := if nonempty streams then Some streams else None |}) t
    = (Ok pack, t1) ->
    exists streams,
      fst <$> streams = write_streams data /\
      calls t1 = calls t ++ init_calls streams /\
      (transmit_afterSend pack = Some streams \/
       streams = [] /\ transmit_afterSend pack = None)).
  { clear Hprep. intros Hrun.
    apply bind_inv in Hrun as ([p0 streams] & t2 & Hpack & Hret).
    apply mixed_package_initializes in Hpack as [Hf Hc]; [|intros _; exact Hon].
    inversion Hret; subst. exists streams. split; [exact Hf|]. split; [exact Hc|].
    destruct streams; simpl; [right; split; reflexivity | left; reflexivity]. }
  destruct data; try (apply Hmixed; exact Hprep); clear Hmixed.
  - apply bind_inv in Hprep as (id & t2 & Hid & Hprep).
    apply bind_inv in Hprep as (frame & t3 & Hframe & Hprep).
    inversion Hprep; subst. unfold lift_result in Hframe. inversion Hframe; subst.
    exists []. unfold init_calls. simpl. rewrite app_nil_r.
    split; [reflexivity|]. split; [|right; split; reflexivity].
    unfold _getNewBinaryContentPacketId in Hid. inversion Hid; subst.
    unfold calls. destruct t; simpl. destruct (MAX_SAFE_INTEGER <? _); reflexivity.
  - destruct (getNewStreamId_quiet (binary w) t) as (streamId & t2 & Hid & Hc & _).
    rewrite (bind_ok _ _ _ _ _ Hid), bind_called in Hprep.
    inversion Hprep; subst. exists [(w, streamId)].
    split; [reflexivity|]. split; [|left; reflexivity].
    rewrite calls_record_calls, Hc. reflexivity.
Qed.

(** The sends of a package, by what the function of the connector does. *)
Lemma silentDirectSendPackage_run (pack : Package) (t : Transport) :
  _silentDirectSendPackage pack t =
    (match snd (attempted_sends (connector t) (package_messages pack)) with
     | None => Ok tt
     | Some e => Throw e
     end,
     record_calls (fst (attempted_sends (connector t) (package_messages pack))) t).
Proof.
  unfold _silentDirectSendPackage, package_messages.
  destruct (binaryFrame pack) as [frame|]; cbn [attempted_sends].
  - pose proof (send_run (TextMessage (head pack)) t) as Htext.
    destruct (connector_send (connector t) (TextMessage (head pack))) as [e|].
    + rewrite (bind_throw _ _ _ _ _ Htext). reflexivity.
    + rewrite (bind_ok _ _ _ _ _ Htext), send_run, connector_record_calls.
      destruct (connector_send (connector t) frame);
        cbn [fst snd]; rewrite record_calls_app; reflexivity.
  - rewrite send_run.
    destruct (connector_send (connector t) (TextMessage (head pack))); reflexivity.
Qed.

(** X16. The order of a transmit. [prepareTransmit] followed by
    [_directSendPackage], which is what [transmit] does on an open
    transport without batching, on a transport with streams enabled:
    first every write stream of the payload is bound to its identifier by
    [_init], in the order of the payload (none without complex types), and
    nothing else is called; then the text message is handed to [send], then
    the binary frame if the package has one. When these calls of [send]
    return, [_onTransmitted] is called on each of the streams, in the same
    order, and the call returns. When one of them throws,
    [_directSendPackage] throws that error at once: what follows is not
    sent and [_onTransmitted] is called on no stream. *)
Theorem transmit_order {helpers : Helpers} (receiver : string) (data : value)
  (processComplexTypes : bool) (t t1 : Transport) (pack : TransmitPackage) :
  prepareTransmit receiver data processComplexTypes t = (Ok pack, t1) ->
  streamsEnabled (options t) = true ->
  exists streams,
    fst <$> streams = (if processComplexTypes then write_streams data else []) /\
    calls t1 = calls t ++ init_calls streams /\
    let sends := attempted_sends (connector t) (package_messages (transmit_pack pack)) in
    _directSendPackage pack t1
    = match snd sends with
      | None => (Ok tt, record_calls (fst sends ++ transmitted_calls streams) t1)
      | Some e => (Throw e, record_calls (fst sends) t1)
      end.
Proof.
  intros Hprep Hon.
  destruct (prepareTransmit_initializes receiver data processComplexTypes t t1 pack
              Hprep Hon) as (streams & Hf & Hc & Hhook & Hconn).
  exists streams. split; [exact Hf|]. split; [exact Hc|]. intros sends.
  unfold _directSendPackage.
  pose proof (silentDirectSendPackage_run (transmit_pack pack) t1) as Hsent.
  rewrite Hconn in Hsent. fold sends in Hsent.
  destruct (snd sends) as [e|].
  - rewrite (bind_throw _ _ _ _ _ Hsent). reflexivity.
  - rewrite (bind_ok _ _ _ _ _ Hsent).
    destruct Hhook as [-> | [-> ->]].
    + rewrite onTransmitted_all_run, record_calls_app. reflexivity.
    + unfold transmitted_calls. rewrite fmap_nil, app_nil_r. reflexivity.
Qed.

Lemma transmit_order_witness :
  let w := {| binary := false; label := 0 |} in
  let t := new_Transport quiet_connector DEFAULT_OPTIONS true in
  let data := VArray [VWriteStream w; VArrayBuffer [xaa]] in
  let pack :=
    {| transmit_pack :=
         {| head := [FPacketType Transmit; FName "r";
                     FDataType JSONWithStreamsAndBinaries;
                     FJson (VArray [VObject [("_s", VNumber 1)];
                                    VObject [("_b", VNumber 0)]]);
                     FNumber 0];
            binaryFrame := Some (BinaryContentMessage 0 [[xaa]]) |};
       transmit_afterSend := Some [(w, 1)] |} in
  let t1 := snd (prepareTransmit (helpers := spec_helpers) "r" data true t) in
  exists streams,
    fst <$> streams = [w] /\
    calls t1 = calls t ++ init_calls streams /\
    _directSendPackage pack t1
    = (Ok tt,
       record_calls
         ([Called_send (TextMessage (head (transmit_pack pack)));
           Called_send (BinaryContentMessage 0 [[xaa]])]
          ++ transmitted_calls streams) t1).
Proof.
  intros w t data pack t1.
  destruct (transmit_order (helpers := spec_helpers) "r" data true t t1 pack
              eq_refl eq_refl)
    as (streams & Hf & Hc & Hrun).
  exists streams. split; [exact Hf|]. split; [exact Hc | exact Hrun].
Defined.
